(** * micro-analytics: the sharded SQLite driver

    A shallow embedding of the sharded driver of package [sqlite]: the
    shard resolver, the time-range filter, the cache-key normaliser
    [formatURLForCache] and the five driver operations [Query], [GroupBy],
    [Series], [Insert] and [Delete], followed by the properties of the
    driver that its specification states.

    Go's [int] is the 64-bit signed integer and is modelled by [Z] with
    the wrap-around written out where the code does arithmetic.  A Go
    function returning [(T, error)] returns a pair here as well, [nil]
    being [None]. *)

From Stdlib Require Import ZArith List String Ascii Lia Permutation DecimalString.
From Stdlib Require Import DecimalPos DecimalZ.
From stdpp Require Import base option list gmap strings sorting.

Local Open Scope string_scope.
Local Open Scope Z_scope.

(** ** Errors *)

Inductive NumErrKind := ErrSyntax | ErrRange.

(** [errors.InternalError], [errors.InvalidDatabaseName] and
    [errors.InsertFailed] are the driver's own errors; [NumError] is
    [*strconv.NumError]; [ManagerError] is whatever [DBManager.DeleteDB]
    reports and [CacheError] what [lru.New] reports. *)
Inductive Error :=
| InternalError
| InvalidDatabaseName
| InsertFailed
| NumError (num : string) (kind : NumErrKind)
| ManagerError (msg : string)
| CacheError (msg : string).

(** ** package strconv *)

Module strconv.

Definition maxInt : Z := 2 ^ 63 - 1.
Definition minInt : Z := - 2 ^ 63.

Definition digit_of (c : ascii) : option Z :=
  let n := Z.of_N (N_of_ascii c) in
  if (48 <=? n) && (n <=? 57) then Some (n - 48) else None.

(** The loop of [Atoi]'s fast path, which runs on at most 18 bytes: no
    step of it can overflow. *)
Fixpoint digits (s : string) (acc : Z) : option Z :=
  match s with
  | EmptyString => Some acc
  | String c r =>
      match digit_of c with
      | Some d => digits r (acc * 10 + d)
      | None => None
      end
  end.

Definition maxUint64 : Z := 2 ^ 64 - 1.

(** The loop of [ParseUint] in base 10 on 64 bits: it reads the bytes
    from the left and stops at the first byte that is not a digit with
    [ErrSyntax], and at the first digit that takes the number over
    [maxUint64] with [maxUint64] and [ErrRange], whatever follows. *)
Fixpoint parseDigits (s : string) (n : Z) : Z * option NumErrKind :=
  match s with
  | EmptyString => (n, None)
  | String c r =>
      match digit_of c with
      | None => (0, Some ErrSyntax)
      | Some d =>
          if maxUint64 / 10 + 1 <=? n then (maxUint64, Some ErrRange)
          else
            let n1 := n * 10 + d in
            if maxUint64 <? n1 then (maxUint64, Some ErrRange)
            else parseDigits r n1
      end
  end.

(** [strconv.ParseUint(s, 10, 0)] *)
Definition ParseUint (s : string) : Z * option NumErrKind :=
  match s with
  | EmptyString => (0, Some ErrSyntax)
  | _ => parseDigits s 0
  end.

(** [strconv.ParseInt(s, 10, 0)]: the sign is picked off, the rest read
    by [ParseUint]; a syntax error is returned as it is, and a number
    that does not fit [int] (among them the one on which [ParseUint]
    gave up) is [ErrRange] with the nearest bound. *)
Definition ParseInt (s : string) : Z * option Error :=
  match s with
  | EmptyString => (0, Some (NumError s ErrSyntax))
  | _ =>
      let '(neg, body) :=
        match s with
        | String "+" r => (false, r)
        | String "-" r => (true, r)
        | _ => (false, s)
        end in
      match ParseUint body with
      | (_, Some ErrSyntax) => (0, Some (NumError s ErrSyntax))
      | (un, _) =>
          let cutoff := 2 ^ 63 in
          if negb neg && (cutoff <=? un) then (cutoff - 1, Some (NumError s ErrRange))
          else if neg && (cutoff <? un) then (- cutoff, Some (NumError s ErrRange))
          else (if neg then - un else un, None)
      end
  end.

(** [strconv.Atoi]: strings of 1 to 18 bytes take the fast path, an
    optional sign and then digits only; the others go through
    [ParseInt]. *)
Definition Atoi (s : string) : Z * option Error :=
  let sLen := Z.of_nat (String.length s) in
  if (0 <? sLen) && (sLen <? 19) then
    let '(neg, body) :=
      match s with
      | String "-" r => (true, r)
      | String "+" r => (false, r)
      | _ => (false, s)
      end in
    match body with
    | EmptyString => (0, Some (NumError s ErrSyntax))
    | _ =>
        match digits body 0 with
        | None => (0, Some (NumError s ErrSyntax))
        | Some n => (if neg then - n else n, None)
        end
    end
  else ParseInt s.

(** [strconv.Itoa] *)
Definition Itoa (n : Z) : string := NilZero.string_of_int (Z.to_int n).

End strconv.

(** ** package strings *)

Module strings.

(** [strings.Split s sep] for a separator of one byte. *)
Fixpoint Split (s : string) (sep : ascii) : list string :=
  match s with
  | EmptyString => [EmptyString]
  | String c r =>
      if Ascii.eqb c sep then EmptyString :: Split r sep
      else match Split r sep with
           | h :: t => String c h :: t
           | [] => [String c EmptyString]
           end
  end.

Fixpoint Join (parts : list string) (sep : string) : string :=
  match parts with
  | [] => EmptyString
  | [p] => p
  | p :: rest => p +:+ sep +:+ Join rest sep
  end.

End strings.

(** ** package time

    A [time.Time] is an instant and the location it is shown in.  The
    driver reads three things of it: the year and the month that
    [Format] prints, which are those of the instant on the clocks of the
    location, and the instant itself, which [Equal] compares and which
    no location changes.  The instant is counted in seconds from January
    1 of year 1, 00:00:00 UTC, the instant of the zero value
    [time.Time{}], which is shown in UTC. *)

Record Time := mkTimeIn { t_year : Z; t_month : Z; t_instant : Z }.

Module time.

Definition isLeap (year : Z) : bool :=
  (year mod 4 =? 0) && (negb (year mod 100 =? 0) || (year mod 400 =? 0)).

(** The days from January 1 of year 1 to January 1 of [year]. *)
Definition daysBeforeYear (year : Z) : Z :=
  let y := year - 1 in
  365 * y + y / 4 - y / 100 + y / 400.

(** The days from January 1 of [year] to the first of [month]. *)
Definition daysBeforeMonth (year month : Z) : Z :=
  nth (Z.to_nat (month - 1)) [0; 31; 59; 90; 120; 151; 181; 212; 243; 273; 304; 334] 0
  + (if isLeap year && (2 <? month) then 1 else 0).

(** The time [rest] seconds after the start of [month] of [year], shown
    in UTC. *)
Definition inMonth (year month rest : Z) : Time :=
  mkTimeIn year month ((daysBeforeYear year + daysBeforeMonth year month) * 86400 + rest).

Definition zero : Time := inMonth 1 1 0.

(** [t.Equal(u)]: the same instant, whatever the locations. *)
Definition Equal (a b : Time) : bool := t_instant a =? t_instant b.

Fixpoint zeros (n : nat) : string :=
  match n with O => EmptyString | S k => String "0" (zeros k) end.

(** [appendInt]: the decimal digits of [x], padded with zeros on the
    left to [width], after a minus sign when [x] is negative. *)
Definition appendInt (x : Z) (width : nat) : string :=
  let ds := NilZero.string_of_uint (N.to_uint (Z.to_N (Z.abs x))) in
  (if x <? 0 then "-" else "") +:+ zeros (width - String.length ds) +:+ ds.

(** [t.Format("2006-01")] *)
Definition Format_dash (t : Time) : string :=
  appendInt (t_year t) 4 +:+ "-" +:+ appendInt (t_month t) 2.

(** [t.Format("200601")] *)
Definition Format_plain (t : Time) : string :=
  appendInt (t_year t) 4 +:+ appendInt (t_month t) 2.

End time.

Abbreviation mkTime := time.inMonth.

(** ** ShardResolver and TimeRangeFilter *)

Record TimeRange := mkTimeRange { Start : Time; End_ : Time }.

(** Convert a time to a shard name: 2015-12-08T00:00:00.000Z -> 2015-12 *)
Definition timeToShardName (timeValue : Time) : string :=
  time.Format_dash timeValue.

(** Convert a shard name to an int: 2015-12 -> 201512 *)
Definition shardNameToInt (shardName : string) : Z * option Error :=
  let parts := strings.Split shardName "-" in
  let shardName := strings.Join parts "" in
  strconv.Atoi shardName.

(** Start and end time as an int in YYYYMM format; defaults to 0 for
    Start and 999999 for End. *)
Definition timeRangeToInt (timeRange : option TimeRange) : Z * Z :=
  let startDefault := 0 in
  let endDefault := 999999 in
  match timeRange with
  | None => (0, 999999)
  | Some tr =>
      let startInt :=
        if negb (time.Equal (Start tr) time.zero) then
          match strconv.Atoi (time.Format_plain (Start tr)) with
          | (_, Some _) => startDefault
          | (n, None) => n
          end
        else 0 in
      let endInt :=
        if negb (time.Equal (End_ tr) time.zero) then
          match strconv.Atoi (time.Format_plain (End_ tr)) with
          | (_, Some _) => endDefault
          | (n, None) => n
          end
        else 999999 in
      (startInt, endInt)
  end.

(** ** package net/url

    [url.Values] is [map[string][]string]; a [*url.URL] is seen through
    its query string and through what [String] prints around it. *)

Module url.

Abbreviation Values := (gmap string (list string)).

(** [v.Get(key)]: the first value of [key], or the empty string. *)
Definition Get (v : Values) (key : string) : string :=
  match v !! key with
  | Some (x :: _) => x
  | _ => EmptyString
  end.

Definition Del (v : Values) (key : string) : Values := delete key v.

(** [v.Add(key, value)]: [v[key] = append(v[key], value)]. *)
Definition Add (v : Values) (key value : string) : Values :=
  <[key := (default [] (v !! key) ++ [value])%list]> v.

Definition hexDigit (n : N) : ascii :=
  ascii_of_N (if (n <? 10)%N then 48 + n else 55 + n)%N.

Definition unhex (c : ascii) : option N :=
  let n := N_of_ascii c in
  if (48 <=? n)%N && (n <=? 57)%N then Some (n - 48)%N
  else if (97 <=? n)%N && (n <=? 102)%N then Some (n - 87)%N
  else if (65 <=? n)%N && (n <=? 70)%N then Some (n - 55)%N
  else None.

(** [shouldEscape(c, encodeQueryComponent)]: letters, digits and
    [-_.~] are kept. *)
Definition shouldEscape (c : ascii) : bool :=
  let n := N_of_ascii c in
  negb (  ((97 <=? n)%N && (n <=? 122)%N)
       || ((65 <=? n)%N && (n <=? 90)%N)
       || ((48 <=? n)%N && (n <=? 57)%N)
       || (n =? 45)%N || (n =? 95)%N || (n =? 46)%N || (n =? 126)%N).

Fixpoint QueryEscape (s : string) : string :=
  match s with
  | EmptyString => EmptyString
  | String c r =>
      if Ascii.eqb c " " then String "+" (QueryEscape r)
      else if shouldEscape c then
        let n := N_of_ascii c in
        String "%" (String (hexDigit (n / 16)) (String (hexDigit (n mod 16)) (QueryEscape r)))
      else String c (QueryEscape r)
  end.

(** [QueryUnescape]: [None] stands for the [EscapeError]. *)
Fixpoint QueryUnescape (s : string) : option string :=
  match s with
  | EmptyString => Some EmptyString
  | String c r =>
      if Ascii.eqb c "%" then
        match r with
        | String a (String b r') =>
            match unhex a, unhex b with
            | Some x, Some y =>
                String (ascii_of_N (16 * x + y)) <$> QueryUnescape r'
            | _, _ => None
            end
        | _ => None
        end
      else if Ascii.eqb c "+" then String " " <$> QueryUnescape r
      else String c <$> QueryUnescape r
  end.

Fixpoint contains (s : string) (c : ascii) : bool :=
  match s with
  | EmptyString => false
  | String d r => Ascii.eqb d c || contains r c
  end.

(** [strings.Cut(s, "=")] *)
Fixpoint Cut (s : string) (sep : ascii) : string * string :=
  match s with
  | EmptyString => (EmptyString, EmptyString)
  | String c r =>
      if Ascii.eqb c sep then (EmptyString, r)
      else let '(k, v) := Cut r sep in (String c k, v)
  end.

(** [parseQuery]: the pairs are separated by [&]; a pair holding a
    semicolon, an empty pair and a pair that does not unescape are
    skipped (the error they raise is dropped by [URL.Query]). *)
Definition parsePair (m : Values) (pair : string) : Values :=
  if contains pair ";" then m
  else match pair with
       | EmptyString => m
       | _ =>
           let '(key, value) := Cut pair "=" in
           match QueryUnescape key, QueryUnescape value with
           | Some key, Some value => Add m key value
           | _, _ => m
           end
       end.

Definition ParseQuery (query : string) : Values :=
  match query with
  | EmptyString => ∅
  | _ => foldl parsePair ∅ (strings.Split query "&")
  end.

Fixpoint insertKey (k : string) (l : list string) : list string :=
  match l with
  | [] => [k]
  | h :: t => if String.leb k h then k :: l else h :: insertKey k t
  end.

(** [slices.Sort(keys)]: the keys in increasing byte order. *)
Definition sortKeys (l : list string) : list string :=
  foldr insertKey [] l.

(** [v.Encode()]: ["bar=baz&foo=quux"], sorted by key. *)
Definition Encode (v : Values) : string :=
  let keys := sortKeys (fst <$> map_to_list v) in
  strings.Join
    (flat_map (fun k =>
       (fun x => QueryEscape k +:+ "=" +:+ QueryEscape x) <$> default [] (v !! k)) keys)
    "&".

(** What [String] prints before the query ([url_head]: scheme, host and
    path) and after it (the escaped fragment). *)
Record URL := mkURL {
  url_head : string;
  RawQuery : string;
  ForceQuery : bool;
  url_fragment : string
}.

Definition Query (u : URL) : Values := ParseQuery (RawQuery u).

Definition setRawQuery (u : URL) (q : string) : URL :=
  mkURL (url_head u) q (ForceQuery u) (url_fragment u).

Definition String_ (u : URL) : string :=
  url_head u
  +:+ (if ForceQuery u || negb (String.eqb (RawQuery u) "") then "?" +:+ RawQuery u else "")
  +:+ (if String.eqb (url_fragment u) "" then "" else "#" +:+ url_fragment u).

End url.

(** ** CacheKeyNormalizer *)

(** The query parameters of the cache key: those of the request, without
    ["start"] when it is before the shard, without ["end"] when it is
    after it, without ["cache"] for a shard before the current month, and
    with ["shard"] added. *)
Definition cacheQueryParams (now : Time) (uRL : url.URL)
    (shardName startMonth endMonth : Z) : url.Values * option Error :=
  let queryParams := url.Query uRL in
  let queryParams :=
    if startMonth <? shardName then url.Del queryParams "start" else queryParams in
  let queryParams :=
    if endMonth >? shardName then url.Del queryParams "end" else queryParams in
  match shardNameToInt (timeToShardName now) with
  | (_, Some err) => (∅, Some err)
  | (currentMonth, None) =>
      let queryParams :=
        if shardName <? currentMonth then url.Del queryParams "cache" else queryParams in
      (url.Add queryParams "shard" (strconv.Itoa shardName), None)
  end.

(** Format URL for a specific shard; [now] is what [time.Now()] returns. *)
Definition formatURLForCache (now : Time) (uRL : url.URL)
    (shardName startMonth endMonth : Z) : string * option Error :=
  match cacheQueryParams now uRL shardName startMonth endMonth with
  | (_, Some err) => (EmptyString, Some err)
  | (queryParams, None) =>
      let cacheURL := url.setRawQuery uRL (url.Encode queryParams) in
      (url.String_ cacheURL, None)
  end.

(** Return true if cache query parameter passed *)
Definition cachedRequest (uRL : url.URL) : bool :=
  let queryParams := url.Query uRL in
  (0 <? String.length (url.Get queryParams "cache"))%nat.

(** ** package database: the data model *)

Record DBPath := mkDBPath { Name : string; Directory : string }.

(** Modelled from the spec: the declaration of [database.Analytic] is not
    part of the sources; an analytic record is a timestamp plus opaque
    dimensional fields. *)
Record Analytic := mkAnalytic { Time_ : Time; Fields : string }.

Record Analytics := mkAnalytics { AnalyticsList : list Analytic }.

(** Modelled from the spec: the declaration of [database.Aggregate] is not
    part of the sources; an aggregate is a (group id, total, unique)
    triple. *)
Record Aggregate := mkAggregate { Id : string; Total : Z; Unique : Z }.

Record Aggregates := mkAggregates { AggregatesList : list Aggregate }.

(** Modelled from the spec: the declaration of [database.Interval] is not
    part of the sources; an interval is a time-bucketed count. *)
Record Interval := mkInterval { IntervalStart : Time; IntervalTotal : Z; IntervalUnique : Z }.

Record Intervals := mkIntervals { IntervalsList : list Interval }.

Record Params := mkParams {
  DBName : string;
  URL : url.URL;
  TimeRange_ : option TimeRange;
  Property : string;
  Interval_ : Z;
  Unique_ : bool
}.

(** Go's [int] addition. *)
Definition wrap (n : Z) : Z := (n + 2 ^ 63) mod 2 ^ 64 - 2 ^ 63.

Definition addInt (a b : Z) : Z := wrap (a + b).

(** ** ResultCache: [lru.Cache]

    Modelled from the spec: the cache is the library
    [github.com/hashicorp/golang-lru], which is not part of the sources;
    it is a key-value store of a capacity fixed at construction, where
    [Get] misses without error, [Add] inserts unconditionally and the
    least recently used entry is evicted on overflow.  The entries are
    kept most recently used first.

    The values stored are the per-shard results, [*database.Analytics],
    [*database.Aggregates] or [*database.Intervals] behind [interface{}]. *)

Inductive CacheValue :=
| VAnalytics (a : Analytics)
| VAggregates (a : Aggregates)
| VIntervals (a : Intervals).

Module lru.

Record Cache := mkCache { size : nat; items : list (string * CacheValue) }.

(** [lru.New(size)]: a size that is not positive is refused. *)
Definition New (size : Z) : option Cache :=
  if size <=? 0 then None else Some (mkCache (Z.to_nat size) []).

Fixpoint find (key : string) (l : list (string * CacheValue)) : option CacheValue :=
  match l with
  | [] => None
  | (k, v) :: t => if decide (k = key) then Some v else find key t
  end.

Fixpoint remove (key : string) (l : list (string * CacheValue)) : list (string * CacheValue) :=
  match l with
  | [] => []
  | (k, v) :: t => if decide (k = key) then t else (k, v) :: remove key t
  end.

(** [c.Get(key)]: a hit moves the entry to the front. *)
Definition Get (c : Cache) (key : string) : option CacheValue * Cache :=
  match find key (items c) with
  | Some v => (Some v, mkCache (size c) ((key, v) :: remove key (items c)))
  | None => (None, c)
  end.

(** [c.Add(key, value)]: an existing entry is updated and moved to the
    front; a new one is pushed to the front and the oldest entry is
    evicted when the cache is over its size. *)
Definition Add (c : Cache) (key : string) (value : CacheValue) : Cache :=
  match find key (items c) with
  | Some _ => mkCache (size c) ((key, value) :: remove key (items c))
  | None =>
      let l := (key, value) :: items c in
      mkCache (size c) (if (size c <? length l)%nat then removelast l else l)
  end.

End lru.

(** ** The collaborators

    The connection manager ([manager.DBManager]), the directory listing
    ([ioutil.ReadDir]) and the query executor (package [query]) act on
    the storage [St]; a result [None] is the call's error.  An executor
    that succeeds returns a result that is not [nil]. *)

Class Backend (St Conn : Type) := {
  DBPath_String : DBPath -> string;
  DBExists : DBPath -> St -> option bool;
  ReadDir : string -> St -> option (list string);
  GetDB : DBPath -> St -> option Conn * St;
  DeleteDB : DBPath -> St -> option Error * St;
  query_Query : Conn -> option TimeRange -> St -> option Analytics * St;
  query_GroupBy : Conn -> string -> option TimeRange -> St -> option Aggregates * St;
  query_GroupByUniq : Conn -> string -> option TimeRange -> St -> option Aggregates * St;
  query_Series : Conn -> Z -> option TimeRange -> St -> option Intervals * St;
  query_SeriesUniq : Conn -> Z -> option TimeRange -> St -> option Intervals * St;
  query_Insert : Conn -> Analytic -> St -> bool * St
}.

(** The read calls of the query executor. *)
Inductive Call :=
| CQuery (tr : option TimeRange)
| CGroupBy (property : string) (tr : option TimeRange)
| CGroupByUniq (property : string) (tr : option TimeRange)
| CSeries (interval : Z) (tr : option TimeRange)
| CSeriesUniq (interval : Z) (tr : option TimeRange).

(** What the driver does to its collaborators, in the order it does it.
    [EvExec] is a read call of the executor and carries its result,
    [None] for its error; [EvInsert] is [query.Insert]. *)
Inductive Event :=
| EvDBExists (dbPath : DBPath)
| EvReadDir (dir : string)
| EvCacheGet (key : string) (found : option CacheValue)
| EvCacheAdd (key : string) (value : CacheValue)
| EvGetDB (shardPath : DBPath) (ok : bool)
| EvLock (shardPath : DBPath)
| EvUnlock (shardPath : DBPath)
| EvExec (shardPath : DBPath) (call : Call) (result : option CacheValue)
| EvInsert (shardPath : DBPath) (analytic : Analytic) (ok : bool)
| EvDeleteDB (dbPath : DBPath).

Section Driver.

Context {St Conn : Type} `{!Backend St Conn}.

(** The [Sharded] driver ([DBManager], [directory], [cache]) together
    with the clock that [time.Now] reads and the trace of the calls
    made so far. *)
Record World := mkWorld {
  DBManager : St;
  directory : string;
  cache : lru.Cache;
  clock : Time;
  trace : list Event
}.

Definition Result (A : Type) : Type := option A * option Error.

Record DriverOpts := mkDriverOpts { OptsDirectory : string; CacheSize : Z }.

(** [manager] is the connection manager that [manager.New] returns and
    [now] the clock of the process. *)
Definition NewShardedDriver (driverOpts : DriverOpts) (manager : St) (now : Time)
    : Result World :=
  match lru.New (CacheSize driverOpts) with
  | None => (None, Some (CacheError "Must provide a positive size"))
  | Some cache => (Some (mkWorld manager (OptsDirectory driverOpts) cache now []), None)
  end.

Definition log (e : Event) (w : World) : World :=
  mkWorld (DBManager w) (directory w) (cache w) (clock w) (trace w ++ [e])%list.

Definition setStorage (st : St) (w : World) : World :=
  mkWorld st (directory w) (cache w) (clock w) (trace w).

Definition setCache (c : lru.Cache) (w : World) : World :=
  mkWorld (DBManager w) (directory w) c (clock w) (trace w).

(** [driver.DBManager.DBExists(dbPath)] *)
Definition dbExists (dbPath : DBPath) (w : World) : option bool * World :=
  (DBExists dbPath (DBManager w), log (EvDBExists dbPath) w).

(** [driver.cache.Get(key)] *)
Definition cacheGet (key : string) (w : World) : option CacheValue * World :=
  let '(v, c) := lru.Get (cache w) key in
  (v, log (EvCacheGet key v) (setCache c w)).

(** [driver.cache.Add(key, value)] *)
Definition cacheAdd (key : string) (value : CacheValue) (w : World) : World :=
  log (EvCacheAdd key value) (setCache (lru.Add (cache w) key value) w).

(** [driver.DBManager.GetDB(shardPath)] *)
Definition getDB (shardPath : DBPath) (w : World) : option Conn * World :=
  let '(db, st) := GetDB shardPath (DBManager w) in
  (db, log (EvGetDB shardPath (bool_decide (is_Some db))) (setStorage st w)).

(** [db.Lock()] and [db.Unlock()] of the handle of [shardPath]. *)
Definition Lock (shardPath : DBPath) (w : World) : World := log (EvLock shardPath) w.
Definition Unlock (shardPath : DBPath) (w : World) : World := log (EvUnlock shardPath) w.

(** A call of the query executor on the connection of [shardPath]. *)
Definition exec {A : Type} (shardPath : DBPath) (call : Call) (inj : A -> CacheValue)
    (run : St -> option A * St) (w : World) : option A * World :=
  let '(r, st) := run (DBManager w) in
  (r, log (EvExec shardPath call (inj <$> r)) (setStorage st w)).

(** Return the list of all shards in a DBPath *)
Definition listShards (dbPath : DBPath) (w : World) : list string * World :=
  let folders := ReadDir (DBPath_String dbPath) (DBManager w) in
  let w := log (EvReadDir (DBPath_String dbPath)) w in
  match folders with
  | None => ([], w)
  | Some folders => (foldl (fun shards folder => shards ++ [folder])%list [] folders, w)
  end.

(** The body of the loop of [Query] from the cache lookup on: the cached
    value under [cacheURL] when there is one, the executor's result
    otherwise, stored in the cache when the request asks for it.  [inr]
    is the error with which [Query] returns. *)
Definition Query_shard (params : Params) (dbPath : DBPath) (cachedRequest : bool)
    (shardName cacheURL : string) (w : World) : (Analytics + Error) * World :=
  let '(cached, w) := cacheGet cacheURL w in
  match cached with
  | Some (VAnalytics shardAnalytics) => (inl shardAnalytics, w)
  | Some _ => (inr InternalError, w)
  | None =>
      let shardPath := mkDBPath shardName (DBPath_String dbPath) in
      let '(db, w) := getDB shardPath w in
      match db with
      | None => (inr InternalError, w)
      | Some db =>
          let w := Lock shardPath w in
          let '(shardAnalytics, w) :=
            exec shardPath (CQuery (TimeRange_ params)) VAnalytics
              (query_Query db (TimeRange_ params)) w in
          let w := Unlock shardPath w in
          match shardAnalytics with
          | None => (inr InternalError, w)
          | Some shardAnalytics =>
              let w := if cachedRequest
                       then cacheAdd cacheURL (VAnalytics shardAnalytics) w else w in
              (inl shardAnalytics, w)
          end
      end
  end.

(** The loop of [Query] over the shards, [analytics] being the result
    accumulated so far. *)
Fixpoint Query_shards (params : Params) (dbPath : DBPath) (cachedRequest : bool)
    (shards : list string) (analytics : Analytics) (w : World) : Result Analytics * World :=
  match shards with
  | [] => ((Some analytics, None), w)
  | shardName :: shards =>
      match shardNameToInt shardName with
      | (_, Some err) => ((None, Some err), w)
      | (shardInt, None) =>
          let '(startInt, endInt) := timeRangeToInt (TimeRange_ params) in
          if (shardInt <? startInt) || (shardInt >? endInt) then
            Query_shards params dbPath cachedRequest shards analytics w
          else
            match formatURLForCache (clock w) (URL params) shardInt startInt endInt with
            | (_, Some err) => ((None, Some err), w)
            | (cacheURL, None) =>
                match Query_shard params dbPath cachedRequest shardName cacheURL w with
                | (inr err, w) => ((None, Some err), w)
                | (inl shardAnalytics, w) =>
                    Query_shards params dbPath cachedRequest shards
                      (mkAnalytics (AnalyticsList analytics ++ AnalyticsList shardAnalytics)%list) w
                end
            end
      end
  end.

Definition Query (params : Params) (w : World) : Result Analytics * World :=
  let dbPath := mkDBPath (DBName params) (directory w) in
  let '(dbExists, w) := dbExists dbPath w in
  match dbExists with
  | None => ((None, Some InternalError), w)
  | Some false => ((None, Some InvalidDatabaseName), w)
  | Some true =>
      let '(shards, w) := listShards dbPath w in
      let analytics := mkAnalytics [] in
      let cachedRequest := cachedRequest (URL params) in
      Query_shards params dbPath cachedRequest shards analytics w
  end.

(** The body of the loop of [GroupBy] from the cache lookup on. *)
Definition GroupBy_shard (params : Params) (dbPath : DBPath) (cachedRequest : bool)
    (shardName cacheURL : string) (w : World) : (Aggregates + Error) * World :=
  let '(cached, w) := cacheGet cacheURL w in
  match cached with
  | Some (VAggregates shardAnalytics) => (inl shardAnalytics, w)
  | Some _ => (inr InternalError, w)
  | None =>
      let shardPath := mkDBPath shardName (DBPath_String dbPath) in
      let '(db, w) := getDB shardPath w in
      match db with
      | None => (inr InternalError, w)
      | Some db =>
          let '(shardAnalytics, w) :=
            if Unique_ params then
              let w := Lock shardPath w in
              let '(r, w) :=
                exec shardPath (CGroupByUniq (Property params) (TimeRange_ params)) VAggregates
                  (query_GroupByUniq db (Property params) (TimeRange_ params)) w in
              (r, Unlock shardPath w)
            else
              let w := Lock shardPath w in
              let '(r, w) :=
                exec shardPath (CGroupBy (Property params) (TimeRange_ params)) VAggregates
                  (query_GroupBy db (Property params) (TimeRange_ params)) w in
              (r, Unlock shardPath w) in
          match shardAnalytics with
          | None => (inr InternalError, w)
          | Some shardAnalytics =>
              let w := if cachedRequest
                       then cacheAdd cacheURL (VAggregates shardAnalytics) w else w in
              (inl shardAnalytics, w)
          end
      end
  end.

(** Add one aggregate of a shard result to the helper map: the totals of
    a group id already present are summed. *)
Definition mergeAggregate (analyticsMap : gmap string Aggregate) (analytic : Aggregate)
    : gmap string Aggregate :=
  match analyticsMap !! Id analytic with
  | Some total =>
      <[Id analytic := mkAggregate (Id total)
                         (addInt (Total total) (Total analytic))
                         (addInt (Unique total) (Unique analytic))]> analyticsMap
  | None => <[Id analytic := analytic]> analyticsMap
  end.

(** Add shard result to analyticsMap *)
Definition mergeShard (analyticsMap : gmap string Aggregate) (shardAnalytics : Aggregates)
    : gmap string Aggregate :=
  foldl mergeAggregate analyticsMap (AggregatesList shardAnalytics).

(** Convert analyticsMap to an Aggregates struct.  Go leaves the order in
    which [range] visits a map unspecified; the values are listed here in
    the order of [map_to_list]. *)
Definition aggregatesOfMap (analyticsMap : gmap string Aggregate) : Aggregates :=
  mkAggregates (snd <$> map_to_list analyticsMap).

Fixpoint GroupBy_shards (params : Params) (dbPath : DBPath) (cachedRequest : bool)
    (shards : list string) (analyticsMap : gmap string Aggregate) (w : World)
    : Result Aggregates * World :=
  match shards with
  | [] => ((Some (aggregatesOfMap analyticsMap), None), w)
  | shardName :: shards =>
      match shardNameToInt shardName with
      | (_, Some err) => ((None, Some err), w)
      | (shardInt, None) =>
          let '(startInt, endInt) := timeRangeToInt (TimeRange_ params) in
          if (shardInt <? startInt) || (shardInt >? endInt) then
            GroupBy_shards params dbPath cachedRequest shards analyticsMap w
          else
            match formatURLForCache (clock w) (URL params) shardInt startInt endInt with
            | (_, Some err) => ((None, Some err), w)
            | (cacheURL, None) =>
                match GroupBy_shard params dbPath cachedRequest shardName cacheURL w with
                | (inr err, w) => ((None, Some err), w)
                | (inl shardAnalytics, w) =>
                    GroupBy_shards params dbPath cachedRequest shards
                      (mergeShard analyticsMap shardAnalytics) w
                end
            end
      end
  end.

Definition GroupBy (params : Params) (w : World) : Result Aggregates * World :=
  let dbPath := mkDBPath (DBName params) (directory w) in
  let '(dbExists, w) := dbExists dbPath w in
  match dbExists with
  | None => ((None, Some InternalError), w)
  | Some false => ((None, Some InvalidDatabaseName), w)
  | Some true =>
      let '(shards, w) := listShards dbPath w in
      let analyticsMap : gmap string Aggregate := ∅ in
      let cachedRequest := cachedRequest (URL params) in
      GroupBy_shards params dbPath cachedRequest shards analyticsMap w
  end.

(** The body of the loop of [Series] from the cache lookup on. *)
Definition Series_shard (params : Params) (dbPath : DBPath) (cachedRequest : bool)
    (shardName cacheURL : string) (w : World) : (Intervals + Error) * World :=
  let '(cached, w) := cacheGet cacheURL w in
  match cached with
  | Some (VIntervals shardAnalytics) => (inl shardAnalytics, w)
  | Some _ => (inr InternalError, w)
  | None =>
      let shardPath := mkDBPath shardName (DBPath_String dbPath) in
      let '(db, w) := getDB shardPath w in
      match db with
      | None => (inr InternalError, w)
      | Some db =>
          let '(shardAnalytics, w) :=
            if Unique_ params then
              let w := Lock shardPath w in
              let '(r, w) :=
                exec shardPath (CSeriesUniq (Interval_ params) (TimeRange_ params)) VIntervals
                  (query_SeriesUniq db (Interval_ params) (TimeRange_ params)) w in
              (r, Unlock shardPath w)
            else
              exec shardPath (CSeries (Interval_ params) (TimeRange_ params)) VIntervals
                (query_Series db (Interval_ params) (TimeRange_ params)) w in
          match shardAnalytics with
          | None => (inr InternalError, w)
          | Some shardAnalytics =>
              let w := if cachedRequest
                       then cacheAdd cacheURL (VIntervals shardAnalytics) w else w in
              (inl shardAnalytics, w)
          end
      end
  end.

Fixpoint Series_shards (params : Params) (dbPath : DBPath) (cachedRequest : bool)
    (shards : list string) (analytics : Intervals) (w : World) : Result Intervals * World :=
  match shards with
  | [] => ((Some analytics, None), w)
  | shardName :: shards =>
      match shardNameToInt shardName with
      | (_, Some err) => ((None, Some err), w)
      | (shardInt, None) =>
          let '(startInt, endInt) := timeRangeToInt (TimeRange_ params) in
          if (shardInt <? startInt) || (shardInt >? endInt) then
            Series_shards params dbPath cachedRequest shards analytics w
          else
            match formatURLForCache (clock w) (URL params) shardInt startInt endInt with
            | (_, Some err) => ((None, Some err), w)
            | (cacheURL, None) =>
                match Series_shard params dbPath cachedRequest shardName cacheURL w with
                | (inr err, w) => ((None, Some err), w)
                | (inl shardAnalytics, w) =>
                    Series_shards params dbPath cachedRequest shards
                      (mkIntervals (IntervalsList analytics ++ IntervalsList shardAnalytics)%list) w
                end
            end
      end
  end.

Definition Series (params : Params) (w : World) : Result Intervals * World :=
  let dbPath := mkDBPath (DBName params) (directory w) in
  let '(dbExists, w) := dbExists dbPath w in
  match dbExists with
  | None => ((None, Some InternalError), w)
  | Some false => ((None, Some InvalidDatabaseName), w)
  | Some true =>
      let '(shards, w) := listShards dbPath w in
      let analytics := mkIntervals [] in
      let cachedRequest := cachedRequest (URL params) in
      Series_shards params dbPath cachedRequest shards analytics w
  end.

Definition Insert (params : Params) (analytic : Analytic) (w : World) : option Error * World :=
  let dbPath := mkDBPath (DBName params) (directory w) in
  let shardName := timeToShardName (Time_ analytic) in
  let shardPath := mkDBPath shardName (DBPath_String dbPath) in
  let '(db, w) := getDB shardPath w in
  match db with
  | None => (Some InternalError, w)
  | Some db =>
      let w := Lock shardPath w in
      let '(ok, st) := query_Insert db analytic (DBManager w) in
      let w := log (EvInsert shardPath analytic ok) (setStorage st w) in
      let w := Unlock shardPath w in
      if ok then (None, w) else (Some InsertFailed, w)
  end.

Definition Delete (params : Params) (w : World) : option Error * World :=
  let dbPath := mkDBPath (DBName params) (directory w) in
  let '(dbExists, w) := dbExists dbPath w in
  match dbExists with
  | None => (Some InternalError, w)
  | Some false => (Some InvalidDatabaseName, w)
  | Some true =>
      let '(err, st) := DeleteDB dbPath (DBManager w) in
      (err, log (EvDeleteDB dbPath) (setStorage st w))
  end.

(** The shards that a read operation goes through and the world in which
    it starts to do so. *)
Definition datasetPath (params : Params) (w : World) : DBPath :=
  mkDBPath (DBName params) (directory w).

Definition shardsOf (params : Params) (w : World) : list string :=
  default [] (ReadDir (DBPath_String (datasetPath params w)) (DBManager w)).

Definition afterListing (params : Params) (w : World) : World :=
  log (EvReadDir (DBPath_String (datasetPath params w)))
    (log (EvDBExists (datasetPath params w)) w).

(** The range test in the words of the specification: the integer of
    the shard lies between the bounds of the time range, both included. *)
Definition inRange (timeRange : option TimeRange) (shardName : string) : bool :=
  match shardNameToInt shardName with
  | (shardInt, None) =>
      let '(startInt, endInt) := timeRangeToInt timeRange in
      (startInt <=? shardInt) && (shardInt <=? endInt)
  | (_, Some _) => false
  end.

(** The cache key of a shard for a request. *)
Definition shardKey (now : Time) (params : Params) (shardName : string) : string * option Error :=
  let '(startInt, endInt) := timeRangeToInt (TimeRange_ params) in
  formatURLForCache now (URL params) (fst (shardNameToInt shardName)) startInt endInt.

(** What [Query] calls for one shard to obtain its result
    [shardAnalytics]: a cache lookup that hits, or a lookup that misses
    followed by the opening of the shard's connection and the locked call
    of the executor, and by the store of the result when the request
    carries ["cache"]. *)
Inductive QueryCalls (params : Params) (dbPath : DBPath) (now : Time) (shardName : string)
  : list Event → Analytics → Prop :=
| QueryCalls_hit cacheURL shardAnalytics :
    shardKey now params shardName = (cacheURL, None) →
    QueryCalls params dbPath now shardName
      [EvCacheGet cacheURL (Some (VAnalytics shardAnalytics))] shardAnalytics
| QueryCalls_miss cacheURL shardAnalytics :
    shardKey now params shardName = (cacheURL, None) →
    let shardPath := mkDBPath shardName (DBPath_String dbPath) in
    QueryCalls params dbPath now shardName
      ([EvCacheGet cacheURL None; EvGetDB shardPath true; EvLock shardPath;
        EvExec shardPath (CQuery (TimeRange_ params)) (Some (VAnalytics shardAnalytics));
        EvUnlock shardPath]
       ++ (if cachedRequest (URL params)
           then [EvCacheAdd cacheURL (VAnalytics shardAnalytics)] else []))%list
      shardAnalytics.

(** The call of the executor that [Series] makes on an opened shard,
    with what is around it, [r] being what the executor returns: with
    the uniqueness flag [query.SeriesUniq] between [Lock] and [Unlock] of
    the shard, without it [query.Series] and nothing else. *)
Definition seriesExec (params : Params) (shardPath : DBPath) (r : option Intervals)
  : list Event :=
  if Unique_ params
  then [EvLock shardPath;
        EvExec shardPath (CSeriesUniq (Interval_ params) (TimeRange_ params)) (VIntervals <$> r);
        EvUnlock shardPath]
  else [EvExec shardPath (CSeries (Interval_ params) (TimeRange_ params)) (VIntervals <$> r)].

(** What [Series] calls for one shard, and the result [r] of the shard
    ([None] when [Series] fails on it): a cache lookup that hits, with
    intervals or with a value of another operation; or a lookup that
    misses followed by the opening of the shard's connection, which may
    fail, then by the call of the executor as [seriesExec] has it, and by
    the store of the result when there is one and the request carries
    ["cache"]. *)
Inductive SeriesCalls (params : Params) (dbPath : DBPath) (now : Time) (shardName : string)
  : list Event → option Intervals → Prop :=
| SeriesCalls_hit cacheURL shardAnalytics :
    shardKey now params shardName = (cacheURL, None) →
    SeriesCalls params dbPath now shardName
      [EvCacheGet cacheURL (Some (VIntervals shardAnalytics))] (Some shardAnalytics)
| SeriesCalls_mismatch cacheURL value :
    shardKey now params shardName = (cacheURL, None) →
    (∀ shardAnalytics, value ≠ VIntervals shardAnalytics) →
    SeriesCalls params dbPath now shardName [EvCacheGet cacheURL (Some value)] None
| SeriesCalls_closed cacheURL :
    shardKey now params shardName = (cacheURL, None) →
    let shardPath := mkDBPath shardName (DBPath_String dbPath) in
    SeriesCalls params dbPath now shardName
      [EvCacheGet cacheURL None; EvGetDB shardPath false] None
| SeriesCalls_miss cacheURL r :
    shardKey now params shardName = (cacheURL, None) →
    let shardPath := mkDBPath shardName (DBPath_String dbPath) in
    SeriesCalls params dbPath now shardName
      ([EvCacheGet cacheURL None; EvGetDB shardPath true]
       ++ seriesExec params shardPath r
       ++ match r with
          | Some shardAnalytics =>
              if cachedRequest (URL params)
              then [EvCacheAdd cacheURL (VIntervals shardAnalytics)] else []
          | None => []
          end)%list
      r.

End Driver.

Arguments World St : clear implicits.

(** ** An in-memory backend

    Modelled from the spec: the connection manager and the query
    executor are not part of the sources.  This is a storage on which the
    driver can be run: every dataset directory holds its shards by name,
    each shard its rows; a connection creates its shard when it is
    absent, a query returns the rows of its shard that fall in the time
    range, an insert adds a row.  A directory can be marked unreadable, a
    path faulty (its connection cannot be opened, its existence cannot be
    checked) and a shard read-only (the executor rejects what is
    inserted). *)

Module Mem.

Record Store := mkStore {
  dirs : list (string * list (string * list Analytic));
  unreadable : list string;
  faulty : list string;
  readonly : list string
}.

Fixpoint lookupA {V : Type} (k : string) (l : list (string * V)) : option V :=
  match l with
  | [] => None
  | (k', v) :: t => if decide (k' = k) then Some v else lookupA k t
  end.

Fixpoint updateA {V : Type} (k : string) (v : V) (l : list (string * V)) : list (string * V) :=
  match l with
  | [] => [(k, v)]
  | (k', v') :: t => if decide (k' = k) then (k, v) :: t else (k', v') :: updateA k v t
  end.

Definition pathString (p : DBPath) : string := Directory p +:+ "/" +:+ Name p.

Definition setDirs (d : list (string * list (string * list Analytic))) (st : Store) : Store :=
  mkStore d (unreadable st) (faulty st) (readonly st).

Definition exists_ (p : DBPath) (st : Store) : option bool :=
  if bool_decide (pathString p ∈ faulty st) then None
  else Some (bool_decide (is_Some (lookupA (pathString p) (dirs st)))).

Definition readDir (dir : string) (st : Store) : option (list string) :=
  if bool_decide (dir ∈ unreadable st) then None
  else (fun shards => url.sortKeys (fst <$> shards)) <$> lookupA dir (dirs st).

Definition shardRows (p : DBPath) (st : Store) : option (list Analytic) :=
  lookupA (Directory p) (dirs st) ≫= lookupA (Name p).

(** The connection of a shard is opened by its path; the shard and its
    directory are created when they are absent. *)
Definition getDB (p : DBPath) (st : Store) : option DBPath * Store :=
  if bool_decide (pathString p ∈ faulty st) then (None, st)
  else match shardRows p st with
       | Some _ => (Some p, st)
       | None =>
           let shards := default [] (lookupA (Directory p) (dirs st)) in
           (Some p, setDirs (updateA (Directory p) (updateA (Name p) [] shards) (dirs st)) st)
       end.

Definition deleteDB (p : DBPath) (st : Store) : option Error * Store :=
  (None, setDirs (filter (fun d => fst d ≠ pathString p) (dirs st)) st).

Definition timeLe (a b : Time) : bool := t_instant a <=? t_instant b.

Definition inTimeRange (tr : option TimeRange) (a : Analytic) : bool :=
  match tr with
  | None => true
  | Some tr =>
      (time.Equal (Start tr) time.zero || timeLe (Start tr) (Time_ a))
      && (time.Equal (End_ tr) time.zero || timeLe (Time_ a) (End_ tr))
  end.

Definition selectRows (conn : DBPath) (tr : option TimeRange) (st : Store)
    : option (list Analytic) :=
  List.filter (inTimeRange tr) <$> shardRows conn st.

Definition query (conn : DBPath) (tr : option TimeRange) (st : Store)
    : option Analytics * Store :=
  (mkAnalytics <$> selectRows conn tr st, st).

Definition groupBy (uniq : bool) (conn : DBPath) (property : string)
    (tr : option TimeRange) (st : Store) : option Aggregates * Store :=
  ((fun rows => mkAggregates
      ((fun a => mkAggregate (Fields a) 1 (if uniq then 1 else 0)) <$> rows))
     <$> selectRows conn tr st, st).

Definition series (uniq : bool) (conn : DBPath) (interval : Z)
    (tr : option TimeRange) (st : Store) : option Intervals * Store :=
  ((fun rows => mkIntervals
      ((fun a => mkInterval (Time_ a) 1 (if uniq then 1 else 0)) <$> rows))
     <$> selectRows conn tr st, st).

Definition insert (conn : DBPath) (a : Analytic) (st : Store) : bool * Store :=
  if bool_decide (pathString conn ∈ readonly st) then (false, st)
  else match shardRows conn st with
       | None => (false, st)
       | Some rows =>
           let shards := default [] (lookupA (Directory conn) (dirs st)) in
           (true, setDirs (updateA (Directory conn)
                             (updateA (Name conn) (rows ++ [a])%list shards) (dirs st)) st)
       end.

#[global] Instance backend : Backend Store DBPath := {|
  DBPath_String := pathString;
  DBExists := exists_;
  ReadDir := readDir;
  GetDB := getDB;
  DeleteDB := deleteDB;
  query_Query := query;
  query_GroupBy := groupBy false;
  query_GroupByUniq := groupBy true;
  query_Series := series false;
  query_SeriesUniq := series true;
  query_Insert := insert
|}.

(** October 2026; the dataset [site] of directory [data] holds the shards
    of September and October. *)
Definition oct2026 : Time := mkTime 2026 10 0.

Definition visit (t : Time) (page : string) : Analytic := mkAnalytic t page.

Definition store0 : Store :=
  mkStore [("data/site", [("2026-09", [visit (mkTime 2026 9 5) "home"]);
                          ("2026-10", [visit (mkTime 2026 10 2) "home"])])]
          [] [] [].

Definition world0 (capacity : nat) (st : Store) : World Store :=
  mkWorld st "data" (lru.mkCache capacity []) oct2026 [].

Definition request (rawQuery : string) (tr : option TimeRange) (uniq : bool) : Params :=
  mkParams "site" (url.mkURL "/site" rawQuery false "") tr "path" 3600 uniq.

(** The same dataset when its directory cannot be read, and when its
    directory holds an entry that is no shard label. *)
Definition storeUnreadable : Store :=
  mkStore (dirs store0) ["data/site"] [] [].

Definition storeJunk : Store :=
  mkStore [("data/site", [("2026-09", [visit (mkTime 2026 9 5) "home"]);
                          ("junk", [])])]
          [] [] [].

(** A request with [cache=true], the same request without it, and a
    record of October 9. *)
Definition cachedQuery : Params := request "cache=true" None false.
Definition plainQuery : Params := request "" None false.
Definition october9 : Analytic := visit (mkTime 2026 10 9) "about".

(** Two requests that differ in their start bound only. *)
Definition fromJanuary : url.URL := url.mkURL "/site" "start=2015-01&cache=true" false "".
Definition fromMarch : url.URL := url.mkURL "/site" "start=2015-03&cache=true" false "".

(** Two requests that differ in their end bound only, and the request
    [fromJanuary] without its ["cache"]. *)
Definition toJune : url.URL := url.mkURL "/site" "end=2027-06&cache=true" false "".
Definition toMay : url.URL := url.mkURL "/site" "end=2027-05&cache=true" false "".
Definition fromJanuaryPlain : url.URL := url.mkURL "/site" "start=2015-01" false "".

(** Two shard results of [GroupBy] sharing the group id [home]. *)
Definition aggregatesA : Aggregates :=
  mkAggregates [mkAggregate "home" 3 2; mkAggregate "about" 1 1].
Definition aggregatesB : Aggregates :=
  mkAggregates [mkAggregate "home" (2 ^ 63 - 2) 5].

End Mem.

(** ** Observations on shard labels *)

(** The label of month [m] of year [y] reads back as the integer YYYYMM. *)
Definition labelReadsBack (y m : Z) : bool :=
  match shardNameToInt (timeToShardName (mkTime y m 0)) with
  | (n, None) => n =? y * 100 + m
  | (_, Some _) => false
  end.

(** The label "YYYY-MM" of month [month] of year [year], digit by digit:
    the thousands, hundreds, tens and units of the year, a dash, the tens
    and units of the month. *)
Definition digitChar (d : Z) : ascii := ascii_of_N (Z.to_N (48 + d)).

Definition monthLabel (year month : Z) : string :=
  String (digitChar (year / 1000 mod 10))
    (String (digitChar (year / 100 mod 10))
       (String (digitChar (year / 10 mod 10))
          (String (digitChar (year mod 10))
             (String "-"
                (String (digitChar (month / 10 mod 10))
                   (String (digitChar (month mod 10)) EmptyString)))))).

(** The shard name of month [m] of year [y] is that label. *)
Definition labelIsWritten (y m : Z) : bool :=
  String.eqb (timeToShardName (mkTime y m 0)) (monthLabel y m).

(** The plain format of month [m] of year [y] reads back as YYYYMM. *)
Definition plainReadsBack (y m : Z) : bool :=
  match strconv.Atoi (time.Format_plain (mkTime y m 0)) with
  | (n, None) => n =? y * 100 + m
  | (_, Some _) => false
  end.

(** A string without the occurrences of a character. *)
Fixpoint dropChar (sep : ascii) (s : string) : string :=
  match s with
  | EmptyString => EmptyString
  | String c r => if Ascii.eqb c sep then dropChar sep r else String c (dropChar sep r)
  end.

(** What [QueryEscape] writes for one character. *)
Definition escapedChar (c : ascii) : string := url.QueryEscape (String c EmptyString).

(** The encoded pair [key=value] of [Encode]. *)
Definition encodedPair (key value : string) : string :=
  url.QueryEscape key +:+ "=" +:+ url.QueryEscape value.

(** The pairs that [Encode] writes for the keys [keys], in their order. *)
Definition keyValuePairs (v : url.Values) (keys : list string) : list (string * string) :=
  flat_map (fun key => (fun value => (key, value)) <$> default [] (v !! key)) keys.

(** No key of the values has an empty list, as in [map[string][]string]
    filled by [Add] only. *)
Definition noEmptyList (v : url.Values) : Prop := ∀ key, v !! key ≠ Some [].

(** The errors of the read operations. *)
Definition readError (e : Error) : Prop :=
  e = InternalError ∨ e = InvalidDatabaseName ∨ ∃ num kind, e = NumError num kind.

(** A month is before another. *)
Definition monthBefore (a b : Time) : Prop :=
  t_year a < t_year b ∨ (t_year a = t_year b ∧ t_month a < t_month b).

(** ** Observations on traces *)

(** The existence check of a dataset and the listing of its directory. *)
Definition isExistenceCheck (e : Event) : bool :=
  match e with
  | EvDBExists _ | EvReadDir _ => true
  | _ => false
  end.

Definition isLocking (e : Event) : bool :=
  match e with
  | EvLock _ | EvUnlock _ => true
  | _ => false
  end.

Definition isExec (e : Event) : bool :=
  match e with
  | EvExec _ _ _ => true
  | _ => false
  end.

(** Every executor call of the trace is made between [Lock] and [Unlock]
    of the connection of its shard, and no lock is taken otherwise. *)
Inductive LockedExecs : list Event → Prop :=
| LockedExecs_nil : LockedExecs []
| LockedExecs_other e tr :
    isExec e = false → isLocking e = false → LockedExecs tr → LockedExecs (e :: tr)
| LockedExecs_locked p call r tr :
    LockedExecs tr → LockedExecs (EvLock p :: EvExec p call r :: EvUnlock p :: tr).

(** The calls that the executor receives. *)
Definition execCalls (tr : list Event) : list Call :=
  omap (fun e => match e with EvExec _ call _ => Some call | _ => None end) tr.

(** The shards on which the executor is called, and the shards whose
    connection was opened. *)
Definition execShards (tr : list Event) : list DBPath :=
  omap (fun e => match e with EvExec p _ _ => Some p | _ => None end) tr.

Definition openedShards (tr : list Event) : list DBPath :=
  omap (fun e => match e with EvGetDB p true => Some p | _ => None end) tr.

(** The locking of [Series]: the executor is called once on every
    connection opened; with the uniqueness flag every call is
    [query.SeriesUniq] under the lock of its shard, without it every call
    is [query.Series] and no lock is taken or released. *)
Definition SeriesLocking (params : Params) (calls : list Event) : Prop :=
  execShards calls = openedShards calls
  ∧ if Unique_ params
    then LockedExecs calls
         ∧ Forall (fun call => call = CSeriesUniq (Interval_ params) (TimeRange_ params))
             (execCalls calls)
    else forallb (fun e => negb (isLocking e)) calls = true
         ∧ Forall (fun call => call = CSeries (Interval_ params) (TimeRange_ params))
             (execCalls calls).

(** The executor is called once on every connection opened, each time
    between [Lock] and [Unlock] of that connection. *)
Definition LockedCalls (calls : list Event) : Prop :=
  execShards calls = openedShards calls ∧ LockedExecs calls.

(** What is stored in the cache. *)
Definition cacheAdds (tr : list Event) : list (string * CacheValue) :=
  omap (fun e => match e with EvCacheAdd key value => Some (key, value) | _ => None end) tr.

(** From [w] to [w'] nothing was stored in the cache and every key has
    the entry it had. *)
Definition KeepsEntries {St : Type} (w w' : World St) : Prop :=
  (∀ key, lru.find key (lru.items (cache w')) = lru.find key (lru.items (cache w)))
  ∧ ∃ calls, trace w' = (trace w ++ calls)%list ∧ cacheAdds calls = [].

(** The aggregates and the intervals that the cache and the executor
    deliver, in the order of the calls. *)
Definition deliveredAggregates (tr : list Event) : list Aggregates :=
  omap (fun e => match e with
                 | EvCacheGet _ (Some (VAggregates a)) => Some a
                 | EvExec _ _ (Some (VAggregates a)) => Some a
                 | _ => None
                 end) tr.

Definition deliveredIntervals (tr : list Event) : list Intervals :=
  omap (fun e => match e with
                 | EvCacheGet _ (Some (VIntervals a)) => Some a
                 | EvExec _ _ (Some (VIntervals a)) => Some a
                 | _ => None
                 end) tr.

(** The sum of a counter over the aggregates of group [id]. *)
Definition groupSum (counter : Aggregate → Z) (id : string) (l : list Aggregate) : Z :=
  foldr (fun a acc => if decide (Id a = id) then counter a + acc else acc) 0 l.

(** Every aggregate of the map is under its own group id. *)
Definition Keyed (m : gmap string Aggregate) : Prop :=
  ∀ id a, m !! id = Some a → Id a = id.

(** The helper map [m] of [GroupBy] holds the sums of the aggregates
    [l]: a group id is in the map when an aggregate of [l] has it, and
    its counters are then the sums of the counters of these aggregates,
    up to the wrap-around of Go's [int]. *)
Definition HoldsSums (m : gmap string Aggregate) (l : list Aggregate) : Prop :=
  ∀ id,
    match m !! id with
    | None => Forall (fun a => Id a ≠ id) l
    | Some t =>
        Id t = id
        ∧ Exists (fun a => Id a = id) l
        ∧ wrap (Total t) = wrap (groupSum Total id l)
        ∧ wrap (Unique t) = wrap (groupSum Unique id l)
    end.

(** The cache holds no more entries than its size. *)
Definition Fits (c : lru.Cache) : Prop := (length (lru.items c) ≤ lru.size c)%nat.

Section Writes.

Context {St Conn : Type} `{!Backend St Conn}.


End Writes.

Definition october5 : Analytic := mkAnalytic (mkTime 2026 10 5) "new".

(** * Properties *)

(** ** Shard labels *)

Example shardNameToInt_2015_12 : shardNameToInt "2015-12" = (201512, None).
Proof. reflexivity. Qed.

Example timeToShardName_2015_12 : timeToShardName (mkTime 2015 12 7) = "2015-12".
Proof. reflexivity. Qed.

Lemma labels_read_back :
  forallb (fun y => forallb (labelReadsBack y) (seqZ 1 12)) (seqZ 0 10000) = true.
Proof. vm_compute. reflexivity. Qed.

(** The label of a time of the years 0 to 9999 reads back as the integer
    YYYYMM of its month: the integers of the shards are ordered as the
    months are. *)
Lemma shard_label_is_YYYYMM (t : Time) :
  0 ≤ t_year t ≤ 9999 → 1 ≤ t_month t ≤ 12 →
  shardNameToInt (timeToShardName t) = (t_year t * 100 + t_month t, None).
Proof.
  intros Hy Hm. pose proof labels_read_back as Hall.
  rewrite forallb_forall in Hall.
  specialize (Hall (t_year t)). rewrite forallb_forall in Hall.
  assert (Hok : labelReadsBack (t_year t) (t_month t) = true).
  { apply Hall; apply list_elem_of_In, elem_of_seqZ; lia. }
  unfold labelReadsBack in Hok.
  change (timeToShardName t) with (timeToShardName (mkTime (t_year t) (t_month t) 0)).
  destruct (shardNameToInt _) as [n [err |]]; [done |].
  apply Z.eqb_eq in Hok. by subst.
Qed.

Lemma labels_are_written :
  forallb (fun y => forallb (labelIsWritten y) (seqZ 1 12)) (seqZ 0 10000) = true.
Proof. vm_compute. reflexivity. Qed.

(** The shard name of a time of the years 0 to 9999 is the label
    "YYYY-MM" of the month that the time shows. *)
Lemma shard_label_is_written (t : Time) :
  0 ≤ t_year t ≤ 9999 → 1 ≤ t_month t ≤ 12 →
  timeToShardName t = monthLabel (t_year t) (t_month t).
Proof.
  intros Hy Hm. pose proof labels_are_written as Hall.
  rewrite forallb_forall in Hall.
  specialize (Hall (t_year t)). rewrite forallb_forall in Hall.
  assert (Hok : labelIsWritten (t_year t) (t_month t) = true).
  { apply Hall; apply list_elem_of_In, elem_of_seqZ; lia. }
  by apply String.eqb_eq in Hok.
Qed.

Example monthLabel_2015_12 : monthLabel 2015 12 = "2015-12".
Proof. reflexivity. Qed.

Example shard_order_2015 :
  (shardNameToInt "2015-01").1 < (shardNameToInt "2015-12").1.
Proof. reflexivity. Qed.

(** ** GroupBy: the merge of the shard results *)

Section Merge.

Implicit Types (m : gmap string Aggregate) (a b : Aggregate).

Lemma wrap_add_l (x y : Z) : wrap (wrap x + y) = wrap (x + y).
Proof.
  unfold wrap. f_equal.
  replace ((x + 2 ^ 63) mod 2 ^ 64 - 2 ^ 63 + y + 2 ^ 63)
    with ((x + 2 ^ 63) mod 2 ^ 64 + y) by lia.
  rewrite Zplus_mod_idemp_l. f_equal. lia.
Qed.

Lemma addInt_swap (t x y : Z) : addInt (addInt t x) y = addInt (addInt t y) x.
Proof.
  unfold addInt. rewrite !wrap_add_l. f_equal. lia.
Qed.

Lemma addInt_comm (x y : Z) : addInt x y = addInt y x.
Proof. unfold addInt. f_equal. lia. Qed.

Lemma mergeAggregate_lookup_ne m a (k : string) :
  k ≠ Id a → mergeAggregate m a !! k = m !! k.
Proof.
  intros Hk. unfold mergeAggregate.
  destruct (m !! Id a); by rewrite lookup_insert_ne.
Qed.

Lemma mergeAggregate_swap m a b :
  mergeAggregate (mergeAggregate m a) b = mergeAggregate (mergeAggregate m b) a.
Proof.
  destruct (decide (Id a = Id b)) as [Heq | Hne].
  - unfold mergeAggregate. rewrite <- Heq.
    destruct (m !! Id a) as [t |] eqn:Ht; rewrite ?Ht;
      rewrite !lookup_insert_eq, !insert_insert_eq; cbn.
    + by rewrite addInt_swap, (addInt_swap (Unique t)).
    + destruct a as [ia ta ua], b as [ib tb ub]; cbn in *; subst.
      by rewrite addInt_comm, (addInt_comm ua).
  - unfold mergeAggregate at 1 3.
    rewrite !mergeAggregate_lookup_ne by done.
    unfold mergeAggregate.
    destruct (m !! Id a), (m !! Id b); by rewrite insert_insert_ne.
Qed.

Lemma foldl_swap_permutation {A B : Type} (f : A → B → A) :
  (∀ x y z, f (f x y) z = f (f x z) y) →
  ∀ l1 l2, l1 ≡ₚ l2 → ∀ x, foldl f x l1 = foldl f x l2.
Proof.
  intros Hf l1 l2 Hp.
  induction Hp as [| y l1 l2 _ IH | y z l | l1 l2 l3 _ IH1 _ IH2]; intros x; cbn.
  - done.
  - apply IH.
  - by rewrite Hf.
  - by rewrite IH1.
Qed.

Lemma mergeShard_swap m (s1 s2 : Aggregates) :
  mergeShard (mergeShard m s1) s2 = mergeShard (mergeShard m s2) s1.
Proof.
  unfold mergeShard. rewrite <- !foldl_app.
  apply foldl_swap_permutation; [apply mergeAggregate_swap |].
  apply Permutation_app_comm.
Qed.

(** C6.  The merge of [GroupBy] does not depend on the order of the
    shards: folding the per-shard aggregate lists into the helper map in
    any two orders that are permutations of one another gives the same
    map from group id to ([Total], [Unique]). *)
Theorem GroupBy_merge_order_independent m (shards1 shards2 : list Aggregates) :
  shards1 ≡ₚ shards2 →
  foldl mergeShard m shards1 = foldl mergeShard m shards2.
Proof.
  intros Hp. revert m.
  apply foldl_swap_permutation; [| done].
  intros; apply mergeShard_swap.
Qed.

End Merge.

Lemma GroupBy_merge_order_independent_witness :
  [Mem.aggregatesA; Mem.aggregatesB] ≡ₚ [Mem.aggregatesB; Mem.aggregatesA]
  ∧ foldl mergeShard ∅ [Mem.aggregatesA; Mem.aggregatesB]
    = foldl mergeShard ∅ [Mem.aggregatesB; Mem.aggregatesA].
Proof.
  split; [apply perm_swap |].
  apply (GroupBy_merge_order_independent ∅); apply perm_swap.
Defined.

Example merge_wraps_around :
  foldl mergeShard ∅ [Mem.aggregatesA; Mem.aggregatesB] !! "home"
  = Some (mkAggregate "home" (- 2 ^ 63 + 1) 7).
Proof. vm_compute. reflexivity. Qed.

(** ** The cache key *)

Section CacheKey.

Implicit Types (now : Time) (uRL : url.URL).

Lemma cacheQueryParams_ok now uRL shardName startMonth endMonth currentMonth :
  shardNameToInt (timeToShardName now) = (currentMonth, None) →
  cacheQueryParams now uRL shardName startMonth endMonth
  = (url.Add
       (let q := url.Query uRL in
        let q := if startMonth <? shardName then url.Del q "start" else q in
        let q := if endMonth >? shardName then url.Del q "end" else q in
        if shardName <? currentMonth then url.Del q "cache" else q)
       "shard" (strconv.Itoa shardName), None).
Proof. intros Hnow. unfold cacheQueryParams. by rewrite Hnow. Qed.

(** C1 (as the code has it).  The key is the request's URL with the
    encoded parameters of [cacheQueryParams] as its query, and these hold
    no ["cache"] when the shard is before the current month, and the
    ["cache"] values of the request otherwise: the shard of the current
    month keeps the request's ["cache"] parameter in its key. *)
Theorem cache_param_dropped_for_past_shards_only
    now uRL shardName startMonth endMonth currentMonth :
  shardNameToInt (timeToShardName now) = (currentMonth, None) →
  ∃ queryParams : url.Values,
    cacheQueryParams now uRL shardName startMonth endMonth = (queryParams, None)
    ∧ formatURLForCache now uRL shardName startMonth endMonth
      = (url.String_ (url.setRawQuery uRL (url.Encode queryParams)), None)
    ∧ queryParams !! "cache"
      = if shardName <? currentMonth then None else url.Query uRL !! "cache".
Proof.
  intros Hnow. eexists. split; [by apply cacheQueryParams_ok |].
  split.
  - unfold formatURLForCache. by rewrite (cacheQueryParams_ok _ _ _ _ _ _ Hnow).
  - unfold url.Add, url.Del. cbn zeta.
    rewrite lookup_insert_ne by done.
    destruct (shardName <? currentMonth); [by rewrite lookup_delete_eq |].
    destruct (endMonth >? shardName), (startMonth <? shardName);
      by rewrite ?lookup_delete_ne by done.
Qed.

(** C5.  Two requests that differ only in the value of their ["start"]
    parameter, both starts being before the shard, have the same cache
    key for that shard. *)
Theorem start_bound_collapses now (u1 u2 : url.URL) shardName start1 start2 endMonth :
  url.url_head u1 = url.url_head u2 →
  url.ForceQuery u1 = url.ForceQuery u2 →
  url.url_fragment u1 = url.url_fragment u2 →
  url.Del (url.Query u1) "start" = url.Del (url.Query u2) "start" →
  start1 < shardName →
  start2 < shardName →
  formatURLForCache now u1 shardName start1 endMonth
  = formatURLForCache now u2 shardName start2 endMonth.
Proof.
  intros Hhead Hforce Hfrag Hdel H1 H2.
  unfold formatURLForCache, cacheQueryParams.
  apply Z.ltb_lt in H1, H2. rewrite H1, H2, Hdel.
  destruct (shardNameToInt (timeToShardName now)) as [currentMonth [err |]]; [done |].
  unfold url.setRawQuery. by rewrite Hhead, Hforce, Hfrag.
Qed.

End CacheKey.

(** The claim of the specification fails for the shard of the current
    month: it is not before the current month, and the key of a request
    with [cache=true] carries the parameter. *)
Lemma current_shard_key_keeps_cache :
  shardNameToInt (timeToShardName Mem.oct2026) = (202610, None)
  ∧ ¬ (202610 < 202610)
  ∧ formatURLForCache Mem.oct2026 (url.mkURL "/site" "cache=true" false "") 202610 0 999999
    = ("/site?cache=true&shard=202610", None)
  ∧ fst (cacheQueryParams Mem.oct2026 (url.mkURL "/site" "cache=true" false "")
           202610 0 999999) !! "cache" = Some ["true"].
Proof. repeat split; [lia | vm_compute; reflexivity ..]. Qed.

Lemma cache_param_dropped_for_past_shards_only_witness :
  shardNameToInt (timeToShardName Mem.oct2026) = (202610, None)
  ∧ ∃ queryParams : url.Values,
      cacheQueryParams Mem.oct2026 Mem.fromJanuary 202609 201501 999999 = (queryParams, None)
      ∧ formatURLForCache Mem.oct2026 Mem.fromJanuary 202609 201501 999999
        = (url.String_ (url.setRawQuery Mem.fromJanuary (url.Encode queryParams)), None)
      ∧ queryParams !! "cache"
        = if 202609 <? 202610 then None else url.Query Mem.fromJanuary !! "cache".
Proof.
  split; [reflexivity |].
  apply (cache_param_dropped_for_past_shards_only Mem.oct2026 Mem.fromJanuary
           202609 201501 999999 202610).
  reflexivity.
Defined.

Lemma start_bound_collapses_witness :
  url.Del (url.Query Mem.fromJanuary) "start" = url.Del (url.Query Mem.fromMarch) "start"
  ∧ 201501 < 201506 ∧ 201503 < 201506
  ∧ formatURLForCache Mem.oct2026 Mem.fromJanuary 201506 201501 999999
    = formatURLForCache Mem.oct2026 Mem.fromMarch 201506 201503 999999.
Proof.
  assert (Hdel : url.Del (url.Query Mem.fromJanuary) "start"
                 = url.Del (url.Query Mem.fromMarch) "start") by (vm_compute; reflexivity).
  split; [exact Hdel |]. split; [lia |]. split; [lia |].
  apply (start_bound_collapses Mem.oct2026 Mem.fromJanuary Mem.fromMarch
           201506 201501 201503 999999); [reflexivity .. | exact Hdel | lia | lia].
Defined.

Example start_bound_collapsed_key :
  formatURLForCache Mem.oct2026 Mem.fromJanuary 201506 201501 999999
  = ("/site?shard=201506", None).
Proof. vm_compute. reflexivity. Qed.

(** ** The result cache *)

Section LRU.

Implicit Types (l front back : list (string * CacheValue)) (k key : string) (v : CacheValue).

Lemma find_app k front back :
  lru.find k (front ++ back)
  = match lru.find k front with Some v => Some v | None => lru.find k back end.
Proof.
  induction front as [| [k' v'] front IH]; cbn; [done |].
  by destruct (decide (k' = k)).
Qed.

Lemma find_remove_ne k k' l : k ≠ k' → lru.find k' (lru.remove k l) = lru.find k' l.
Proof.
  intros Hne. induction l as [| [k0 v0] l IH]; cbn; [done |].
  destruct (decide (k0 = k)) as [-> | Hk0]; cbn.
  - by destruct (decide (k = k')).
  - by rewrite IH.
Qed.

Lemma remove_app_found k front back v :
  lru.find k front = Some v → lru.remove k (front ++ back) = (lru.remove k front ++ back)%list.
Proof.
  induction front as [| [k0 v0] front IH]; cbn; [done |].
  destruct (decide (k0 = k)); [done |]. intros Hf. by rewrite IH.
Qed.

Lemma remove_app_missing k front back :
  lru.find k front = None → lru.remove k (front ++ back) = (front ++ lru.remove k back)%list.
Proof.
  induction front as [| [k0 v0] front IH]; cbn; [done |].
  destruct (decide (k0 = k)); [done |]. intros Hf. by rewrite IH.
Qed.

Lemma remove_length k l : (length (lru.remove k l) ≤ length l)%nat.
Proof.
  induction l as [| [k0 v0] l IH]; cbn; [done |].
  destruct (decide (k0 = k)); cbn; lia.
Qed.

(** A lookup does not change what the cache holds. *)
Lemma Get_find (c : lru.Cache) key k :
  lru.find k (lru.items (lru.Get c key).2) = lru.find k (lru.items c).
Proof.
  unfold lru.Get. destruct (lru.find key (lru.items c)) as [v |] eqn:Hf; cbn; [| done].
  destruct (decide (key = k)) as [-> | Hne]; [done |].
  by apply find_remove_ne.
Qed.

Lemma Get_result (c : lru.Cache) key : (lru.Get c key).1 = lru.find key (lru.items c).
Proof. unfold lru.Get. by destruct (lru.find key (lru.items c)). Qed.

(** The entries used since some point are at the front of the cache: a
    hit keeps to the front what was there and adds at most its entry. *)
Lemma Get_hit_front (c : lru.Cache) key v front back :
  lru.items c = (front ++ back)%list →
  lru.find key (lru.items c) = Some v →
  ∃ front' back',
    lru.items (lru.Get c key).2 = (front' ++ back')%list
    ∧ (length front' ≤ S (length front))%nat
    ∧ lru.find key front' = Some v
    ∧ ∀ k0 v0, lru.find k0 front = Some v0 → lru.find k0 front' = Some v0.
Proof.
  intros Hitems Hfind. unfold lru.Get. rewrite Hfind. cbn. rewrite Hitems in Hfind |- *.
  rewrite find_app in Hfind.
  destruct (lru.find key front) as [v1 |] eqn:Hfront.
  - simplify_eq. exists ((key, v) :: lru.remove key front), back.
    rewrite (remove_app_found _ _ _ _ Hfront). split; [done |].
    split; [cbn; pose proof (remove_length key front); lia |].
    split; [cbn; by rewrite decide_True |].
    intros k0 v0 H0. cbn. destruct (decide (key = k0)) as [<- | Hne]; [congruence |].
    by rewrite find_remove_ne.
  - exists ((key, v) :: front), (lru.remove key back).
    rewrite (remove_app_missing _ _ _ Hfront). split; [done |].
    split; [cbn; lia |].
    split; [cbn; by rewrite decide_True |].
    intros k0 v0 H0. cbn. destruct (decide (key = k0)) as [<- | Hne]; [congruence | done].
Qed.

(** A new entry goes to the front, and what is evicted for it is behind
    the front as long as the front is shorter than the cache. *)
Lemma Add_new_front (c : lru.Cache) key v front back :
  lru.items c = (front ++ back)%list →
  lru.find key (lru.items c) = None →
  (length front < lru.size c)%nat →
  ∃ back',
    lru.items (lru.Add c key v) = (((key, v) :: front) ++ back')%list
    ∧ ∀ k0 v0, lru.find k0 front = Some v0 → lru.find k0 ((key, v) :: front) = Some v0.
Proof.
  intros Hitems Hfind Hlen. unfold lru.Add. rewrite Hfind. cbn [lru.items].
  rewrite Hitems in Hfind |- *. rewrite find_app in Hfind.
  destruct (lru.find key front) eqn:Hfront; [done |].
  assert (Hmono : ∀ k0 v0, lru.find k0 front = Some v0 →
                           lru.find k0 ((key, v) :: front) = Some v0).
  { intros k0 v0 H0. cbn. destruct (decide (key = k0)) as [<- | Hne]; [congruence | done]. }
  destruct (lru.size c <? length ((key, v) :: front ++ back))%nat eqn:Hover.
  - apply Nat.ltb_lt in Hover. cbn in Hover. rewrite length_app in Hover.
    assert (Hback : back ≠ []) by (intros ->; cbn in Hover; lia).
    exists (removelast back). split; [| done].
    change ((key, v) :: front ++ back)%list with (((key, v) :: front) ++ back)%list.
    by rewrite removelast_app.
  - by exists back.
Qed.

Lemma Add_size (c : lru.Cache) key v : lru.size (lru.Add c key v) = lru.size c.
Proof. unfold lru.Add. by destruct (lru.find key (lru.items c)). Qed.

Lemma Get_size (c : lru.Cache) key : lru.size (lru.Get c key).2 = lru.size c.
Proof. unfold lru.Get. by destruct (lru.find key (lru.items c)). Qed.

End LRU.

(** ** The driver *)

Section DriverProperties.

Context {St Conn : Type} `{!Backend St Conn}.

Implicit Types (w : World St) (params : Params) (dbPath : DBPath).

#[local] Arguments cachedRequest : simpl never.
#[local] Arguments formatURLForCache : simpl never.
#[local] Arguments shardNameToInt : simpl never.
#[local] Arguments timeRangeToInt : simpl never.

(** *** The shard listing and the head of the read operations *)

Lemma append_each {A : Type} (acc l : list A) :
  foldl (fun shards folder => shards ++ [folder])%list acc l = (acc ++ l)%list.
Proof.
  revert acc. induction l as [| x l IH]; intros acc; cbn.
  - by rewrite app_nil_r.
  - by rewrite IH, <- app_assoc.
Qed.

Lemma listShards_eq dbPath w :
  listShards dbPath w
  = (default [] (ReadDir (DBPath_String dbPath) (DBManager w)),
     log (EvReadDir (DBPath_String dbPath)) w).
Proof.
  unfold listShards. destruct (ReadDir _ _) as [folders |]; cbn; [| done].
  by rewrite append_each.
Qed.

Lemma Query_unfold params w :
  Query params w
  = match DBExists (datasetPath params w) (DBManager w) with
    | None => ((None, Some InternalError), log (EvDBExists (datasetPath params w)) w)
    | Some false => ((None, Some InvalidDatabaseName), log (EvDBExists (datasetPath params w)) w)
    | Some true =>
        Query_shards params (datasetPath params w)
          (cachedRequest (URL params)) (shardsOf params w) (mkAnalytics []) (afterListing params w)
    end.
Proof.
  unfold Query, dbExists. cbn.
  destruct (DBExists _ _) as [[|] |]; [| done ..].
  by rewrite listShards_eq.
Qed.

Lemma GroupBy_unfold params w :
  GroupBy params w
  = match DBExists (datasetPath params w) (DBManager w) with
    | None => ((None, Some InternalError), log (EvDBExists (datasetPath params w)) w)
    | Some false => ((None, Some InvalidDatabaseName), log (EvDBExists (datasetPath params w)) w)
    | Some true =>
        GroupBy_shards params (datasetPath params w)
          (cachedRequest (URL params)) (shardsOf params w) ∅ (afterListing params w)
    end.
Proof.
  unfold GroupBy, dbExists. cbn.
  destruct (DBExists _ _) as [[|] |]; [| done ..].
  by rewrite listShards_eq.
Qed.

Lemma Series_unfold params w :
  Series params w
  = match DBExists (datasetPath params w) (DBManager w) with
    | None => ((None, Some InternalError), log (EvDBExists (datasetPath params w)) w)
    | Some false => ((None, Some InvalidDatabaseName), log (EvDBExists (datasetPath params w)) w)
    | Some true =>
        Series_shards params (datasetPath params w)
          (cachedRequest (URL params)) (shardsOf params w) (mkIntervals []) (afterListing params w)
    end.
Proof.
  unfold Series, dbExists. cbn.
  destruct (DBExists _ _) as [[|] |]; [| done ..].
  by rewrite listShards_eq.
Qed.

(** *** Errors *)

Lemma Query_shards_error params dbPath c shards analytics w res err w' :
  Query_shards params dbPath c shards analytics w = ((res, Some err), w') → res = None.
Proof.
  revert analytics w. induction shards as [| shardName shards IH]; intros analytics w Hq;
    cbn in Hq; [congruence |].
  repeat case_match; simplify_eq; eauto.
Qed.

Lemma GroupBy_shards_error params dbPath c shards m w res err w' :
  GroupBy_shards params dbPath c shards m w = ((res, Some err), w') → res = None.
Proof.
  revert m w. induction shards as [| shardName shards IH]; intros m w Hq;
    cbn in Hq; [congruence |].
  repeat case_match; simplify_eq; eauto.
Qed.

Lemma Series_shards_error params dbPath c shards analytics w res err w' :
  Series_shards params dbPath c shards analytics w = ((res, Some err), w') → res = None.
Proof.
  revert analytics w. induction shards as [| shardName shards IH]; intros analytics w Hq;
    cbn in Hq; [congruence |].
  repeat case_match; simplify_eq; eauto.
Qed.

(** C7.  When [Query], [GroupBy] or [Series] returns an error, the result
    it returns with it is [nil]: what the shards before the failing one
    contributed is not returned. *)
Theorem error_discards_partial_results params w :
  (∀ res err w', Query params w = ((res, Some err), w') → res = None)
  ∧ (∀ res err w', GroupBy params w = ((res, Some err), w') → res = None)
  ∧ (∀ res err w', Series params w = ((res, Some err), w') → res = None).
Proof.
  repeat split; intros res err w' Hq.
  - unfold Query in Hq. repeat case_match; simplify_eq; eauto using Query_shards_error.
  - unfold GroupBy in Hq. repeat case_match; simplify_eq; eauto using GroupBy_shards_error.
  - unfold Series in Hq. repeat case_match; simplify_eq; eauto using Series_shards_error.
Qed.

(** *** Insert *)

(** The shard that [Insert] writes to. *)
Lemma Insert_unfold params analytic w :
  let shardPath :=
    mkDBPath (timeToShardName (Time_ analytic))
             (DBPath_String (mkDBPath (DBName params) (directory w))) in
  Insert params analytic w
  = match GetDB shardPath (DBManager w) with
    | (None, st) =>
        (Some InternalError,
         mkWorld st (directory w) (cache w) (clock w)
           (trace w ++ [EvGetDB shardPath false]))
    | (Some db, st) =>
        let '(ok, st') := query_Insert db analytic st in
        (if ok then None else Some InsertFailed,
         mkWorld st' (directory w) (cache w) (clock w)
           (trace w ++ [EvGetDB shardPath true; EvLock shardPath;
                        EvInsert shardPath analytic ok; EvUnlock shardPath]))
    end.
Proof.
  cbn zeta. unfold Insert, getDB, Lock, Unlock, log, setStorage. cbn.
  destruct (GetDB _ (DBManager w)) as [[db |] st]; cbn; [| done].
  destruct (query_Insert db analytic st) as [[|] st']; cbn;
    by rewrite <- !app_assoc.
Qed.

(** C8.  [Insert] opens the shard named after the month of the record's
    own timestamp, in the directory of the dataset: for a timestamp of
    the years 0 to 9999 the name is the label "YYYY-MM" of the month
    that the timestamp shows, four digits of the year, a dash and two
    digits of the month, which reads back as the integer YYYYMM.
    Neither the rest of [params] (URL, time range, property, interval,
    uniqueness) nor the cache has a part in it, and the cache is left as
    it is.  When the connection cannot be opened the error is
    [InternalError] and nothing else is called; otherwise the executor is
    called once, between [Lock] and [Unlock] of that shard, and its
    failure is reported as [InsertFailed]. *)
Theorem Insert_routes_by_record_time params analytic w :
  let shardPath :=
    mkDBPath (timeToShardName (Time_ analytic))
             (DBPath_String (mkDBPath (DBName params) (directory w))) in
  let err := fst (Insert params analytic w) in
  let w' := snd (Insert params analytic w) in
  (0 ≤ t_year (Time_ analytic) ≤ 9999 → 1 ≤ t_month (Time_ analytic) ≤ 12 →
   Name shardPath = monthLabel (t_year (Time_ analytic)) (t_month (Time_ analytic))
   ∧ shardNameToInt (Name shardPath)
     = (t_year (Time_ analytic) * 100 + t_month (Time_ analytic), None))
  ∧ (∀ uRL tr property interval uniq c,
       Insert (mkParams (DBName params) uRL tr property interval uniq) analytic (setCache c w)
       = (err, setCache c w'))
  ∧ cache w' = cache w
  ∧ match GetDB shardPath (DBManager w) with
    | (None, st) =>
        err = Some InternalError
        ∧ trace w' = (trace w ++ [EvGetDB shardPath false])%list
    | (Some db, st) =>
        let ok := fst (query_Insert db analytic st) in
        err = (if ok then None else Some InsertFailed)
        ∧ trace w' = (trace w ++ [EvGetDB shardPath true; EvLock shardPath;
                                  EvInsert shardPath analytic ok; EvUnlock shardPath])%list
        ∧ DBManager w' = snd (query_Insert db analytic st)
    end.
Proof.
  cbn zeta. split; [| split; [| split]].
  - intros Hy Hm. cbn [Name].
    split; [by apply shard_label_is_written | by apply shard_label_is_YYYYMM].
  - intros uRL tr property interval uniq c.
    rewrite !Insert_unfold. cbn.
    destruct (GetDB _ (DBManager w)) as [[db |] st]; [| done].
    by destruct (query_Insert db analytic st) as [ok st'].
  - rewrite Insert_unfold. cbn zeta.
    destruct (GetDB _ (DBManager w)) as [[db |] st]; [| done].
    by destruct (query_Insert db analytic st) as [ok st'].
  - rewrite Insert_unfold. cbn zeta.
    destruct (GetDB _ (DBManager w)) as [[db |] st]; [| done].
    by destruct (query_Insert db analytic st) as [ok st'].
Qed.

(** C10.  [Insert] makes no existence check: what it calls first is
    [GetDB] on the shard of the record, nothing it calls is [DBExists] or
    the directory listing, and the error it returns, if any, is
    [InternalError] or [InsertFailed], never [InvalidDatabaseName]. *)
Theorem Insert_checks_no_existence params analytic w :
  let shardPath :=
    mkDBPath (timeToShardName (Time_ analytic))
             (DBPath_String (mkDBPath (DBName params) (directory w))) in
  let err := fst (Insert params analytic w) in
  let w' := snd (Insert params analytic w) in
  (err = None ∨ err = Some InternalError ∨ err = Some InsertFailed)
  ∧ err ≠ Some InvalidDatabaseName
  ∧ ∃ ok calls,
      trace w' = (trace w ++ EvGetDB shardPath ok :: calls)%list
      ∧ forallb (fun e => negb (isExistenceCheck e)) (EvGetDB shardPath ok :: calls) = true.
Proof.
  cbn zeta. rewrite Insert_unfold. cbn zeta.
  destruct (GetDB _ (DBManager w)) as [[db |] st].
  - destruct (query_Insert db analytic st) as [[|] st']; cbn;
      (split; [auto |]); (split; [done |]); by eexists _, _.
  - cbn. split; [auto |]. split; [done |]. by eexists _, _.
Qed.

(** *** Series *)

Lemma inRange_continue (timeRange : option TimeRange) shardName shardInt startInt endInt :
  shardNameToInt shardName = (shardInt, None) →
  timeRangeToInt timeRange = (startInt, endInt) →
  inRange timeRange shardName = negb ((shardInt <? startInt) || (shardInt >? endInt)).
Proof.
  intros Hs Ht. unfold inRange. rewrite Hs, Ht.
  rewrite negb_orb, Z.gtb_ltb, <- Z.leb_antisym, <- Z.leb_antisym. done.
Qed.

Lemma LockedExecs_app (tr1 tr2 : list Event) :
  LockedExecs tr1 → LockedExecs tr2 → LockedExecs (tr1 ++ tr2).
Proof.
  induction 1; intros H2; cbn; [done | by constructor; auto | by constructor; auto].
Qed.

Ltac locked :=
  repeat first [ apply LockedExecs_nil
               | apply LockedExecs_locked
               | apply LockedExecs_other; [reflexivity | reflexivity |] ].

Lemma SeriesLocking_nil params : SeriesLocking params [].
Proof. unfold SeriesLocking. split; [done |]. destruct (Unique_ params); repeat constructor. Qed.

Lemma SeriesLocking_app params (calls1 calls2 : list Event) :
  SeriesLocking params calls1 → SeriesLocking params calls2 →
  SeriesLocking params (calls1 ++ calls2).
Proof.
  unfold SeriesLocking, execShards, openedShards, execCalls.
  intros [Hp1 H1] [Hp2 H2]. rewrite !omap_app, Hp1, Hp2. split; [done |].
  destruct (Unique_ params); destruct H1, H2.
  - split; [by apply LockedExecs_app | by apply Forall_app].
  - split; [| by apply Forall_app]. rewrite forallb_app. by apply andb_true_iff.
Qed.

Lemma Series_shard_calls params dbPath c shardName cacheURL w :
  ∃ calls,
    trace (Series_shard params dbPath c shardName cacheURL w).2 = (trace w ++ calls)%list
    ∧ SeriesLocking params calls.
Proof.
  unfold Series_shard, cacheGet, getDB, exec, cacheAdd, Lock, Unlock, log, setCache, setStorage.
  unfold SeriesLocking. cbn.
  destruct (lru.Get (cache w) cacheURL) as [[v |] c'] eqn:Hget; cbn.
  { exists [EvCacheGet cacheURL (Some v)].
    split; [by destruct v |]. split; [done |].
    destruct (Unique_ params); (split; [| by constructor]); [locked | done]. }
  destruct (GetDB _ (DBManager w)) as [[db |] st]; cbn.
  2: { eexists [_; _]. rewrite <- app_assoc. split; [done |]. split; [done |].
       destruct (Unique_ params); (split; [| by constructor]); [locked | done]. }
  destruct (Unique_ params) eqn:Huniq; cbn.
  - destruct (query_SeriesUniq db _ _ st) as [[r |] st'] eqn:Hrun; cbn;
      [destruct c; cbn |]; rewrite <- !app_assoc; cbn; eexists;
      (split; [done |]); (split; [done |]); (split; [locked | by repeat constructor]).
  - destruct (query_Series db _ _ st) as [[r |] st'] eqn:Hrun; cbn;
      [destruct c; cbn |]; rewrite <- !app_assoc; cbn; eexists;
      (split; [done |]); (split; [done |]); (split; [done | by repeat constructor]).
Qed.

Lemma Series_shards_calls params dbPath c shards analytics w :
  ∃ calls,
    trace (Series_shards params dbPath c shards analytics w).2 = (trace w ++ calls)%list
    ∧ SeriesLocking params calls.
Proof.
  revert analytics w.
  induction shards as [| shardName shards IH]; intros analytics w; cbn.
  { exists []. rewrite app_nil_r. split; [done | apply SeriesLocking_nil]. }
  destruct (shardNameToInt shardName) as [shardInt [err |]].
  { exists []. rewrite app_nil_r. split; [done | apply SeriesLocking_nil]. }
  destruct (timeRangeToInt (TimeRange_ params)) as [startInt endInt].
  destruct ((shardInt <? startInt) || (shardInt >? endInt)); [apply IH |].
  destruct (formatURLForCache _ _ _ _ _) as [cacheURL [err |]].
  { exists []. rewrite app_nil_r. split; [done | apply SeriesLocking_nil]. }
  destruct (Series_shard_calls params dbPath c shardName cacheURL w) as (calls1 & Ht1 & H1).
  destruct (Series_shard params dbPath c shardName cacheURL w) as [[shardAnalytics | err] w1];
    cbn in Ht1 |- *; [| by exists calls1].
  match goal with |- context [Series_shards _ _ _ _ ?a w1] =>
    destruct (IH a w1) as (calls2 & Ht2 & H2) end.
  exists (calls1 ++ calls2)%list. rewrite Ht2, Ht1, <- app_assoc.
  split; [done | by apply SeriesLocking_app].
Qed.

(** What [Series] calls for one shard, whatever comes of it. *)
Lemma Series_shard_steps params dbPath shardName cacheURL w :
  shardKey (clock w) params shardName = (cacheURL, None) →
  ∃ calls r,
    SeriesCalls params dbPath (clock w) shardName calls r
    ∧ trace (Series_shard params dbPath (cachedRequest (URL params)) shardName cacheURL w).2
      = (trace w ++ calls)%list
    ∧ clock (Series_shard params dbPath (cachedRequest (URL params)) shardName cacheURL w).2
      = clock w
    ∧ match r with
      | Some shardAnalytics =>
          (Series_shard params dbPath (cachedRequest (URL params)) shardName cacheURL w).1
          = inl shardAnalytics
      | None =>
          (Series_shard params dbPath (cachedRequest (URL params)) shardName cacheURL w).1
          = inr InternalError
      end.
Proof.
  intros Hkey.
  unfold Series_shard, cacheGet, getDB, exec, cacheAdd, Lock, Unlock, log, setCache, setStorage.
  cbn.
  destruct (lru.Get (cache w) cacheURL) as [[v |] c'] eqn:Hget; cbn.
  { destruct v as [a | a | a].
    - exists [EvCacheGet cacheURL (Some (VAnalytics a))], None.
      split; [by apply SeriesCalls_mismatch |]. done.
    - exists [EvCacheGet cacheURL (Some (VAggregates a))], None.
      split; [by apply SeriesCalls_mismatch |]. done.
    - exists [EvCacheGet cacheURL (Some (VIntervals a))], (Some a).
      split; [by apply SeriesCalls_hit |]. done. }
  destruct (GetDB _ (DBManager w)) as [[db |] st]; cbn.
  2: { eexists _, None. split; [by apply SeriesCalls_closed |].
       by rewrite <- !app_assoc. }
  pose proof (SeriesCalls_miss params dbPath (clock w) shardName cacheURL) as Hmiss.
  unfold seriesExec in Hmiss.
  destruct (Unique_ params) eqn:Huniq; cbn.
  - destruct (query_SeriesUniq db _ _ st) as [r st'] eqn:Hrun; cbn.
    eexists _, r. split; [by apply Hmiss |].
    destruct r as [r |]; cbn; [destruct (cachedRequest (URL params)); cbn |];
      by rewrite <- !app_assoc.
  - destruct (query_Series db _ _ st) as [r st'] eqn:Hrun; cbn.
    eexists _, r. split; [by apply Hmiss |].
    destruct r as [r |]; cbn; [destruct (cachedRequest (URL params)); cbn |];
      by rewrite <- !app_assoc.
Qed.

(** The loop of [Series] goes through the shards in range in their
    order, through all of them when it returns no error. *)
Lemma Series_shards_steps params dbPath shards analytics w :
  ∃ (visited : list string) (blocks : list (list Event * option Intervals)),
    visited `prefix_of` List.filter (inRange (TimeRange_ params)) shards
    ∧ Forall2 (fun shardName b => SeriesCalls params dbPath (clock w) shardName b.1 b.2)
        visited blocks
    ∧ trace (Series_shards params dbPath (cachedRequest (URL params)) shards analytics w).2
      = (trace w ++ concat (fst <$> blocks))%list
    ∧ ((Series_shards params dbPath (cachedRequest (URL params)) shards analytics w).1.2 = None →
       visited = List.filter (inRange (TimeRange_ params)) shards).
Proof.
  revert analytics w.
  induction shards as [| shardName shards IH]; intros analytics w; cbn [Series_shards].
  { exists [], []. cbn. by rewrite app_nil_r. }
  destruct (shardNameToInt shardName) as [shardInt [err |]] eqn:Hint.
  { exists [], []. cbn. rewrite app_nil_r. split; [apply prefix_nil | done]. }
  destruct (timeRangeToInt (TimeRange_ params)) as [startInt endInt] eqn:Hrange.
  cbn [List.filter]. rewrite (inRange_continue _ _ _ _ _ Hint Hrange).
  destruct ((shardInt <? startInt) || (shardInt >? endInt)); cbn [negb]; [apply IH |].
  destruct (formatURLForCache _ _ _ _ _) as [cacheURL [err |]] eqn:Hkey.
  { exists [], []. cbn. rewrite app_nil_r. split; [apply prefix_nil | done]. }
  assert (Hkey' : shardKey (clock w) params shardName = (cacheURL, None)).
  { unfold shardKey. by rewrite Hrange, Hint. }
  destruct (Series_shard_steps params dbPath shardName cacheURL w Hkey')
    as (calls & r & Hcalls & Ht1 & Hclock & Hres).
  destruct (Series_shard _ _ _ _ _ _) as [[shardAnalytics | err] w1] eqn:Hshard;
    cbn [fst snd] in Ht1, Hclock, Hres |- *.
  - match goal with |- context [Series_shards _ _ _ _ ?a w1] =>
      destruct (IH a w1) as (visited & blocks & Hpre & Hblocks & Ht & Hall) end.
    exists (shardName :: visited), ((calls, r) :: blocks).
    split; [by apply prefix_cons |]. split; [| split].
    + constructor; [done |]. by rewrite <- Hclock.
    + cbn. by rewrite Ht, Ht1, <- app_assoc.
    + intros Herr. by rewrite Hall.
  - exists [shardName], [(calls, r)]. cbn. rewrite app_nil_r.
    split; [apply prefix_cons, prefix_nil |]. split; [| done].
    by repeat constructor.
Qed.

(** C9.  A call of [Series] on a dataset that does not exist, or whose
    existence cannot be checked, calls nothing else.  Otherwise, after
    the existence check and the listing, it goes through the shards in
    range in the order of the listing, through all of them when it
    returns no error, and what it calls is, shard after shard, what
    [SeriesCalls] allows: on a cache miss the connection of the shard is
    opened and the executor is called once on it; with the uniqueness
    flag this call is [query.SeriesUniq] and stands between [Lock] and
    [Unlock] of the shard, without the flag it is [query.Series] and
    stands alone.  So, with the flag every call of the executor is made
    under the lock of its shard, and without it the call of [Series]
    takes no lock at all. *)
Theorem Series_locks_on_unique_path_only params w :
  let dbPath := mkDBPath (DBName params) (directory w) in
  ∃ calls,
    trace (Series params w).2 = (trace w ++ calls)%list
    ∧ SeriesLocking params calls
    ∧ match DBExists dbPath (DBManager w) with
      | Some true =>
          ∃ (visited : list string) (blocks : list (list Event * option Intervals)),
            visited `prefix_of`
              List.filter (inRange (TimeRange_ params)) (fst (listShards dbPath w))
            ∧ Forall2 (fun shardName b =>
                         SeriesCalls params dbPath (clock w) shardName b.1 b.2)
                visited blocks
            ∧ calls = ([EvDBExists dbPath; EvReadDir (DBPath_String dbPath)]
                       ++ concat (fst <$> blocks))%list
            ∧ ((Series params w).1.2 = None →
               visited = List.filter (inRange (TimeRange_ params)) (fst (listShards dbPath w)))
      | _ => calls = [EvDBExists dbPath]
      end.
Proof.
  cbn zeta. rewrite Series_unfold. unfold datasetPath.
  destruct (DBExists _ (DBManager w)) as [[|] |]; cbn.
  2,3: exists [EvDBExists (mkDBPath (DBName params) (directory w))]; (split; [done |]);
       (split; [| done]);
       apply (SeriesLocking_app _ [_] []); [| apply SeriesLocking_nil];
       (split; [done |]); destruct (Unique_ params); (split; [| by constructor]);
       [locked | done].
  match goal with |- context [Series_shards ?p ?d ?c ?l ?a ?w0] =>
    destruct (Series_shards_calls p d c l a w0) as (calls & Ht & Hc);
    destruct (Series_shards_steps p d l a w0) as (visited & blocks & Hpre & Hblocks & Ht' & Hall)
  end.
  rewrite Ht in Ht'. apply app_inv_head in Ht'. subst calls.
  exists ([EvDBExists (mkDBPath (DBName params) (directory w));
           EvReadDir (DBPath_String (mkDBPath (DBName params) (directory w)))]
          ++ concat (fst <$> blocks))%list.
  split; [| split].
  - rewrite Ht. unfold afterListing, log; cbn. by rewrite <- !app_assoc.
  - apply (SeriesLocking_app _ [_; _] (concat (fst <$> blocks))); [| done].
    split; [done |]. destruct (Unique_ params); (split; [| by constructor]); [locked | done].
  - exists visited, blocks. rewrite listShards_eq.
    split; [exact Hpre |]. split; [exact Hblocks |]. split; [done | exact Hall].
Qed.

(** *** The shard listing *)

(** C3 (as the code has it).  [listShards] returns the entries of the
    directory in their order, hence no shard when there is no entry, and
    no shard either when the directory cannot be read: the read
    operations on an existing dataset then return an empty result and no
    error. *)
Theorem listShards_unreadable_is_empty params w :
  let dbPath := mkDBPath (DBName params) (directory w) in
  let listing := ReadDir (DBPath_String dbPath) (DBManager w) in
  (∀ folders, listing = Some folders → fst (listShards dbPath w) = folders)
  ∧ (listing = None →
     fst (listShards dbPath w) = []
     ∧ (DBExists dbPath (DBManager w) = Some true →
        fst (Query params w) = (Some (mkAnalytics []), None)
        ∧ fst (GroupBy params w) = (Some (mkAggregates []), None)
        ∧ fst (Series params w) = (Some (mkIntervals []), None))).
Proof.
  cbn zeta. split.
  - intros folders Hl. by rewrite listShards_eq, Hl.
  - intros Hl. split; [by rewrite listShards_eq, Hl |].
    intros Hex. rewrite Query_unfold, GroupBy_unfold, Series_unfold.
    unfold shardsOf, datasetPath. rewrite Hex, Hl. cbn.
    unfold aggregatesOfMap. by rewrite map_to_list_empty.
Qed.

(** *** Query *)

Lemma Query_shard_calls params dbPath shardName cacheURL w shardAnalytics w' :
  shardKey (clock w) params shardName = (cacheURL, None) →
  Query_shard params dbPath (cachedRequest (URL params)) shardName cacheURL w
  = (inl shardAnalytics, w') →
  ∃ calls,
    QueryCalls params dbPath (clock w) shardName calls shardAnalytics
    ∧ trace w' = (trace w ++ calls)%list
    ∧ clock w' = clock w.
Proof.
  intros Hkey.
  unfold Query_shard, cacheGet, getDB, exec, cacheAdd, Lock, Unlock, log, setCache, setStorage.
  cbn.
  destruct (lru.Get (cache w) cacheURL) as [[v |] c'] eqn:Hget; cbn.
  { destruct v; intros; simplify_eq. eexists. split; [by apply QueryCalls_hit |]. done. }
  destruct (GetDB _ (DBManager w)) as [[db |] st]; cbn; [| done].
  destruct (query_Query db _ st) as [[r |] st'] eqn:Hrun; cbn; [| done].
  intros; simplify_eq. eexists. split; [by apply QueryCalls_miss |].
  destruct (cachedRequest (URL params)); cbn; by rewrite <- !app_assoc.
Qed.

Lemma Query_shards_calls params dbPath shards analytics w res w' :
  Query_shards params dbPath (cachedRequest (URL params)) shards analytics w
  = ((res, None), w') →
  ∃ blocks : list (list Event * Analytics),
    Forall2 (fun shardName b => QueryCalls params dbPath (clock w) shardName b.1 b.2)
      (List.filter (inRange (TimeRange_ params)) shards) blocks
    ∧ trace w' = (trace w ++ concat (fst <$> blocks))%list
    ∧ res = Some (mkAnalytics
                    (AnalyticsList analytics
                     ++ concat ((fun b => AnalyticsList b.2) <$> blocks))%list).
Proof.
  revert analytics w.
  induction shards as [| shardName shards IH]; intros analytics w Hq; cbn in Hq.
  { simplify_eq. exists []. cbn. rewrite !app_nil_r. by destruct analytics. }
  destruct (shardNameToInt shardName) as [shardInt [err |]] eqn:Hint; [done |].
  destruct (timeRangeToInt (TimeRange_ params)) as [startInt endInt] eqn:Hrange.
  cbn [List.filter]. rewrite (inRange_continue _ _ _ _ _ Hint Hrange).
  destruct ((shardInt <? startInt) || (shardInt >? endInt)); cbn [negb].
  { by apply IH. }
  destruct (formatURLForCache _ _ _ _ _) as [cacheURL [err |]] eqn:Hkey; [done |].
  assert (Hkey' : shardKey (clock w) params shardName = (cacheURL, None)).
  { unfold shardKey. by rewrite Hrange, Hint. }
  destruct (Query_shard _ _ _ _ _ _) as [[shardAnalytics | err] w1] eqn:Hshard; [| done].
  destruct (Query_shard_calls _ _ _ _ _ _ _ Hkey' Hshard) as (calls & Hcalls & Ht1 & Hclock).
  destruct (IH _ _ Hq) as (blocks & Hblocks & Ht & Hres).
  exists ((calls, shardAnalytics) :: blocks). split; [| split].
  - constructor; [done |]. by rewrite <- Hclock.
  - cbn. by rewrite Ht, Ht1, <- app_assoc.
  - rewrite Hres. cbn. by rewrite <- app_assoc.
Qed.

(** C4.  A call of [Query] that returns without error went through the
    shards of the listing whose integer lies within the bounds of the
    time range, in the order of the listing: after the existence check
    and the listing, everything it called is the lookup and, on a miss,
    the execution for one of these shards, and its result is the
    concatenation of their results in that order, nothing being removed.
    A shard out of the range has no call of the cache or the executor. *)
Theorem Query_concatenates_shards_in_range params w res w' :
  Query params w = ((res, None), w') →
  let dbPath := mkDBPath (DBName params) (directory w) in
  ∃ blocks : list (list Event * Analytics),
    Forall2 (fun shardName b => QueryCalls params dbPath (clock w) shardName b.1 b.2)
      (List.filter (inRange (TimeRange_ params)) (fst (listShards dbPath w))) blocks
    ∧ trace w' = (trace w ++ [EvDBExists dbPath; EvReadDir (DBPath_String dbPath)]
                  ++ concat (fst <$> blocks))%list
    ∧ res = Some (mkAnalytics (concat ((fun b => AnalyticsList b.2) <$> blocks))).
Proof.
  rewrite Query_unfold. unfold datasetPath. intros Hq. cbn zeta.
  destruct (DBExists _ (DBManager w)) as [[|] |]; [| done ..].
  apply Query_shards_calls in Hq as (blocks & Hblocks & Ht & Hres).
  exists blocks. rewrite listShards_eq. split; [done |]. split; [| done].
  rewrite Ht. unfold afterListing, log. cbn. by rewrite <- !app_assoc.
Qed.

(** *** Query and the cache *)

Lemma Query_shard_stores params dbPath shardName cacheURL w shardAnalytics w' front back :
  Query_shard params dbPath true shardName cacheURL w = (inl shardAnalytics, w') →
  lru.items (cache w) = (front ++ back)%list →
  (length front < lru.size (cache w))%nat →
  ∃ front' back',
    lru.items (cache w') = (front' ++ back')%list
    ∧ (length front' ≤ S (length front))%nat
    ∧ lru.size (cache w') = lru.size (cache w)
    ∧ clock w' = clock w
    ∧ lru.find cacheURL front' = Some (VAnalytics shardAnalytics)
    ∧ ∀ k0 v0, lru.find k0 front = Some v0 → lru.find k0 front' = Some v0.
Proof.
  intros Hq Hitems Hlen.
  unfold Query_shard, cacheGet, getDB, exec, cacheAdd, Lock, Unlock, log, setCache, setStorage
    in Hq. cbn in Hq.
  pose proof (Get_result (cache w) cacheURL) as Hres.
  pose proof (Get_size (cache w) cacheURL) as Hsize.
  destruct (lru.Get (cache w) cacheURL) as [[v |] c'] eqn:Hget; cbn in *.
  - destruct (Get_hit_front (cache w) cacheURL v front back Hitems) as
      (front' & back' & H1 & H2 & H3 & H4); [done |].
    rewrite Hget in H1. cbn in H1.
    destruct v; simplify_eq. cbn. by exists front', back'.
  - assert (c' = cache w) as ->.
    { unfold lru.Get in Hget. rewrite <- Hres in Hget. by simplify_eq. }
    destruct (GetDB _ (DBManager w)) as [[db |] st]; cbn in Hq; [| done].
    destruct (query_Query db _ st) as [[r |] st'] eqn:Hrun; cbn in Hq; [| done].
    simplify_eq. cbn.
    destruct (Add_new_front (cache w) cacheURL (VAnalytics shardAnalytics) front back)
      as (back' & H1 & H2); [done .. |].
    exists ((cacheURL, VAnalytics shardAnalytics) :: front), back'.
    rewrite Add_size. repeat split; [done | cbn; lia | | done].
    cbn. by rewrite decide_True.
Qed.

(** What a successful request with ["cache"] leaves in the cache: the
    result of every shard it went through, under the key of the shard. *)
Lemma Query_shards_stores params dbPath shards analytics w res w' front back :
  Query_shards params dbPath true shards analytics w = ((res, None), w') →
  lru.items (cache w) = (front ++ back)%list →
  (length front + length (List.filter (inRange (TimeRange_ params)) shards)
   ≤ lru.size (cache w))%nat →
  ∃ results front' back',
    lru.items (cache w') = (front' ++ back')%list
    ∧ (∀ k0 v0, lru.find k0 front = Some v0 → lru.find k0 front' = Some v0)
    ∧ Forall2 (fun shardName shardAnalytics =>
                 ∃ key, shardKey (clock w) params shardName = (key, None)
                        ∧ lru.find key front' = Some (VAnalytics shardAnalytics))
        (List.filter (inRange (TimeRange_ params)) shards) results
    ∧ Forall (fun shardName => (shardNameToInt shardName).2 = None) shards
    ∧ res = Some (mkAnalytics
                    (AnalyticsList analytics ++ concat (AnalyticsList <$> results))%list)
    ∧ clock w' = clock w.
Proof.
  revert analytics w front back.
  induction shards as [| shardName shards IH]; intros analytics w front back Hq Hitems Hlen;
    cbn in Hq.
  { simplify_eq. exists [], front, back. cbn. rewrite app_nil_r.
    repeat split; [done | done | constructor | constructor | by destruct analytics]. }
  destruct (shardNameToInt shardName) as [shardInt [err |]] eqn:Hint; [done |].
  destruct (timeRangeToInt (TimeRange_ params)) as [startInt endInt] eqn:Hrange.
  cbn [List.filter] in Hlen |- *. rewrite (inRange_continue _ _ _ _ _ Hint Hrange) in Hlen |- *.
  destruct ((shardInt <? startInt) || (shardInt >? endInt)); cbn [negb] in Hlen |- *.
  { destruct (IH _ _ _ _ Hq Hitems Hlen)
      as (results & front' & back' & H1 & H2 & H3 & H4 & H5 & H6).
    exists results, front', back'. repeat split; try done.
    constructor; [by rewrite Hint | done]. }
  destruct (formatURLForCache _ _ _ _ _) as [cacheURL [err |]] eqn:Hkey; [done |].
  assert (Hkey' : shardKey (clock w) params shardName = (cacheURL, None)).
  { unfold shardKey. by rewrite Hrange, Hint. }
  destruct (Query_shard _ _ _ _ _ _) as [[shardAnalytics | err] w1] eqn:Hshard; [| done].
  cbn [length] in Hlen.
  destruct (Query_shard_stores _ _ _ _ _ _ _ front back Hshard Hitems)
    as (front1 & back1 & Hitems1 & Hlen1 & Hsize1 & Hclock1 & Hfound & Hmono1); [lia |].
  destruct (IH _ _ front1 back1 Hq Hitems1)
    as (results & front' & back' & H1 & H2 & H3 & H4 & H5 & H6); [lia |].
  exists (shardAnalytics :: results), front', back'.
  split; [done |]. split; [by auto |]. split.
  { constructor; [by eauto |]. by rewrite <- Hclock1. }
  split; [constructor; [by rewrite Hint | done] |].
  split; [| congruence].
  rewrite H5. cbn. by rewrite <- app_assoc.
Qed.

(** A request whose shards all have their result in the cache returns
    these results and calls no executor. *)
Lemma Query_shards_all_hits params dbPath c shards analytics w results :
  Forall (fun shardName => (shardNameToInt shardName).2 = None) shards →
  Forall2 (fun shardName shardAnalytics =>
             ∃ key, shardKey (clock w) params shardName = (key, None)
                    ∧ lru.find key (lru.items (cache w)) = Some (VAnalytics shardAnalytics))
    (List.filter (inRange (TimeRange_ params)) shards) results →
  ∃ w' calls,
    Query_shards params dbPath c shards analytics w
    = ((Some (mkAnalytics
                (AnalyticsList analytics ++ concat (AnalyticsList <$> results))%list), None), w')
    ∧ trace w' = (trace w ++ calls)%list
    ∧ execCalls calls = []
    ∧ DBManager w' = DBManager w.
Proof.
  revert analytics w results.
  induction shards as [| shardName shards IH]; intros analytics w results Hparse Hfound; cbn.
  { apply Forall2_nil_inv_l in Hfound as ->. exists w, []. cbn. rewrite !app_nil_r.
    by destruct analytics. }
  apply Forall_cons in Hparse as [Hint Hparse].
  destruct (shardNameToInt shardName) as [shardInt [err |]] eqn:Hint'; [done |].
  destruct (timeRangeToInt (TimeRange_ params)) as [startInt endInt] eqn:Hrange.
  cbn [List.filter] in Hfound. rewrite (inRange_continue _ _ _ _ _ Hint' Hrange) in Hfound.
  destruct ((shardInt <? startInt) || (shardInt >? endInt)); cbn [negb] in Hfound.
  { by apply IH. }
  apply Forall2_cons_inv_l in Hfound
    as (shardAnalytics & results' & (key & Hkey & Hfind) & Hfound & ->).
  unfold shardKey in Hkey. rewrite Hrange, Hint' in Hkey. cbn in Hkey. rewrite Hkey.
  unfold Query_shard, cacheGet. 
  pose proof (Get_result (cache w) key) as Hres.
  pose proof (Get_find (cache w) key) as Hsame.
  destruct (lru.Get (cache w) key) as [v c'] eqn:Hget. cbn in Hres, Hsame.
  rewrite Hfind in Hres. subst v.
  match goal with |- context [Query_shards _ _ _ _ ?a ?w1] =>
    destruct (IH a w1 results') as (w' & calls & Hq & Ht & Hexec & Hst) end; [done | |].
  { eapply Forall2_impl; [exact Hfound |].
    intros s a (key' & Hk1 & Hk2). exists key'. split; [done |]. cbn. by rewrite Hsame. }
  exists w', (EvCacheGet key (Some (VAnalytics shardAnalytics)) :: calls).
  rewrite Hq, Ht. cbn. rewrite <- !app_assoc. done.
Qed.

Lemma Insert_keeps_cache params analytic w :
  cache (Insert params analytic w).2 = cache w
  ∧ clock (Insert params analytic w).2 = clock w
  ∧ directory (Insert params analytic w).2 = directory w.
Proof.
  rewrite Insert_unfold. cbn zeta.
  destruct (GetDB _ (DBManager w)) as [[db |] st]; [| done].
  by destruct (query_Insert db analytic st) as [ok st'].
Qed.

(** C2 (as the code has it).  A request with ["cache"] stores the result
    of every shard it executes, the shard of the current month included.
    When it has returned without error, a record is inserted, and the
    same request is made again (the dataset lists the same shards, the
    clock shows the same instant, and the cache is large enough for the
    shards of the request, so that none of their entries was evicted),
    the second call returns the result of the first and calls no
    executor: it does not see the record. *)
Theorem cached_request_returns_snapshot params w0 r1 w1 insertParams analytic :
  cachedRequest (URL params) = true →
  Query params w0 = ((Some r1, None), w1) →
  (length (List.filter (inRange (TimeRange_ params)) (shardsOf params w0))
   ≤ lru.size (cache w0))%nat →
  let w2 := (Insert insertParams analytic w1).2 in
  DBExists (mkDBPath (DBName params) (directory w2)) (DBManager w2) = Some true →
  shardsOf params w2 = shardsOf params w0 →
  ∃ w3 calls,
    Query params w2 = ((Some r1, None), w3)
    ∧ trace w3 = (trace w2 ++ calls)%list
    ∧ execCalls calls = []
    ∧ DBManager w3 = DBManager w2.
Proof.
  intros Hcached Hq Hcap w2 Hexists Hshards.
  rewrite Query_unfold in Hq |- *. unfold datasetPath in Hq |- *. rewrite Hexists, Hshards.
  destruct (DBExists _ (DBManager w0)) as [[|] |]; [| done ..].
  rewrite Hcached in Hq.
  destruct (Query_shards_stores _ _ _ _ _ _ _ [] (lru.items (cache w0)) Hq)
    as (results & front' & back' & Hitems & _ & Hfound & Hparse & Hres & Hclock);
    [done | done |].
  destruct (Insert_keeps_cache insertParams analytic w1) as (Hc2 & Hk2 & Hd2).
  fold w2 in Hc2, Hk2, Hd2.
  destruct (Query_shards_all_hits params (mkDBPath (DBName params) (directory w2))
              (cachedRequest (URL params)) (shardsOf params w0) (mkAnalytics [])
              (afterListing params w2) results) as (w3 & calls & Hq3 & Ht3 & Hexec & Hst);
    [done | |].
  { eapply Forall2_impl; [exact Hfound |].
    intros s a (key & Hk & Hf). exists key. cbn in Hk |- *.
    rewrite Hk2, Hclock. split; [done |].
    rewrite Hc2, Hitems, find_app, Hf. done. }
  exists w3, ([EvDBExists (mkDBPath (DBName params) (directory w2));
               EvReadDir (DBPath_String (mkDBPath (DBName params) (directory w2)))] ++ calls)%list.
  rewrite Hq3. simplify_eq. cbn. split; [done |].
  rewrite Ht3. unfold afterListing, log. cbn. by rewrite <- !app_assoc.
Qed.

End DriverProperties.

(** ** The driver on the in-memory backend *)

(** The claim of the specification fails: the dataset exists, its
    directory cannot be read, and [Query] returns an empty result and no
    error. *)
Lemma unreadable_directory_reported_empty :
  DBExists (mkDBPath "site" "data") Mem.storeUnreadable = Some true
  ∧ ReadDir "data/site" Mem.storeUnreadable = None
  ∧ (Query Mem.plainQuery (Mem.world0 10 Mem.storeUnreadable)).1
    = (Some (mkAnalytics []), None).
Proof. repeat split; vm_compute; reflexivity. Qed.

Lemma listShards_unreadable_is_empty_witness :
  ReadDir "data/site" Mem.storeUnreadable = None
  ∧ DBExists (mkDBPath "site" "data") Mem.storeUnreadable = Some true
  ∧ (Query Mem.plainQuery (Mem.world0 10 Mem.storeUnreadable)).1
    = (Some (mkAnalytics []), None)
  ∧ (GroupBy Mem.plainQuery (Mem.world0 10 Mem.storeUnreadable)).1
    = (Some (mkAggregates []), None)
  ∧ (Series Mem.plainQuery (Mem.world0 10 Mem.storeUnreadable)).1
    = (Some (mkIntervals []), None).
Proof.
  split; [reflexivity |]. split; [reflexivity |].
  apply (listShards_unreadable_is_empty Mem.plainQuery (Mem.world0 10 Mem.storeUnreadable));
    reflexivity.
Defined.

(** The claim of the specification fails: the request carries
    [cache=true], the shard of the current month is among its shards,
    the record is inserted into that shard, and the second call returns
    what the first returned, without the record; the same request
    without ["cache"] returns it. *)
Lemma cached_request_misses_inserted_record :
  let w0 := Mem.world0 10 Mem.store0 in
  let w1 := (Query Mem.cachedQuery w0).2 in
  let w2 := (Insert Mem.cachedQuery Mem.october9 w1).2 in
  cachedRequest (URL Mem.cachedQuery) = true
  ∧ timeToShardName (clock w0) = "2026-10"
  ∧ List.filter (inRange (TimeRange_ Mem.cachedQuery)) (shardsOf Mem.cachedQuery w0)
    = ["2026-09"; "2026-10"]
  ∧ timeToShardName (Time_ Mem.october9) = "2026-10"
  ∧ (Insert Mem.cachedQuery Mem.october9 w1).1 = None
  ∧ (Query Mem.cachedQuery w0).1
    = (Some (mkAnalytics [Mem.visit (mkTime 2026 9 5) "home";
                          Mem.visit (mkTime 2026 10 2) "home"]), None)
  ∧ (Query Mem.cachedQuery w2).1 = (Query Mem.cachedQuery w0).1
  ∧ (Query Mem.plainQuery w2).1
    = (Some (mkAnalytics [Mem.visit (mkTime 2026 9 5) "home";
                          Mem.visit (mkTime 2026 10 2) "home";
                          Mem.october9]), None).
Proof. repeat split; vm_compute; reflexivity. Qed.

Lemma cached_request_returns_snapshot_witness :
  let w0 := Mem.world0 10 Mem.store0 in
  let w1 := (Query Mem.cachedQuery w0).2 in
  let w2 := (Insert Mem.cachedQuery Mem.october9 w1).2 in
  cachedRequest (URL Mem.cachedQuery) = true
  ∧ ∃ w3 calls,
      Query Mem.cachedQuery w2
      = ((Some (mkAnalytics [Mem.visit (mkTime 2026 9 5) "home";
                             Mem.visit (mkTime 2026 10 2) "home"]), None), w3)
      ∧ trace w3 = (trace w2 ++ calls)%list
      ∧ execCalls calls = []
      ∧ DBManager w3 = DBManager w2.
Proof.
  cbn zeta. split; [reflexivity |].
  apply (cached_request_returns_snapshot Mem.cachedQuery (Mem.world0 10 Mem.store0)
           (mkAnalytics [Mem.visit (mkTime 2026 9 5) "home";
                         Mem.visit (mkTime 2026 10 2) "home"])
           (Query Mem.cachedQuery (Mem.world0 10 Mem.store0)).2
           Mem.cachedQuery Mem.october9).
  - reflexivity.
  - vm_compute. reflexivity.
  - vm_compute. lia.
  - vm_compute. reflexivity.
  - vm_compute. reflexivity.
Defined.

Lemma Query_concatenates_shards_in_range_witness :
  let w := Mem.world0 10 Mem.store0 in
  let fromOctober := Some (mkTimeRange (mkTime 2026 10 1) time.zero) in
  let params := Mem.request "start=2026-10" fromOctober false in
  (Query params w).1 = (Some (mkAnalytics [Mem.visit (mkTime 2026 10 2) "home"]), None)
  ∧ ∃ blocks : list (list Event * Analytics),
      Forall2 (fun shardName b =>
                 QueryCalls params (mkDBPath "site" "data") Mem.oct2026 shardName b.1 b.2)
        ["2026-10"] blocks
      ∧ trace (Query params w).2
        = ([EvDBExists (mkDBPath "site" "data"); EvReadDir "data/site"]
           ++ concat (fst <$> blocks))%list
      ∧ Some (mkAnalytics [Mem.visit (mkTime 2026 10 2) "home"])
        = Some (mkAnalytics (concat ((fun b => AnalyticsList b.2) <$> blocks))).
Proof.
  cbn zeta. split; [vm_compute; reflexivity |].
  assert (Hq : Query (Mem.request "start=2026-10"
                        (Some (mkTimeRange (mkTime 2026 10 1) time.zero)) false)
                 (Mem.world0 10 Mem.store0)
               = ((Some (mkAnalytics [Mem.visit (mkTime 2026 10 2) "home"]), None),
                  (Query (Mem.request "start=2026-10"
                            (Some (mkTimeRange (mkTime 2026 10 1) time.zero)) false)
                     (Mem.world0 10 Mem.store0)).2))
    by (vm_compute; reflexivity).
  exact (Query_concatenates_shards_in_range _ _ _ _ Hq).
Defined.

Lemma error_discards_partial_results_witness :
  let w := Mem.world0 10 Mem.storeJunk in
  (Query Mem.plainQuery w).1.2 = Some (NumError "junk" ErrSyntax)
  ∧ (Query Mem.plainQuery w).1.1 = None
  ∧ (GroupBy Mem.plainQuery w).1.1 = None
  ∧ (Series Mem.plainQuery w).1.1 = None.
Proof.
  cbn zeta. split; [vm_compute; reflexivity |].
  pose proof (error_discards_partial_results Mem.plainQuery (Mem.world0 10 Mem.storeJunk))
    as (HQ & HG & HS).
  split; [| split].
  - apply (HQ _ (NumError "junk" ErrSyntax)
             (Query Mem.plainQuery (Mem.world0 10 Mem.storeJunk)).2).
    vm_compute. reflexivity.
  - apply (HG _ (NumError "junk" ErrSyntax)
             (GroupBy Mem.plainQuery (Mem.world0 10 Mem.storeJunk)).2).
    vm_compute. reflexivity.
  - apply (HS _ (NumError "junk" ErrSyntax)
             (Series Mem.plainQuery (Mem.world0 10 Mem.storeJunk)).2).
    vm_compute. reflexivity.
Defined.

(** The shard of September was executed before the listing reached the
    entry that is no label. *)
Example error_after_first_shard :
  execCalls (trace (Query Mem.plainQuery (Mem.world0 10 Mem.storeJunk)).2) = [CQuery None].
Proof. vm_compute. reflexivity. Qed.

(** [Series] on the shard of October: under the lock with the uniqueness
    flag, without any lock otherwise. *)
Example Series_unique_trace :
  let fromOctober := Some (mkTimeRange (mkTime 2026 10 1) time.zero) in
  let shardPath := mkDBPath "2026-10" "data/site" in
  trace (Series (Mem.request "" fromOctober true) (Mem.world0 10 Mem.store0)).2
  = [EvDBExists (mkDBPath "site" "data"); EvReadDir "data/site";
     EvCacheGet "/site?shard=202610" None; EvGetDB shardPath true;
     EvLock shardPath;
     EvExec shardPath (CSeriesUniq 3600 fromOctober)
       (Some (VIntervals (mkIntervals [mkInterval (mkTime 2026 10 2) 1 1])));
     EvUnlock shardPath].
Proof. vm_compute. reflexivity. Qed.

Example Series_plain_trace :
  let fromOctober := Some (mkTimeRange (mkTime 2026 10 1) time.zero) in
  let shardPath := mkDBPath "2026-10" "data/site" in
  trace (Series (Mem.request "" fromOctober false) (Mem.world0 10 Mem.store0)).2
  = [EvDBExists (mkDBPath "site" "data"); EvReadDir "data/site";
     EvCacheGet "/site?shard=202610" None; EvGetDB shardPath true;
     EvExec shardPath (CSeries 3600 fromOctober)
       (Some (VIntervals (mkIntervals [mkInterval (mkTime 2026 10 2) 1 0])))].
Proof. vm_compute. reflexivity. Qed.

(** The two requests above go through the shard of October as the
    calls of [Series] are laid down: the lookup misses, the connection is
    opened, and the executor is called, under the lock for the first and
    without it for the second. *)
Lemma Series_locks_on_unique_path_only_witness :
  let fromOctober := Some (mkTimeRange (mkTime 2026 10 1) time.zero) in
  let dbPath := mkDBPath "site" "data" in
  let w := Mem.world0 10 Mem.store0 in
  ∀ uniq,
    ∃ calls blocks,
      trace (Series (Mem.request "" fromOctober uniq) w).2 = calls
      ∧ SeriesLocking (Mem.request "" fromOctober uniq) calls
      ∧ Forall2 (fun shardName b =>
                   SeriesCalls (Mem.request "" fromOctober uniq) dbPath Mem.oct2026
                     shardName b.1 b.2)
          ["2026-10"] blocks
      ∧ calls = ([EvDBExists dbPath; EvReadDir "data/site"] ++ concat (fst <$> blocks))%list.
Proof.
  intros fromOctober dbPath w uniq.
  destruct (Series_locks_on_unique_path_only (Mem.request "" fromOctober uniq) w)
    as (calls & Ht & Hlocking & visited & blocks & _ & Hblocks & Hcalls & Hall).
  assert (Hok : (Series (Mem.request "" fromOctober uniq) w).1.2 = None)
    by (destruct uniq; vm_compute; reflexivity).
  apply Hall in Hok. vm_compute in Hok. subst visited.
  exists calls, blocks. split; [exact Ht |]. split; [exact Hlocking |].
  split; [exact Hblocks | exact Hcalls].
Defined.

(** The record of October 9, 2026 goes to the shard ["2026-10"] of the
    dataset, under its lock. *)
Lemma Insert_routes_by_record_time_witness :
  let w := Mem.world0 10 Mem.store0 in
  let shardPath := mkDBPath "2026-10" "data/site" in
  timeToShardName (Time_ Mem.october9) = "2026-10"
  ∧ shardNameToInt "2026-10" = (202610, None)
  ∧ (Insert Mem.plainQuery Mem.october9 w).1 = None
  ∧ trace (Insert Mem.plainQuery Mem.october9 w).2
    = [EvGetDB shardPath true; EvLock shardPath;
       EvInsert shardPath Mem.october9 true; EvUnlock shardPath]
  ∧ (Insert (Mem.request "cache=true" None true) Mem.october9 w).1 = None.
Proof.
  intros w shardPath.
  destruct (Insert_routes_by_record_time Mem.plainQuery Mem.october9 w)
    as (Hlabel & Hparams & _ & Herr & Htrace & _).
  destruct Hlabel as [Hname Hint]; [cbn; lia | cbn; lia |].
  split; [exact Hname |]. split; [exact Hint |].
  split; [exact Herr |]. split; [exact Htrace |].
  exact (f_equal fst (Hparams (url.mkURL "/site" "cache=true" false "") None "path" 3600 true
                        (cache w))).
Defined.

(** [Insert] into a dataset that has no directory creates its shard. *)
Example Insert_into_new_dataset :
  let params := mkParams "blog" (url.mkURL "/blog" "" false "") None "" 0 false in
  let w := Mem.world0 10 Mem.store0 in
  DBExists (mkDBPath "blog" "data") (DBManager w) = Some false
  ∧ (Insert params Mem.october9 w).1 = None
  ∧ trace (Insert params Mem.october9 w).2
    = [EvGetDB (mkDBPath "2026-10" "data/blog") true; EvLock (mkDBPath "2026-10" "data/blog");
       EvInsert (mkDBPath "2026-10" "data/blog") Mem.october9 true;
       EvUnlock (mkDBPath "2026-10" "data/blog")]
  ∧ (Query params (Insert params Mem.october9 w).2).1 = (Some (mkAnalytics [Mem.october9]), None).
Proof. repeat split; vm_compute; reflexivity. Qed.

(** * Further properties *)

(** ** Shard labels and time ranges *)

Section Labels.

Implicit Types (s a b : string) (t : Time).

#[local] Arguments String.append !s1 s2 /.

Lemma string_app_empty_r s : s +:+ "" = s.
Proof. induction s as [| c s IH]; cbn; congruence. Qed.

Lemma string_app_assoc a b s : (a +:+ b) +:+ s = a +:+ (b +:+ s).
Proof. induction a as [| c a IH]; cbn; congruence. Qed.

Lemma Split_nonempty s sep : strings.Split s sep ≠ [].
Proof.
  destruct s as [| c r]; cbn; [done |].
  destruct (Ascii.eqb c sep); [done |]. by destruct (strings.Split r sep).
Qed.

Lemma Join_empty_cons a (parts : list string) :
  strings.Join (a :: parts) "" = a +:+ strings.Join parts "".
Proof.
  destruct parts as [| b parts]; [| done].
  cbn [strings.Join]. by rewrite string_app_empty_r.
Qed.

(** Splitting on a character and joining with nothing removes it. *)
Lemma Join_Split_dropChar s sep :
  strings.Join (strings.Split s sep) "" = dropChar sep s.
Proof.
  induction s as [| c r IH]; [done |].
  cbn [strings.Split dropChar]. destruct (Ascii.eqb c sep).
  - by rewrite Join_empty_cons.
  - pose proof (Split_nonempty r sep) as Hne.
    destruct (strings.Split r sep) as [| h parts]; [done |].
    rewrite Join_empty_cons in IH |- *. cbn. by rewrite IH.
Qed.

Lemma dropChar_app sep a b : dropChar sep (a +:+ b) = dropChar sep a +:+ dropChar sep b.
Proof.
  induction a as [| c a IH]; cbn; [done |].
  destruct (Ascii.eqb c sep); cbn; by rewrite IH.
Qed.

Lemma dropChar_clean sep s : url.contains (dropChar sep s) sep = false.
Proof.
  induction s as [| c r IH]; cbn; [done |].
  destruct (Ascii.eqb c sep) eqn:Hc; cbn; [done |]. by rewrite Hc.
Qed.

Lemma digits_bounds s acc n :
  0 ≤ acc → strconv.digits s acc = Some n →
  0 ≤ n < (acc + 1) * 10 ^ Z.of_nat (String.length s).
Proof.
  revert acc. induction s as [| c r IH]; intros acc Hacc; cbn [strconv.digits String.length].
  - intros; simplify_eq. lia.
  - unfold strconv.digit_of.
    destruct ((48 <=? Z.of_N (N_of_ascii c)) && (Z.of_N (N_of_ascii c) <=? 57)) eqn:Hd;
      [| done].
    apply andb_true_iff in Hd as [H1%Z.leb_le H2%Z.leb_le].
    intros Hn. apply IH in Hn; [| lia].
    rewrite Nat2Z.inj_succ, Z.pow_succ_r by lia.
    pose proof (Z.pow_pos_nonneg 10 (Z.of_nat (String.length r))). nia.
Qed.

Lemma parseDigits_lower_bound s acc n kind :
  0 ≤ acc → strconv.parseDigits s acc = (n, kind) → 0 ≤ n.
Proof.
  revert acc. induction s as [| c r IH]; intros acc Hacc; cbn [strconv.parseDigits].
  - intros; simplify_eq. done.
  - unfold strconv.digit_of.
    destruct ((48 <=? Z.of_N (N_of_ascii c)) && (Z.of_N (N_of_ascii c) <=? 57)) eqn:Hd;
      [| by intros; simplify_eq].
    apply andb_true_iff in Hd as [H1%Z.leb_le H2%Z.leb_le].
    destruct (_ <=? acc); [by intros; simplify_eq |].
    destruct (_ <? _); [by intros; simplify_eq |].
    apply IH. lia.
Qed.

Lemma sign_of_Atoi (s : string) :
  match s with
  | String "-" r => (true, r)
  | String "+" r => (false, r)
  | _ => (false, s)
  end
  = match s with
    | EmptyString => (false, s)
    | String c r =>
        if Ascii.eqb c "-" then (true, r)
        else if Ascii.eqb c "+" then (false, r) else (false, s)
    end.
Proof.
  destruct s as [| c r]; [done |]. by destruct c as [[] [] [] [] [] [] [] []].
Qed.

(** What [strconv.Atoi] reads of a string that does not start with a
    minus sign is not negative and fits [int]. *)
Lemma Atoi_unsigned c r n :
  Ascii.eqb c "-" = false →
  strconv.Atoi (String c r) = (n, None) → 0 ≤ n ≤ strconv.maxInt.
Proof.
  intros Hc. remember (String c r) as s eqn:Hs.
  unfold strconv.Atoi, strconv.ParseInt.
  rewrite !sign_of_Atoi. subst s. rewrite Hc.
  destruct (_ && _) eqn:Hlen.
  - apply andb_true_iff in Hlen as [_ Hlen%Z.ltb_lt]. cbn [String.length] in Hlen.
    assert (Hfast : ∀ body, (String.length body ≤ S (String.length r))%nat →
              match body with
              | EmptyString => (0, Some (NumError (String c r) ErrSyntax))
              | _ =>
                  match strconv.digits body 0 with
                  | None => (0, Some (NumError (String c r) ErrSyntax))
                  | Some un => (un, None)
                  end
              end = (n, None) → 0 ≤ n ≤ strconv.maxInt).
    { intros body Hbody Hres. destruct body as [| c0 r0]; [done |].
      destruct (strconv.digits (String c0 r0) 0) as [un |] eqn:Hd; [| done].
      simplify_eq. apply digits_bounds in Hd; [| done].
      assert (10 ^ Z.of_nat (String.length (String c0 r0)) ≤ 10 ^ 18)
        by (apply Z.pow_le_mono_r; lia).
      unfold strconv.maxInt. lia. }
    destruct (Ascii.eqb c "+");
      [apply (Hfast r) | apply (Hfast (String c r))]; cbn [String.length]; lia.
  - assert (Hslow : ∀ body,
              match strconv.ParseUint body with
              | (_, Some ErrSyntax) => (0, Some (NumError (String c r) ErrSyntax))
              | (un, _) =>
                  if negb false && (2 ^ 63 <=? un)
                  then (2 ^ 63 - 1, Some (NumError (String c r) ErrRange))
                  else if false && (2 ^ 63 <? un)
                       then (- 2 ^ 63, Some (NumError (String c r) ErrRange))
                       else (un, None)
              end = (n, None) → 0 ≤ n ≤ strconv.maxInt).
    { intros body Hres.
      destruct (strconv.ParseUint body) as [un kind] eqn:Hun.
      assert (0 ≤ un).
      { unfold strconv.ParseUint in Hun. destruct body; [by simplify_eq |].
        by eapply parseDigits_lower_bound; [| exact Hun]. }
      cbn [negb andb] in Hres.
      assert (Hn : (if 2 ^ 63 <=? un
                    then (2 ^ 63 - 1, Some (NumError (String c r) ErrRange))
                    else (un, None)) = (n, None)).
      { by destruct kind as [[] |]. }
      destruct (2 ^ 63 <=? un) eqn:Hmax; [done |].
      simplify_eq. apply Z.leb_gt in Hmax. unfold strconv.maxInt. lia. }
    destruct (Ascii.eqb c "+"); [apply (Hslow r) | apply (Hslow (String c r))].
Qed.

Lemma Atoi_error s n err :
  strconv.Atoi s = (n, Some err) → ∃ num kind, err = NumError num kind.
Proof.
  unfold strconv.Atoi, strconv.ParseInt.
  repeat case_match; intros; simplify_eq; eauto.
Qed.

(** X2.  The dashes of a shard name play no part in its integer: a name
    with a dash more, wherever it stands, has the same integer or the
    same error. *)
Theorem shardNameToInt_ignores_dashes a b :
  shardNameToInt (a +:+ "-" +:+ b) = shardNameToInt (a +:+ b).
Proof.
  unfold shardNameToInt. rewrite !Join_Split_dropChar, !dropChar_app. done.
Qed.

(** X3.  The integer of a shard name that parses is never negative and
    fits Go's [int]: the minus signs are removed with the dashes before
    [strconv.Atoi] reads the name. *)
Theorem shardNameToInt_is_natural s n :
  shardNameToInt s = (n, None) → 0 ≤ n ≤ strconv.maxInt.
Proof.
  unfold shardNameToInt. rewrite Join_Split_dropChar.
  pose proof (dropChar_clean "-" s) as Hclean.
  destruct (dropChar "-" s) as [| c r] eqn:Hs; [done |].
  apply Atoi_unsigned.
  cbn in Hclean. by apply orb_false_iff in Hclean as [? _].
Qed.

Lemma plain_formats_read_back :
  forallb (fun y => forallb (plainReadsBack y) (seqZ 1 12)) (seqZ 0 10000) = true.
Proof. vm_compute. reflexivity. Qed.

Lemma Atoi_Format_plain t :
  0 ≤ t_year t ≤ 9999 → 1 ≤ t_month t ≤ 12 →
  strconv.Atoi (time.Format_plain t) = (t_year t * 100 + t_month t, None).
Proof.
  intros Hy Hm. pose proof plain_formats_read_back as Hall.
  rewrite forallb_forall in Hall.
  specialize (Hall (t_year t)). rewrite forallb_forall in Hall.
  assert (Hok : plainReadsBack (t_year t) (t_month t) = true).
  { apply Hall; apply list_elem_of_In, elem_of_seqZ; lia. }
  unfold plainReadsBack in Hok.
  change (time.Format_plain t) with (time.Format_plain (mkTime (t_year t) (t_month t) 0)).
  destruct (strconv.Atoi _) as [n [err |]]; [done |].
  apply Z.eqb_eq in Hok. by subst.
Qed.

(** X1.  The name of the shard of a time of the years 0 to 9999 reads
    back as the integer YYYYMM of its month, and the integers of two such
    shards are ordered as their months are. *)
Theorem shard_integers_follow_months t1 t2 :
  0 ≤ t_year t1 ≤ 9999 → 1 ≤ t_month t1 ≤ 12 →
  0 ≤ t_year t2 ≤ 9999 → 1 ≤ t_month t2 ≤ 12 →
  shardNameToInt (timeToShardName t1) = (t_year t1 * 100 + t_month t1, None)
  ∧ shardNameToInt (timeToShardName t2) = (t_year t2 * 100 + t_month t2, None)
  ∧ (monthBefore t1 t2
     ↔ (shardNameToInt (timeToShardName t1)).1 < (shardNameToInt (timeToShardName t2)).1).
Proof.
  intros Hy1 Hm1 Hy2 Hm2.
  rewrite !shard_label_is_YYYYMM by done. cbn [fst].
  split; [done |]. split; [done |]. unfold monthBefore. lia.
Qed.

(** X4.  [timeRangeToInt] gives the bounds 0 and 999999 to a request
    without time range, and to a time range each bound on its own: the
    default when the bound is the zero instant, in whatever location it
    is shown, the integer YYYYMM of the month it shows otherwise (years
    0 to 9999). *)
Theorem timeRangeToInt_bounds (tr : TimeRange) :
  0 ≤ t_year (Start tr) ≤ 9999 → 1 ≤ t_month (Start tr) ≤ 12 →
  0 ≤ t_year (End_ tr) ≤ 9999 → 1 ≤ t_month (End_ tr) ≤ 12 →
  timeRangeToInt None = (0, 999999)
  ∧ timeRangeToInt (Some tr)
    = (if time.Equal (Start tr) time.zero then 0
       else t_year (Start tr) * 100 + t_month (Start tr),
       if time.Equal (End_ tr) time.zero then 999999
       else t_year (End_ tr) * 100 + t_month (End_ tr)).
Proof.
  intros Hy1 Hm1 Hy2 Hm2. split; [done |].
  unfold timeRangeToInt. rewrite !Atoi_Format_plain by done.
  by destruct (time.Equal (Start tr) time.zero), (time.Equal (End_ tr) time.zero).
Qed.

End Labels.

Lemma shardNameToInt_is_natural_witness :
  shardNameToInt "-2015-12" = (201512, None) ∧ 0 ≤ 201512 ≤ strconv.maxInt.
Proof.
  split; [reflexivity |].
  apply (shardNameToInt_is_natural "-2015-12" 201512). reflexivity.
Defined.

Lemma shard_integers_follow_months_witness :
  monthBefore (mkTime 2015 12 7) (mkTime 2016 1 3)
  ↔ (shardNameToInt (timeToShardName (mkTime 2015 12 7))).1
    < (shardNameToInt (timeToShardName (mkTime 2016 1 3))).1.
Proof.
  apply (shard_integers_follow_months (mkTime 2015 12 7) (mkTime 2016 1 3)); cbn; lia.
Defined.

(** The zero instant shown one hour west of UTC prints as December of
    year 0 and is the zero time all the same; an instant one hour after
    it prints as January of year 1 and is not. *)
Example zero_instant_in_another_location :
  time.Equal (mkTimeIn 0 12 0) time.zero = true
  ∧ timeRangeToInt (Some (mkTimeRange (mkTimeIn 0 12 0) (mkTimeIn 0 12 0))) = (0, 999999)
  ∧ timeRangeToInt (Some (mkTimeRange (mkTime 1 1 3600) (mkTime 1 1 3600))) = (101, 101).
Proof. repeat split; vm_compute; reflexivity. Qed.

(** [strconv.Atoi] at its borders: the bounds of [int], a number that
    overflows before a byte that is no digit is reached, and a byte that
    is no digit before any overflow. *)
Example Atoi_borders :
  strconv.Atoi "9223372036854775807" = (strconv.maxInt, None)
  ∧ strconv.Atoi "-9223372036854775808" = (strconv.minInt, None)
  ∧ strconv.Atoi "9223372036854775808"
    = (strconv.maxInt, Some (NumError "9223372036854775808" ErrRange))
  ∧ strconv.Atoi "99999999999999999999x"
    = (strconv.maxInt, Some (NumError "99999999999999999999x" ErrRange))
  ∧ strconv.Atoi "-99999999999999999999x"
    = (strconv.minInt, Some (NumError "-99999999999999999999x" ErrRange))
  ∧ strconv.Atoi "1234567890123456789x"
    = (0, Some (NumError "1234567890123456789x" ErrSyntax))
  ∧ strconv.Atoi "12x" = (0, Some (NumError "12x" ErrSyntax))
  ∧ strconv.Atoi "+" = (0, Some (NumError "+" ErrSyntax))
  ∧ strconv.Atoi "" = (0, Some (NumError "" ErrSyntax)).
Proof. repeat split; vm_compute; reflexivity. Qed.

Lemma timeRangeToInt_bounds_witness :
  timeRangeToInt (Some (mkTimeRange (mkTime 2015 12 1) time.zero)) = (201512, 999999).
Proof.
  apply (timeRangeToInt_bounds (mkTimeRange (mkTime 2015 12 1) time.zero)); cbn; lia.
Defined.

(** ** Query strings: what [Encode] writes, [ParseQuery] reads *)

Section QueryStrings.

Implicit Types (s a b k x : string) (c sep : ascii) (v m : url.Values).

#[local] Arguments String.append !s1 s2 /.
#[local] Arguments encodedPair : simpl never.
#[local] Arguments url.parsePair : simpl never.

Lemma string_app_nil_r s : s +:+ "" = s.
Proof. induction s as [| c s IH]; cbn; congruence. Qed.

Lemma string_app_assoc' a b s : (a +:+ b) +:+ s = a +:+ (b +:+ s).
Proof. induction a as [| c a IH]; cbn; congruence. Qed.

Lemma string_app_length a b :
  String.length (a +:+ b) = (String.length a + String.length b)%nat.
Proof. induction a as [| c a IH]; cbn; [done | by rewrite IH]. Qed.

Lemma string_app_inv_tail a b s : a +:+ s = b +:+ s → a = b.
Proof.
  revert b. induction a as [| c a IH]; intros [| d b] H; cbn in H.
  - done.
  - apply (f_equal String.length) in H. cbn in H. rewrite string_app_length in H. lia.
  - apply (f_equal String.length) in H. cbn in H. rewrite string_app_length in H. lia.
  - simplify_eq. f_equal. by apply IH.
Qed.

Lemma contains_app a b c : url.contains (a +:+ b) c = url.contains a c || url.contains b c.
Proof.
  induction a as [| d a IH]; cbn; [done |]. by rewrite IH, orb_assoc.
Qed.

Lemma QueryEscape_cons c s : url.QueryEscape (String c s) = escapedChar c +:+ url.QueryEscape s.
Proof.
  unfold escapedChar. cbn.
  destruct (Ascii.eqb c " "); [done |]. by destruct (url.shouldEscape c).
Qed.

(** Each character reads back from what is written for it, and what is
    written holds none of the separators of a query string. *)
Lemma escapedChar_reads_back c s :
  url.QueryUnescape (escapedChar c +:+ s) = String c <$> url.QueryUnescape s.
Proof. destruct c as [[] [] [] [] [] [] [] []]; reflexivity. Qed.

Lemma escapedChar_clean c :
  url.contains (escapedChar c) "&" = false
  ∧ url.contains (escapedChar c) "=" = false
  ∧ url.contains (escapedChar c) ";" = false.
Proof. destruct c as [[] [] [] [] [] [] [] []]; repeat split; reflexivity. Qed.

Lemma QueryUnescape_QueryEscape s : url.QueryUnescape (url.QueryEscape s) = Some s.
Proof.
  induction s as [| c s IH]; [done |].
  by rewrite QueryEscape_cons, escapedChar_reads_back, IH.
Qed.

Lemma QueryEscape_clean s :
  url.contains (url.QueryEscape s) "&" = false
  ∧ url.contains (url.QueryEscape s) "=" = false
  ∧ url.contains (url.QueryEscape s) ";" = false.
Proof.
  induction s as [| c s (IH1 & IH2 & IH3)]; [done |].
  destruct (escapedChar_clean c) as (H1 & H2 & H3).
  by rewrite QueryEscape_cons, !contains_app, IH1, IH2, IH3, H1, H2, H3.
Qed.

Lemma Split_clean a sep : url.contains a sep = false → strings.Split a sep = [a].
Proof.
  induction a as [| c a IH]; cbn; [done |].
  destruct (Ascii.eqb c sep); cbn; [done |]. intros H. by rewrite IH.
Qed.

Lemma Split_app_sep a b sep :
  url.contains a sep = false →
  strings.Split (a +:+ String sep b) sep = a :: strings.Split b sep.
Proof.
  induction a as [| c a IH]; cbn.
  - intros _. by rewrite Ascii.eqb_refl.
  - destruct (Ascii.eqb c sep); cbn; [done |]. intros H. by rewrite IH.
Qed.

Lemma Split_Join (parts : list string) sep :
  parts ≠ [] →
  Forall (fun p => url.contains p sep = false) parts →
  strings.Split (strings.Join parts (String sep "")) sep = parts.
Proof.
  intros Hne Hclean. induction Hclean as [| p parts Hp Hparts IH]; [done |].
  destruct parts as [| q parts].
  - cbn. by apply Split_clean.
  - change (strings.Join (p :: q :: parts) (String sep ""))
      with (p +:+ String sep (strings.Join (q :: parts) (String sep ""))).
    rewrite Split_app_sep by done. f_equal. by apply IH.
Qed.

Lemma Cut_app k x sep :
  url.contains k sep = false → url.Cut (k +:+ String sep x) sep = (k, x).
Proof.
  induction k as [| c k IH]; cbn.
  - intros _. by rewrite Ascii.eqb_refl.
  - destruct (Ascii.eqb c sep); cbn; [done |]. intros H. by rewrite IH.
Qed.

(** An encoded pair is read as the [Add] of its key and value. *)
Lemma parsePair_encodedPair m k x : url.parsePair m (encodedPair k x) = url.Add m k x.
Proof.
  unfold url.parsePair, encodedPair.
  destruct (QueryEscape_clean k) as (_ & Hk & Hk').
  destruct (QueryEscape_clean x) as (_ & _ & Hx').
  rewrite contains_app, Hk'. cbn [url.contains orb]. rewrite contains_app. cbn.
  rewrite Hx'. cbn.
  rewrite (Cut_app _ _ _ Hk), !QueryUnescape_QueryEscape.
  by destruct (url.QueryEscape k +:+ String "=" (url.QueryEscape x)) eqn:Hpair;
    [destruct (url.QueryEscape k); cbn in Hpair |].
Qed.

Lemma encodedPair_clean k x : url.contains (encodedPair k x) "&" = false.
Proof.
  unfold encodedPair. destruct (QueryEscape_clean k) as (Hk & _ & _).
  destruct (QueryEscape_clean x) as (Hx & _ & _).
  rewrite contains_app, Hk. cbn. done.
Qed.

Lemma ParseQuery_fold s : url.ParseQuery s = foldl url.parsePair ∅ (strings.Split s "&").
Proof. by destruct s. Qed.

Lemma ParseQuery_encoded (pairs : list (string * string)) :
  url.ParseQuery (strings.Join ((fun kx => encodedPair kx.1 kx.2) <$> pairs) "&")
  = foldl (fun m kx => url.Add m kx.1 kx.2) ∅ pairs.
Proof.
  rewrite ParseQuery_fold.
  destruct pairs as [| kx pairs]; [done |].
  rewrite Split_Join.
  - generalize (∅ : url.Values). generalize (kx :: pairs). clear.
    intros l. induction l as [| [k x] l IH]; intros m; cbn; [done |].
    by rewrite parsePair_encodedPair, IH.
  - done.
  - apply Forall_fmap, Forall_forall. intros [k x] _. apply encodedPair_clean.
Qed.

Lemma insertKey_perm k (l : list string) : url.insertKey k l ≡ₚ k :: l.
Proof.
  induction l as [| h l IH]; cbn; [done |].
  destruct (String.leb k h); [done |]. rewrite IH. apply perm_swap.
Qed.

Lemma sortKeys_perm (l : list string) : url.sortKeys l ≡ₚ l.
Proof.
  unfold url.sortKeys. induction l as [| h l IH]; cbn; [done |].
  by rewrite insertKey_perm, IH.
Qed.

Lemma Encode_pairs v :
  url.Encode v
  = strings.Join ((fun kx => encodedPair kx.1 kx.2)
                    <$> keyValuePairs v (url.sortKeys ((map_to_list v).*1))) "&".
Proof.
  unfold url.Encode, keyValuePairs. f_equal.
  induction (url.sortKeys (map_to_list v).*1) as [| k keys IH]; [done |].
  cbn [flat_map]. rewrite fmap_app, <- IH. f_equal.
  by rewrite <- list_fmap_compose.
Qed.

Lemma fold_Add_lookup m k (vs : list string) k' :
  foldl (fun m x => url.Add m k x) m vs !! k'
  = if decide (k' = k)
    then match vs with [] => m !! k | _ => Some (default [] (m !! k) ++ vs)%list end
    else m !! k'.
Proof.
  revert m. induction vs as [| x vs IH]; intros m; cbn [foldl].
  { by destruct (decide (k' = k)) as [-> |]. }
  rewrite IH. unfold url.Add.
  destruct (decide (k' = k)) as [-> | Hne]; [| by rewrite lookup_insert_ne].
  rewrite lookup_insert_eq. cbn. destruct vs; [done |]. by rewrite <- app_assoc.
Qed.

Lemma fold_pairs_lookup v m (keys : list string) k' :
  noEmptyList v → NoDup keys → (∀ k, k ∈ keys → m !! k = None) →
  foldl (fun m kx => url.Add m kx.1 kx.2) m (keyValuePairs v keys) !! k'
  = if decide (k' ∈ keys) then v !! k' else m !! k'.
Proof.
  intros Hv Hnd. revert m. induction Hnd as [| k keys Hk Hnd IH]; intros m Hm.
  { cbn. by rewrite decide_False by apply not_elem_of_nil. }
  unfold keyValuePairs. cbn [flat_map]. fold (keyValuePairs v keys).
  rewrite foldl_app, foldl_fmap. cbn [fst snd].
  rewrite IH.
  2: { intros k2 Hk2. rewrite fold_Add_lookup.
       rewrite decide_False by (intros ->; done). apply Hm. by right. }
  rewrite fold_Add_lookup.
  destruct (decide (k' ∈ keys)) as [Hin | Hnin].
  { by rewrite decide_True by (by right). }
  destruct (decide (k' = k)) as [-> | Hne].
  - rewrite decide_True by (by left). rewrite (Hm k) by (by left).
    destruct (v !! k) as [vs |] eqn:Hvk; cbn; [| done].
    destruct vs; [by destruct (Hv k) | done].
  - rewrite decide_False; [done |]. by intros [-> | ?]%elem_of_cons.
Qed.

(** What [Encode] writes, [ParseQuery] reads back. *)
Lemma ParseQuery_Encode v : noEmptyList v → url.ParseQuery (url.Encode v) = v.
Proof.
  intros Hv. rewrite Encode_pairs, ParseQuery_encoded.
  apply map_eq. intros k'.
  assert (Hperm := sortKeys_perm ((map_to_list v).*1)).
  rewrite fold_pairs_lookup; [| done | | done].
  2: { rewrite Hperm. apply NoDup_fst_map_to_list. }
  destruct (decide (k' ∈ _)) as [Hin | Hnin]; [done |].
  rewrite lookup_empty. symmetry. apply eq_None_not_Some. intros [vs Hvs].
  apply Hnin. rewrite Hperm. apply list_elem_of_fmap. exists (k', vs).
  split; [done |]. by apply elem_of_map_to_list.
Qed.

Lemma noEmptyList_Add m k x : noEmptyList m → noEmptyList (url.Add m k x).
Proof.
  intros Hm k'. unfold url.Add. destruct (decide (k = k')) as [-> | Hne].
  - rewrite lookup_insert_eq. intros [= H]. by destruct (default [] (m !! k')).
  - rewrite lookup_insert_ne by done. apply Hm.
Qed.

Lemma noEmptyList_Del m k : noEmptyList m → noEmptyList (url.Del m k).
Proof.
  intros Hm k'. unfold url.Del. destruct (decide (k = k')) as [-> | Hne].
  - by rewrite lookup_delete_eq.
  - rewrite lookup_delete_ne by done. apply Hm.
Qed.

Lemma noEmptyList_ParseQuery s : noEmptyList (url.ParseQuery s).
Proof.
  rewrite ParseQuery_fold.
  assert (He : noEmptyList (∅ : url.Values)) by (intros k; by rewrite lookup_empty).
  revert He. generalize (∅ : url.Values).
  induction (strings.Split s "&") as [| pair l IH]; intros m Hm; cbn [foldl]; [done |].
  apply IH. unfold url.parsePair.
  destruct (url.contains pair ";"); [done |]. destruct pair as [| c r]; [done |].
  destruct (url.Cut (String c r) "=") as [key value].
  destruct (url.QueryUnescape key), (url.QueryUnescape value); try done.
  by apply noEmptyList_Add.
Qed.

Lemma Itoa_inj (n1 n2 : Z) : strconv.Itoa n1 = strconv.Itoa n2 → n1 = n2.
Proof.
  unfold strconv.Itoa. intros H. apply DecimalZ.to_int_inj.
  assert (Hnn : ∀ z, Z.to_int z ≠ Decimal.Pos Decimal.Nil
                     ∧ Z.to_int z ≠ Decimal.Neg Decimal.Nil).
  { intros [| q | q]; cbn; (split; [| try done]); try done;
      intros [= Hq]; by apply DecimalPos.Unsigned.to_uint_nonnil in Hq. }
  apply (f_equal NilZero.int_of_string) in H.
  rewrite !NilZero.isi in H by apply Hnn. by simplify_eq.
Qed.

End QueryStrings.

(** ** The cache key, continued *)

Section CacheKeyMore.

Implicit Types (now : Time) (uRL : url.URL).

#[local] Arguments String.append !s1 s2 /.

Lemma cacheQueryParams_lookups now uRL shardName startMonth endMonth currentMonth :
  shardNameToInt (timeToShardName now) = (currentMonth, None) →
  let qp := (cacheQueryParams now uRL shardName startMonth endMonth).1 in
  qp !! "start" = (if startMonth <? shardName then None else url.Query uRL !! "start")
  ∧ qp !! "end" = (if endMonth >? shardName then None else url.Query uRL !! "end")
  ∧ qp !! "cache" = (if shardName <? currentMonth then None else url.Query uRL !! "cache")
  ∧ qp !! "shard"
    = Some (default [] (url.Query uRL !! "shard") ++ [strconv.Itoa shardName])%list
  ∧ ∀ key, key ∉ ["start"; "end"; "cache"; "shard"] → qp !! key = url.Query uRL !! key.
Proof.
  intros Hnow. cbn zeta. rewrite (cacheQueryParams_ok _ _ _ _ _ _ Hnow).
  unfold url.Add, url.Del. cbn [fst].
  repeat split.
  - rewrite lookup_insert_ne by done.
    destruct (shardName <? currentMonth), (endMonth >? shardName),
      (startMonth <? shardName);
      by rewrite ?lookup_delete_ne, ?lookup_delete_eq by done.
  - rewrite lookup_insert_ne by done.
    destruct (shardName <? currentMonth), (endMonth >? shardName),
      (startMonth <? shardName);
      by rewrite ?(lookup_delete_ne _ "cache"), ?lookup_delete_eq,
           ?(lookup_delete_ne _ "start") by done.
  - rewrite lookup_insert_ne by done.
    destruct (shardName <? currentMonth), (endMonth >? shardName),
      (startMonth <? shardName);
      by rewrite ?lookup_delete_eq, ?lookup_delete_ne by done.
  - rewrite lookup_insert_eq. do 3 f_equal.
    destruct (shardName <? currentMonth), (endMonth >? shardName),
      (startMonth <? shardName);
      by rewrite ?lookup_delete_ne by done.
  - intros key Hkey.
    assert (key ≠ "start" ∧ key ≠ "end" ∧ key ≠ "cache" ∧ key ≠ "shard")
      as (H1 & H2 & H3 & H4).
    { repeat split; intros ->; apply Hkey; set_solver. }
    rewrite lookup_insert_ne by done.
    destruct (shardName <? currentMonth), (endMonth >? shardName),
      (startMonth <? shardName);
      by rewrite ?lookup_delete_ne by done.
Qed.

Lemma cacheQueryParams_noEmptyList now uRL shardName startMonth endMonth currentMonth :
  shardNameToInt (timeToShardName now) = (currentMonth, None) →
  noEmptyList (cacheQueryParams now uRL shardName startMonth endMonth).1.
Proof.
  intros Hnow. rewrite (cacheQueryParams_ok _ _ _ _ _ _ Hnow). cbn [fst].
  apply noEmptyList_Add.
  pose proof (noEmptyList_ParseQuery (url.RawQuery uRL)) as Hq. fold (url.Query uRL) in Hq.
  destruct (shardName <? currentMonth), (endMonth >? shardName),
    (startMonth <? shardName); cbn zeta; auto using noEmptyList_Del.
Qed.

Lemma formatURLForCache_key now uRL shardName startMonth endMonth currentMonth :
  shardNameToInt (timeToShardName now) = (currentMonth, None) →
  formatURLForCache now uRL shardName startMonth endMonth
  = (url.String_
       (url.setRawQuery uRL
          (url.Encode (cacheQueryParams now uRL shardName startMonth endMonth).1)), None).
Proof.
  intros Hnow. unfold formatURLForCache.
  by rewrite (cacheQueryParams_ok _ _ _ _ _ _ Hnow).
Qed.

(** Two URLs that print alike and agree on all but their query have the
    same query. *)
Lemma String_setRawQuery_inj (u1 u2 : url.URL) (q1 q2 : string) :
  url.url_head u1 = url.url_head u2 →
  url.ForceQuery u1 = url.ForceQuery u2 →
  url.url_fragment u1 = url.url_fragment u2 →
  url.String_ (url.setRawQuery u1 q1) = url.String_ (url.setRawQuery u2 q2) →
  q1 = q2.
Proof.
  intros Hh Hf Hfr. unfold url.String_, url.setRawQuery. cbn. rewrite Hh, Hf, Hfr.
  intros H. apply (inj (String.append _)) in H. apply string_app_inv_tail in H.
  destruct (url.ForceQuery u2); cbn in H.
  { by simplify_eq. }
  destruct q1, q2; cbn in H; by simplify_eq.
Qed.

Lemma formatURLForCache_key_inj now (u1 u2 : url.URL) s1 s2 a1 a2 e1 e2 currentMonth :
  shardNameToInt (timeToShardName now) = (currentMonth, None) →
  url.url_head u1 = url.url_head u2 →
  url.ForceQuery u1 = url.ForceQuery u2 →
  url.url_fragment u1 = url.url_fragment u2 →
  (formatURLForCache now u1 s1 a1 e1).1 = (formatURLForCache now u2 s2 a2 e2).1 →
  (cacheQueryParams now u1 s1 a1 e1).1 = (cacheQueryParams now u2 s2 a2 e2).1.
Proof.
  intros Hnow Hh Hf Hfr.
  rewrite !(formatURLForCache_key _ _ _ _ _ _ Hnow). cbn [fst]. intros Hkey.
  apply String_setRawQuery_inj in Hkey; [| done ..].
  apply (f_equal url.ParseQuery) in Hkey.
  by rewrite !ParseQuery_Encode in Hkey by (by eapply cacheQueryParams_noEmptyList).
Qed.

(** X5.  Beside ["cache"], the parameters of the key are those of the
    request but for three: ["start"] is absent when the start bound is
    before the shard, ["end"] is absent when the end bound is after it,
    and the shard integer is added as the last value of ["shard"]; every
    other parameter is kept with all its values. *)
Theorem cache_key_keeps_other_parameters
    now uRL shardName startMonth endMonth currentMonth :
  shardNameToInt (timeToShardName now) = (currentMonth, None) →
  let qp := (cacheQueryParams now uRL shardName startMonth endMonth).1 in
  formatURLForCache now uRL shardName startMonth endMonth
  = (url.String_ (url.setRawQuery uRL (url.Encode qp)), None)
  ∧ qp !! "start" = (if startMonth <? shardName then None else url.Query uRL !! "start")
  ∧ qp !! "end" = (if endMonth >? shardName then None else url.Query uRL !! "end")
  ∧ qp !! "shard"
    = Some (default [] (url.Query uRL !! "shard") ++ [strconv.Itoa shardName])%list
  ∧ ∀ key, key ∉ ["start"; "end"; "cache"; "shard"] → qp !! key = url.Query uRL !! key.
Proof.
  intros Hnow. cbn zeta.
  destruct (cacheQueryParams_lookups now uRL shardName startMonth endMonth _ Hnow)
    as (H1 & H2 & _ & H4 & H5).
  split; [by eapply formatURLForCache_key |]. done.
Qed.

(** X6.  Two requests that differ only in the value of their ["end"]
    parameter, both ends being after the shard, have the same cache key
    for that shard. *)
Theorem end_bound_collapses now (u1 u2 : url.URL) shardName startMonth end1 end2 :
  url.url_head u1 = url.url_head u2 →
  url.ForceQuery u1 = url.ForceQuery u2 →
  url.url_fragment u1 = url.url_fragment u2 →
  url.Del (url.Query u1) "end" = url.Del (url.Query u2) "end" →
  shardName < end1 →
  shardName < end2 →
  formatURLForCache now u1 shardName startMonth end1
  = formatURLForCache now u2 shardName startMonth end2.
Proof.
  intros Hhead Hforce Hfrag Hdel H1 H2.
  unfold formatURLForCache, cacheQueryParams.
  apply Z.gt_lt_iff, Z.gtb_gt in H1, H2. rewrite H1, H2.
  assert (Hq : (if startMonth <? shardName
                then url.Del (url.Del (url.Query u1) "start") "end"
                else url.Del (url.Query u1) "end")
               = (if startMonth <? shardName
                  then url.Del (url.Del (url.Query u2) "start") "end"
                  else url.Del (url.Query u2) "end")).
  { destruct (startMonth <? shardName); [| done].
    unfold url.Del in *. by rewrite (delete_delete (url.Query u1)),
      (delete_delete (url.Query u2)), Hdel. }
  destruct (startMonth <? shardName); rewrite Hq;
    destruct (shardNameToInt (timeToShardName now)) as [currentMonth [err |]]; try done;
    unfold url.setRawQuery; by rewrite Hhead, Hforce, Hfrag.
Qed.

(** X7.  For a shard before the current month the key does not tell a
    request with ["cache"] from the same request without it: two requests
    that differ only in their ["cache"] parameter have the same key, so
    that the one reads what the other stored. *)
Theorem past_shard_key_ignores_cache now (u1 u2 : url.URL)
    shardName startMonth endMonth currentMonth :
  shardNameToInt (timeToShardName now) = (currentMonth, None) →
  url.url_head u1 = url.url_head u2 →
  url.ForceQuery u1 = url.ForceQuery u2 →
  url.url_fragment u1 = url.url_fragment u2 →
  url.Del (url.Query u1) "cache" = url.Del (url.Query u2) "cache" →
  shardName < currentMonth →
  formatURLForCache now u1 shardName startMonth endMonth
  = formatURLForCache now u2 shardName startMonth endMonth.
Proof.
  intros Hnow Hhead Hforce Hfrag Hdel Hpast.
  rewrite !(formatURLForCache_key _ _ _ _ _ _ Hnow).
  rewrite !(cacheQueryParams_ok _ _ _ _ _ _ Hnow). cbn [fst].
  apply Z.ltb_lt in Hpast. rewrite Hpast.
  assert (Hq : ∀ (d : url.Values → url.Values),
            (∀ v, url.Del (d v) "cache" = d (url.Del v "cache")) →
            url.Del (d (url.Query u1)) "cache" = url.Del (d (url.Query u2)) "cache").
  { intros d Hd. by rewrite !Hd, Hdel. }
  unfold url.setRawQuery. rewrite Hhead, Hforce, Hfrag.
  destruct (startMonth <? shardName), (endMonth >? shardName); cbn zeta.
  - rewrite (Hq (fun v => url.Del (url.Del v "start") "end")); [done |].
    intros v. unfold url.Del.
    by rewrite (delete_delete (delete "start" v)), (delete_delete v).
  - rewrite (Hq (fun v => url.Del v "start")); [done |].
    intros v. unfold url.Del. by rewrite (delete_delete v).
  - rewrite (Hq (fun v => url.Del v "end")); [done |].
    intros v. unfold url.Del. by rewrite (delete_delete v).
  - by rewrite (Hq (fun v => v)).
Qed.

(** X8.  The key reads back: the query of the key, parsed as the query of
    a URL is, gives the parameters that were encoded into it, values and
    their order included. *)
Theorem cache_key_reads_back now uRL shardName startMonth endMonth currentMonth :
  shardNameToInt (timeToShardName now) = (currentMonth, None) →
  let qp := (cacheQueryParams now uRL shardName startMonth endMonth).1 in
  let cacheURL := url.setRawQuery uRL (url.Encode qp) in
  formatURLForCache now uRL shardName startMonth endMonth = (url.String_ cacheURL, None)
  ∧ url.Query cacheURL = qp.
Proof.
  intros Hnow. cbn zeta. split; [by eapply formatURLForCache_key |].
  unfold url.Query, url.setRawQuery. cbn [url.RawQuery].
  apply ParseQuery_Encode. by eapply cacheQueryParams_noEmptyList.
Qed.

(** X9.  Two shards of different integers never share a key: whatever
    the queries and the bounds of two requests to the same path, their
    keys for two different shards differ. *)
Theorem shard_keys_differ now (u1 u2 : url.URL) s1 s2 a1 a2 e1 e2 currentMonth :
  shardNameToInt (timeToShardName now) = (currentMonth, None) →
  url.url_head u1 = url.url_head u2 →
  url.ForceQuery u1 = url.ForceQuery u2 →
  url.url_fragment u1 = url.url_fragment u2 →
  s1 ≠ s2 →
  (formatURLForCache now u1 s1 a1 e1).1 ≠ (formatURLForCache now u2 s2 a2 e2).1.
Proof.
  intros Hnow Hh Hf Hfr Hne Hkey.
  apply (formatURLForCache_key_inj _ _ _ _ _ _ _ _ _ _ Hnow Hh Hf Hfr) in Hkey.
  destruct (cacheQueryParams_lookups now u1 s1 a1 e1 _ Hnow) as (_ & _ & _ & Hs1 & _).
  destruct (cacheQueryParams_lookups now u2 s2 a2 e2 _ Hnow) as (_ & _ & _ & Hs2 & _).
  cbn zeta in Hs1, Hs2. rewrite Hkey, Hs2 in Hs1. simplify_eq.
  apply (f_equal last) in Hs1. rewrite !last_snoc in Hs1. simplify_eq.
  by apply Hne, Itoa_inj.
Qed.

(** X10.  What a request with ["cache"] stores for the shard of the
    current month, or a later one, is under a key that no request without
    ["cache"] to the same path ever has, for any shard. *)
Theorem cached_key_differs_from_plain_keys now (u1 u2 : url.URL)
    s1 s2 a1 a2 e1 e2 currentMonth :
  shardNameToInt (timeToShardName now) = (currentMonth, None) →
  url.url_head u1 = url.url_head u2 →
  url.ForceQuery u1 = url.ForceQuery u2 →
  url.url_fragment u1 = url.url_fragment u2 →
  cachedRequest u1 = true →
  cachedRequest u2 = false →
  currentMonth ≤ s1 →
  (formatURLForCache now u1 s1 a1 e1).1 ≠ (formatURLForCache now u2 s2 a2 e2).1.
Proof.
  intros Hnow Hh Hf Hfr Hc1 Hc2 Hs1 Hkey.
  apply (formatURLForCache_key_inj _ _ _ _ _ _ _ _ _ _ Hnow Hh Hf Hfr) in Hkey.
  destruct (cacheQueryParams_lookups now u1 s1 a1 e1 _ Hnow) as (_ & _ & Hk1 & _).
  destruct (cacheQueryParams_lookups now u2 s2 a2 e2 _ Hnow) as (_ & _ & Hk2 & _).
  cbn zeta in Hk1, Hk2. rewrite Hkey, Hk2 in Hk1.
  assert ((s1 <? currentMonth) = false) as Hge by (apply Z.ltb_ge; lia).
  rewrite Hge in Hk1.
  unfold cachedRequest, url.Get in Hc1, Hc2.
  destruct (url.Query u1 !! "cache") as [vs |] eqn:Hq1; [| done].
  destruct vs as [| v1 vs1]; [done |].
  destruct (s2 <? currentMonth); [done |].
  rewrite Hk1 in Hc2. congruence.
Qed.

End CacheKeyMore.

Lemma cache_key_keeps_other_parameters_witness :
  (cacheQueryParams Mem.oct2026
     (url.mkURL "/site" "start=2015-01&page=home&page=about" false "")
     201506 201501 999999).1 !! "page" = Some ["home"; "about"].
Proof.
  pose proof (cache_key_keeps_other_parameters Mem.oct2026
                (url.mkURL "/site" "start=2015-01&page=home&page=about" false "")
                201506 201501 999999 202610 eq_refl) as (_ & _ & _ & _ & H).
  rewrite (H "page"); [reflexivity |].
  repeat (apply not_elem_of_cons; split; [discriminate |]). apply not_elem_of_nil.
Defined.

Lemma end_bound_collapses_witness :
  url.Del (url.Query Mem.toJune) "end" = url.Del (url.Query Mem.toMay) "end"
  ∧ 202610 < 202706 ∧ 202610 < 202705
  ∧ formatURLForCache Mem.oct2026 Mem.toJune 202610 0 202706
    = formatURLForCache Mem.oct2026 Mem.toMay 202610 0 202705.
Proof.
  assert (Hdel : url.Del (url.Query Mem.toJune) "end" = url.Del (url.Query Mem.toMay) "end")
    by (vm_compute; reflexivity).
  split; [exact Hdel |]. split; [lia |]. split; [lia |].
  apply (end_bound_collapses Mem.oct2026 Mem.toJune Mem.toMay 202610 0 202706 202705);
    [reflexivity .. | exact Hdel | lia | lia].
Defined.

Lemma past_shard_key_ignores_cache_witness :
  formatURLForCache Mem.oct2026 Mem.fromJanuary 202609 201501 999999
  = formatURLForCache Mem.oct2026 Mem.fromJanuaryPlain 202609 201501 999999.
Proof.
  apply (past_shard_key_ignores_cache Mem.oct2026 Mem.fromJanuary Mem.fromJanuaryPlain
           202609 201501 999999 202610); [reflexivity .. | vm_compute; reflexivity | lia].
Defined.

Lemma cache_key_reads_back_witness :
  url.Query (url.mkURL "/site" "cache=true&shard=202610" false "")
  = (cacheQueryParams Mem.oct2026 (url.mkURL "/site" "cache=true" false "")
       202610 0 999999).1.
Proof.
  apply (cache_key_reads_back Mem.oct2026 (url.mkURL "/site" "cache=true" false "")
           202610 0 999999 202610 eq_refl).
Defined.

Lemma shard_keys_differ_witness :
  (formatURLForCache Mem.oct2026 Mem.fromJanuary 202609 201501 999999).1
  ≠ (formatURLForCache Mem.oct2026 Mem.fromMarch 202610 201503 999999).1.
Proof.
  apply (shard_keys_differ Mem.oct2026 Mem.fromJanuary Mem.fromMarch
           202609 202610 201501 201503 999999 999999 202610); [reflexivity .. | lia].
Defined.

Lemma cached_key_differs_from_plain_keys_witness :
  (formatURLForCache Mem.oct2026 Mem.fromJanuary 202610 201501 999999).1
  ≠ (formatURLForCache Mem.oct2026 Mem.fromJanuaryPlain 202610 201501 999999).1.
Proof.
  apply (cached_key_differs_from_plain_keys Mem.oct2026 Mem.fromJanuary Mem.fromJanuaryPlain
           202610 202610 201501 201501 999999 999999 202610); [reflexivity .. | lia].
Defined.

(** ** The driver, continued *)

Section DriverMore.

Context {St Conn : Type} `{!Backend St Conn}.

Implicit Types (w : World St) (params : Params) (dbPath : DBPath).

#[local] Arguments cachedRequest : simpl never.
#[local] Arguments formatURLForCache : simpl never.
#[local] Arguments shardNameToInt : simpl never.
#[local] Arguments timeRangeToInt : simpl never.

(** *** What the read operations return *)

Lemma formatURLForCache_error now uRL shardName startMonth endMonth key err :
  formatURLForCache now uRL shardName startMonth endMonth = (key, Some err) →
  ∃ num kind, err = NumError num kind.
Proof.
  unfold formatURLForCache, cacheQueryParams, shardNameToInt.
  destruct (strconv.Atoi (strings.Join _ _)) as [? [e1 |]] eqn:H1;
    [intros; simplify_eq; eauto using Atoi_error |].
  destruct (strconv.Atoi (time.Format_plain now)) as [? [e2 |]] eqn:H2;
    [intros; simplify_eq; eauto using Atoi_error |].
  repeat case_match; intros; simplify_eq.
Qed.

Lemma shardNameToInt_error shardName n err :
  shardNameToInt shardName = (n, Some err) → ∃ num kind, err = NumError num kind.
Proof.
  unfold shardNameToInt. apply Atoi_error.
Qed.

Lemma Query_shard_error params dbPath c shardName cacheURL w err w' :
  Query_shard params dbPath c shardName cacheURL w = (inr err, w') → err = InternalError.
Proof.
  unfold Query_shard. repeat case_match; intros; by simplify_eq.
Qed.

Lemma GroupBy_shard_error params dbPath c shardName cacheURL w err w' :
  GroupBy_shard params dbPath c shardName cacheURL w = (inr err, w') → err = InternalError.
Proof.
  unfold GroupBy_shard. repeat case_match; intros; by simplify_eq.
Qed.

Lemma Series_shard_error params dbPath c shardName cacheURL w err w' :
  Series_shard params dbPath c shardName cacheURL w = (inr err, w') → err = InternalError.
Proof.
  unfold Series_shard. repeat case_match; intros; by simplify_eq.
Qed.

Lemma Query_shards_returns params dbPath c shards analytics w res err w' :
  Query_shards params dbPath c shards analytics w = ((res, err), w') →
  match res, err with
  | Some _, None => Forall (fun shardName => (shardNameToInt shardName).2 = None) shards
  | None, Some e => readError e
  | _, _ => False
  end.
Proof.
  revert analytics w. induction shards as [| shardName shards IH]; intros analytics w Hq;
    cbn in Hq; [by simplify_eq |].
  destruct (shardNameToInt shardName) as [shardInt [e |]] eqn:Hint.
  { simplify_eq. right; right. by eapply shardNameToInt_error. }
  destruct (timeRangeToInt (TimeRange_ params)) as [startInt endInt].
  assert (Hcons : match res, err with
                  | Some _, None =>
                      Forall (fun shardName => (shardNameToInt shardName).2 = None) shards
                  | None, Some e => readError e
                  | _, _ => False
                  end →
                  match res, err with
                  | Some _, None =>
                      Forall (fun shardName => (shardNameToInt shardName).2 = None)
                        (shardName :: shards)
                  | None, Some e => readError e
                  | _, _ => False
                  end).
  { destruct res, err; try done. intros. constructor; [by rewrite Hint | done]. }
  destruct ((shardInt <? startInt) || (shardInt >? endInt)); [by apply Hcons; eapply IH |].
  destruct (formatURLForCache _ _ _ _ _) as [cacheURL [e |]] eqn:Hkey.
  { simplify_eq. right; right. by eapply formatURLForCache_error. }
  destruct (Query_shard _ _ _ _ _ _) as [[shardAnalytics | e] w1] eqn:Hshard;
    [by apply Hcons; eapply IH |].
  simplify_eq. left. by eapply Query_shard_error.
Qed.

Lemma GroupBy_shards_returns params dbPath c shards m w res err w' :
  GroupBy_shards params dbPath c shards m w = ((res, err), w') →
  match res, err with
  | Some _, None => Forall (fun shardName => (shardNameToInt shardName).2 = None) shards
  | None, Some e => readError e
  | _, _ => False
  end.
Proof.
  revert m w. induction shards as [| shardName shards IH]; intros m w Hq;
    cbn in Hq; [by simplify_eq |].
  destruct (shardNameToInt shardName) as [shardInt [e |]] eqn:Hint.
  { simplify_eq. right; right. by eapply shardNameToInt_error. }
  destruct (timeRangeToInt (TimeRange_ params)) as [startInt endInt].
  assert (Hcons : match res, err with
                  | Some _, None =>
                      Forall (fun shardName => (shardNameToInt shardName).2 = None) shards
                  | None, Some e => readError e
                  | _, _ => False
                  end →
                  match res, err with
                  | Some _, None =>
                      Forall (fun shardName => (shardNameToInt shardName).2 = None)
                        (shardName :: shards)
                  | None, Some e => readError e
                  | _, _ => False
                  end).
  { destruct res, err; try done. intros. constructor; [by rewrite Hint | done]. }
  destruct ((shardInt <? startInt) || (shardInt >? endInt)); [by apply Hcons; eapply IH |].
  destruct (formatURLForCache _ _ _ _ _) as [cacheURL [e |]] eqn:Hkey.
  { simplify_eq. right; right. by eapply formatURLForCache_error. }
  destruct (GroupBy_shard _ _ _ _ _ _) as [[shardAnalytics | e] w1] eqn:Hshard;
    [by apply Hcons; eapply IH |].
  simplify_eq. left. by eapply GroupBy_shard_error.
Qed.

Lemma Series_shards_returns params dbPath c shards analytics w res err w' :
  Series_shards params dbPath c shards analytics w = ((res, err), w') →
  match res, err with
  | Some _, None => Forall (fun shardName => (shardNameToInt shardName).2 = None) shards
  | None, Some e => readError e
  | _, _ => False
  end.
Proof.
  revert analytics w. induction shards as [| shardName shards IH]; intros analytics w Hq;
    cbn in Hq; [by simplify_eq |].
  destruct (shardNameToInt shardName) as [shardInt [e |]] eqn:Hint.
  { simplify_eq. right; right. by eapply shardNameToInt_error. }
  destruct (timeRangeToInt (TimeRange_ params)) as [startInt endInt].
  assert (Hcons : match res, err with
                  | Some _, None =>
                      Forall (fun shardName => (shardNameToInt shardName).2 = None) shards
                  | None, Some e => readError e
                  | _, _ => False
                  end →
                  match res, err with
                  | Some _, None =>
                      Forall (fun shardName => (shardNameToInt shardName).2 = None)
                        (shardName :: shards)
                  | None, Some e => readError e
                  | _, _ => False
                  end).
  { destruct res, err; try done. intros. constructor; [by rewrite Hint | done]. }
  destruct ((shardInt <? startInt) || (shardInt >? endInt)); [by apply Hcons; eapply IH |].
  destruct (formatURLForCache _ _ _ _ _) as [cacheURL [e |]] eqn:Hkey.
  { simplify_eq. right; right. by eapply formatURLForCache_error. }
  destruct (Series_shard _ _ _ _ _ _) as [[shardAnalytics | e] w1] eqn:Hshard;
    [by apply Hcons; eapply IH |].
  simplify_eq. left. by eapply Series_shard_error.
Qed.

(** X11.  [Query], [GroupBy] and [Series] return either a result and no
    error, or no result and an error that is [InternalError],
    [InvalidDatabaseName] or the [*strconv.NumError] of a name that does
    not parse, returned as [strconv.Atoi] made it. *)
Theorem reads_return_result_or_read_error params w :
  match (Query params w).1 with
  | (Some _, None) => True
  | (None, Some e) => readError e
  | _ => False
  end
  ∧ match (GroupBy params w).1 with
    | (Some _, None) => True
    | (None, Some e) => readError e
    | _ => False
    end
  ∧ match (Series params w).1 with
    | (Some _, None) => True
    | (None, Some e) => readError e
    | _ => False
    end.
Proof.
  rewrite Query_unfold, GroupBy_unfold, Series_unfold.
  destruct (DBExists _ (DBManager w)) as [[|] |]; cbn;
    [| by unfold readError; auto ..].
  split; [| split].
  - destruct (Query_shards _ _ _ _ _ _) as [[res err] w'] eqn:Hq.
    apply Query_shards_returns in Hq. cbn. by destruct res, err.
  - destruct (GroupBy_shards _ _ _ _ _ _) as [[res err] w'] eqn:Hq.
    apply GroupBy_shards_returns in Hq. cbn. by destruct res, err.
  - destruct (Series_shards _ _ _ _ _ _) as [[res err] w'] eqn:Hq.
    apply Series_shards_returns in Hq. cbn. by destruct res, err.
Qed.

(** X12.  An entry of the dataset directory whose name does not parse
    makes every read of the dataset fail, whatever the time range of the
    request: no result is returned. *)
Theorem unparsable_entry_fails_reads params w shardName :
  shardName ∈ (listShards (mkDBPath (DBName params) (directory w)) w).1 →
  (shardNameToInt shardName).2 ≠ None →
  ((Query params w).1.1 = None ∧ (Query params w).1.2 ≠ None)
  ∧ ((GroupBy params w).1.1 = None ∧ (GroupBy params w).1.2 ≠ None)
  ∧ ((Series params w).1.1 = None ∧ (Series params w).1.2 ≠ None).
Proof.
  rewrite listShards_eq. cbn [fst]. fold (datasetPath params w). fold (shardsOf params w).
  intros Hin Hbad.
  rewrite Query_unfold, GroupBy_unfold, Series_unfold.
  destruct (DBExists _ (DBManager w)) as [[|] |]; cbn; [| done ..].
  split; [| split].
  - destruct (Query_shards _ _ _ _ _ _) as [[res err] w'] eqn:Hq.
    apply Query_shards_returns in Hq. cbn. destruct res, err; try done.
    rewrite Forall_forall in Hq. by destruct (Hbad (Hq _ Hin)).
  - destruct (GroupBy_shards _ _ _ _ _ _) as [[res err] w'] eqn:Hq.
    apply GroupBy_shards_returns in Hq. cbn. destruct res, err; try done.
    rewrite Forall_forall in Hq. by destruct (Hbad (Hq _ Hin)).
  - destruct (Series_shards _ _ _ _ _ _) as [[res err] w'] eqn:Hq.
    apply Series_shards_returns in Hq. cbn. destruct res, err; try done.
    rewrite Forall_forall in Hq. by destruct (Hbad (Hq _ Hin)).
Qed.

(** *** The locking of Query and GroupBy *)

Ltac locked_calls :=
  split; [reflexivity |];
  repeat first [ apply LockedExecs_nil
               | apply LockedExecs_locked
               | apply LockedExecs_other; [reflexivity | reflexivity |] ].

Lemma LockedCalls_app (calls1 calls2 : list Event) :
  LockedCalls calls1 → LockedCalls calls2 → LockedCalls (calls1 ++ calls2).
Proof.
  unfold LockedCalls, execShards, openedShards. intros [Hp1 H1] [Hp2 H2].
  rewrite !omap_app, Hp1, Hp2. split; [done |]. by apply LockedExecs_app.
Qed.

Lemma Query_shard_locked params dbPath c shardName cacheURL w :
  ∃ calls,
    trace (Query_shard params dbPath c shardName cacheURL w).2 = (trace w ++ calls)%list
    ∧ LockedCalls calls.
Proof.
  unfold Query_shard, cacheGet, getDB, exec, cacheAdd, Lock, Unlock, log, setCache, setStorage.
  cbn.
  destruct (lru.Get (cache w) cacheURL) as [[v |] c'] eqn:Hget; cbn.
  { exists [EvCacheGet cacheURL (Some v)]. split; [by destruct v | locked_calls]. }
  destruct (GetDB _ (DBManager w)) as [[db |] st]; cbn.
  2: { eexists [_; _]. rewrite <- app_assoc. split; [done | locked_calls]. }
  destruct (query_Query db _ st) as [[r |] st'] eqn:Hrun; cbn;
    [destruct c; cbn |]; rewrite <- !app_assoc; cbn; eexists;
    (split; [done | locked_calls]).
Qed.

Lemma GroupBy_shard_locked params dbPath c shardName cacheURL w :
  ∃ calls,
    trace (GroupBy_shard params dbPath c shardName cacheURL w).2 = (trace w ++ calls)%list
    ∧ LockedCalls calls.
Proof.
  unfold GroupBy_shard, cacheGet, getDB, exec, cacheAdd, Lock, Unlock, log, setCache,
    setStorage.
  cbn.
  destruct (lru.Get (cache w) cacheURL) as [[v |] c'] eqn:Hget; cbn.
  { exists [EvCacheGet cacheURL (Some v)]. split; [by destruct v | locked_calls]. }
  destruct (GetDB _ (DBManager w)) as [[db |] st]; cbn.
  2: { eexists [_; _]. rewrite <- app_assoc. split; [done | locked_calls]. }
  destruct (Unique_ params); cbn.
  - destruct (query_GroupByUniq db _ _ st) as [[r |] st'] eqn:Hrun; cbn;
      [destruct c; cbn |]; rewrite <- !app_assoc; cbn; eexists;
      (split; [done | locked_calls]).
  - destruct (query_GroupBy db _ _ st) as [[r |] st'] eqn:Hrun; cbn;
      [destruct c; cbn |]; rewrite <- !app_assoc; cbn; eexists;
      (split; [done | locked_calls]).
Qed.

Lemma Query_shards_locked params dbPath c shards analytics w :
  ∃ calls,
    trace (Query_shards params dbPath c shards analytics w).2 = (trace w ++ calls)%list
    ∧ LockedCalls calls.
Proof.
  revert analytics w.
  induction shards as [| shardName shards IH]; intros analytics w; cbn.
  { exists []. rewrite app_nil_r. split; [done | locked_calls]. }
  destruct (shardNameToInt shardName) as [shardInt [err |]].
  { exists []. rewrite app_nil_r. split; [done | locked_calls]. }
  destruct (timeRangeToInt (TimeRange_ params)) as [startInt endInt].
  destruct ((shardInt <? startInt) || (shardInt >? endInt)); [apply IH |].
  destruct (formatURLForCache _ _ _ _ _) as [cacheURL [err |]].
  { exists []. rewrite app_nil_r. split; [done | locked_calls]. }
  destruct (Query_shard_locked params dbPath c shardName cacheURL w) as (calls1 & Ht1 & H1).
  destruct (Query_shard params dbPath c shardName cacheURL w) as [[shardAnalytics | err] w1];
    cbn in Ht1 |- *; [| by exists calls1].
  match goal with |- context [Query_shards _ _ _ _ ?a w1] =>
    destruct (IH a w1) as (calls2 & Ht2 & H2) end.
  exists (calls1 ++ calls2)%list. rewrite Ht2, Ht1, <- app_assoc.
  split; [done | by apply LockedCalls_app].
Qed.

Lemma GroupBy_shards_locked params dbPath c shards m w :
  ∃ calls,
    trace (GroupBy_shards params dbPath c shards m w).2 = (trace w ++ calls)%list
    ∧ LockedCalls calls.
Proof.
  revert m w.
  induction shards as [| shardName shards IH]; intros m w; cbn.
  { exists []. rewrite app_nil_r. split; [done | locked_calls]. }
  destruct (shardNameToInt shardName) as [shardInt [err |]].
  { exists []. rewrite app_nil_r. split; [done | locked_calls]. }
  destruct (timeRangeToInt (TimeRange_ params)) as [startInt endInt].
  destruct ((shardInt <? startInt) || (shardInt >? endInt)); [apply IH |].
  destruct (formatURLForCache _ _ _ _ _) as [cacheURL [err |]].
  { exists []. rewrite app_nil_r. split; [done | locked_calls]. }
  destruct (GroupBy_shard_locked params dbPath c shardName cacheURL w) as (calls1 & Ht1 & H1).
  destruct (GroupBy_shard params dbPath c shardName cacheURL w) as [[shardAnalytics | err] w1];
    cbn in Ht1 |- *; [| by exists calls1].
  match goal with |- context [GroupBy_shards _ _ _ _ ?a w1] =>
    destruct (IH a w1) as (calls2 & Ht2 & H2) end.
  exists (calls1 ++ calls2)%list. rewrite Ht2, Ht1, <- app_assoc.
  split; [done | by apply LockedCalls_app].
Qed.

(** X13.  In a call of [Query] or of [GroupBy], with or without the
    uniqueness flag, the executor is called once on every shard
    connection that was opened, each time between [Lock] and [Unlock] of
    that connection, and no lock is taken otherwise. *)
Theorem Query_and_GroupBy_execute_under_lock params w :
  (∃ calls, trace (Query params w).2 = (trace w ++ calls)%list ∧ LockedCalls calls)
  ∧ (∃ calls, trace (GroupBy params w).2 = (trace w ++ calls)%list ∧ LockedCalls calls).
Proof.
  rewrite Query_unfold, GroupBy_unfold.
  destruct (DBExists _ (DBManager w)) as [[|] |]; cbn.
  2,3: split; exists [EvDBExists (datasetPath params w)]; (split; [done | locked_calls]).
  split.
  - match goal with |- context [Query_shards ?p ?d ?c ?l ?a ?w0] =>
      destruct (Query_shards_locked p d c l a w0) as (calls & Ht & Hc) end.
    exists ([EvDBExists (datasetPath params w);
             EvReadDir (DBPath_String (datasetPath params w))] ++ calls)%list.
    rewrite Ht. unfold afterListing, log; cbn. rewrite <- !app_assoc.
    split; [done |]. apply (LockedCalls_app [_; _] calls); [locked_calls | done].
  - match goal with |- context [GroupBy_shards ?p ?d ?c ?l ?a ?w0] =>
      destruct (GroupBy_shards_locked p d c l a w0) as (calls & Ht & Hc) end.
    exists ([EvDBExists (datasetPath params w);
             EvReadDir (DBPath_String (datasetPath params w))] ++ calls)%list.
    rewrite Ht. unfold afterListing, log; cbn. rewrite <- !app_assoc.
    split; [done |]. apply (LockedCalls_app [_; _] calls); [locked_calls | done].
Qed.

(** *** Requests without ["cache"] *)

Lemma KeepsEntries_refl w : KeepsEntries w w.
Proof. split; [done |]. exists []. by rewrite app_nil_r. Qed.

Lemma KeepsEntries_trans w1 w2 w3 :
  KeepsEntries w1 w2 → KeepsEntries w2 w3 → KeepsEntries w1 w3.
Proof.
  intros [H1 (c1 & Ht1 & Ha1)] [H2 (c2 & Ht2 & Ha2)]. split.
  - intros key. by rewrite H2, H1.
  - exists (c1 ++ c2)%list. rewrite Ht2, Ht1, <- app_assoc. split; [done |].
    unfold cacheAdds in *. by rewrite omap_app, Ha1, Ha2.
Qed.

Lemma KeepsEntries_log e w :
  cacheAdds [e] = [] → KeepsEntries w (log e w).
Proof. intros He. split; [done |]. by exists [e]. Qed.

Lemma KeepsEntries_cacheGet key w : KeepsEntries w (cacheGet key w).2.
Proof.
  unfold cacheGet. pose proof (Get_find (cache w) key) as Hfind.
  destruct (lru.Get (cache w) key) as [v c'] eqn:Hget. cbn in *.
  split; [done |]. by exists [EvCacheGet key v].
Qed.

Lemma KeepsEntries_getDB shardPath w : KeepsEntries w (getDB shardPath w).2.
Proof.
  unfold getDB. destruct (GetDB shardPath (DBManager w)) as [db st]. cbn.
  split; [done |]. by eexists [_].
Qed.

Lemma KeepsEntries_exec {A : Type} shardPath call (inj : A → CacheValue) run w :
  KeepsEntries w (exec shardPath call inj run w).2.
Proof.
  unfold exec. destruct (run (DBManager w)) as [r st]. cbn.
  split; [done |]. by eexists [_].
Qed.

Lemma KeepsEntries_locked_exec {A : Type} shardPath call (inj : A → CacheValue) run w :
  KeepsEntries w (Unlock shardPath (exec shardPath call inj run (Lock shardPath w)).2).
Proof.
  eapply KeepsEntries_trans; [apply (KeepsEntries_log (EvLock shardPath)); done |].
  eapply KeepsEntries_trans; [apply (KeepsEntries_exec shardPath call inj run) |].
  apply (KeepsEntries_log (EvUnlock shardPath)); done.
Qed.

Lemma Query_shard_keeps params dbPath shardName cacheURL w :
  KeepsEntries w (Query_shard params dbPath false shardName cacheURL w).2.
Proof.
  unfold Query_shard.
  pose proof (KeepsEntries_cacheGet cacheURL w) as H1.
  destruct (cacheGet cacheURL w) as [[v |] w1]; cbn in H1 |- *; [by destruct v |].
  pose proof (KeepsEntries_getDB (mkDBPath shardName (DBPath_String dbPath)) w1) as H2.
  destruct (getDB _ w1) as [[db |] w2]; cbn in H2 |- *;
    [| by eapply KeepsEntries_trans].
  match goal with |- context [exec ?p ?call ?inj ?run ?w0] =>
    pose proof (KeepsEntries_locked_exec p call inj run w2) as H3;
    destruct (exec p call inj run w0) as [[r |] w3] end;
    cbn in H3 |- *; eauto using KeepsEntries_trans.
Qed.

Lemma GroupBy_shard_keeps params dbPath shardName cacheURL w :
  KeepsEntries w (GroupBy_shard params dbPath false shardName cacheURL w).2.
Proof.
  unfold GroupBy_shard.
  pose proof (KeepsEntries_cacheGet cacheURL w) as H1.
  destruct (cacheGet cacheURL w) as [[v |] w1]; cbn in H1 |- *; [by destruct v |].
  pose proof (KeepsEntries_getDB (mkDBPath shardName (DBPath_String dbPath)) w1) as H2.
  destruct (getDB _ w1) as [[db |] w2]; cbn in H2 |- *;
    [| by eapply KeepsEntries_trans].
  destruct (Unique_ params);
    match goal with |- context [exec ?p ?call ?inj ?run ?w0] =>
      pose proof (KeepsEntries_locked_exec p call inj run w2) as H3;
      destruct (exec p call inj run w0) as [[r |] w3] end;
    cbn in H3 |- *; eauto using KeepsEntries_trans.
Qed.

Lemma Series_shard_keeps params dbPath shardName cacheURL w :
  KeepsEntries w (Series_shard params dbPath false shardName cacheURL w).2.
Proof.
  unfold Series_shard.
  pose proof (KeepsEntries_cacheGet cacheURL w) as H1.
  destruct (cacheGet cacheURL w) as [[v |] w1]; cbn in H1 |- *; [by destruct v |].
  pose proof (KeepsEntries_getDB (mkDBPath shardName (DBPath_String dbPath)) w1) as H2.
  destruct (getDB _ w1) as [[db |] w2]; cbn in H2 |- *;
    [| by eapply KeepsEntries_trans].
  destruct (Unique_ params).
  - match goal with |- context [exec ?p ?call ?inj ?run ?w0] =>
      pose proof (KeepsEntries_locked_exec p call inj run w2) as H3;
      destruct (exec p call inj run w0) as [[r |] w3] end;
      cbn in H3 |- *; eauto using KeepsEntries_trans.
  - match goal with |- context [exec ?p ?call ?inj ?run ?w0] =>
      pose proof (KeepsEntries_exec p call inj run w2) as H3;
      destruct (exec p call inj run w0) as [[r |] w3] end;
      cbn in H3 |- *; eauto using KeepsEntries_trans.
Qed.

Lemma Query_shards_keeps params dbPath shards analytics w :
  KeepsEntries w (Query_shards params dbPath false shards analytics w).2.
Proof.
  revert analytics w.
  induction shards as [| shardName shards IH]; intros analytics w; cbn;
    [apply KeepsEntries_refl |].
  destruct (shardNameToInt shardName) as [shardInt [err |]]; [apply KeepsEntries_refl |].
  destruct (timeRangeToInt (TimeRange_ params)) as [startInt endInt].
  destruct ((shardInt <? startInt) || (shardInt >? endInt)); [apply IH |].
  destruct (formatURLForCache _ _ _ _ _) as [cacheURL [err |]]; [apply KeepsEntries_refl |].
  pose proof (Query_shard_keeps params dbPath shardName cacheURL w) as H1.
  destruct (Query_shard params dbPath false shardName cacheURL w)
    as [[shardAnalytics | err] w1]; cbn in H1 |- *; [| done].
  eapply KeepsEntries_trans; [exact H1 | apply IH].
Qed.

Lemma GroupBy_shards_keeps params dbPath shards m w :
  KeepsEntries w (GroupBy_shards params dbPath false shards m w).2.
Proof.
  revert m w.
  induction shards as [| shardName shards IH]; intros m w; cbn;
    [apply KeepsEntries_refl |].
  destruct (shardNameToInt shardName) as [shardInt [err |]]; [apply KeepsEntries_refl |].
  destruct (timeRangeToInt (TimeRange_ params)) as [startInt endInt].
  destruct ((shardInt <? startInt) || (shardInt >? endInt)); [apply IH |].
  destruct (formatURLForCache _ _ _ _ _) as [cacheURL [err |]]; [apply KeepsEntries_refl |].
  pose proof (GroupBy_shard_keeps params dbPath shardName cacheURL w) as H1.
  destruct (GroupBy_shard params dbPath false shardName cacheURL w)
    as [[shardAnalytics | err] w1]; cbn in H1 |- *; [| done].
  eapply KeepsEntries_trans; [exact H1 | apply IH].
Qed.

Lemma Series_shards_keeps params dbPath shards analytics w :
  KeepsEntries w (Series_shards params dbPath false shards analytics w).2.
Proof.
  revert analytics w.
  induction shards as [| shardName shards IH]; intros analytics w; cbn;
    [apply KeepsEntries_refl |].
  destruct (shardNameToInt shardName) as [shardInt [err |]]; [apply KeepsEntries_refl |].
  destruct (timeRangeToInt (TimeRange_ params)) as [startInt endInt].
  destruct ((shardInt <? startInt) || (shardInt >? endInt)); [apply IH |].
  destruct (formatURLForCache _ _ _ _ _) as [cacheURL [err |]]; [apply KeepsEntries_refl |].
  pose proof (Series_shard_keeps params dbPath shardName cacheURL w) as H1.
  destruct (Series_shard params dbPath false shardName cacheURL w)
    as [[shardAnalytics | err] w1]; cbn in H1 |- *; [| done].
  eapply KeepsEntries_trans; [exact H1 | apply IH].
Qed.

Lemma KeepsEntries_afterListing params w : KeepsEntries w (afterListing params w).
Proof.
  unfold afterListing.
  eapply KeepsEntries_trans; by apply KeepsEntries_log.
Qed.

(** X14.  A request for which [cachedRequest] is false stores nothing: a
    call of [Query], [GroupBy] or [Series] makes no [Add] to the cache,
    and every key has after the call the entry it had before (only the
    order of use of the entries changes). *)
Theorem plain_request_stores_nothing params w :
  cachedRequest (URL params) = false →
  KeepsEntries w (Query params w).2
  ∧ KeepsEntries w (GroupBy params w).2
  ∧ KeepsEntries w (Series params w).2.
Proof.
  intros Hplain. rewrite Query_unfold, GroupBy_unfold, Series_unfold, Hplain.
  destruct (DBExists _ (DBManager w)) as [[|] |]; cbn;
    [| by split; [| split]; apply KeepsEntries_log ..].
  pose proof (KeepsEntries_afterListing params w) as H0.
  split; [| split]; (eapply KeepsEntries_trans; [exact H0 |]).
  - apply Query_shards_keeps.
  - apply GroupBy_shards_keeps.
  - apply Series_shards_keeps.
Qed.

(** *** What GroupBy and Series return *)

Lemma GroupBy_shard_delivers params dbPath c shardName cacheURL w shardAnalytics w' :
  GroupBy_shard params dbPath c shardName cacheURL w = (inl shardAnalytics, w') →
  ∃ calls, trace w' = (trace w ++ calls)%list ∧ deliveredAggregates calls = [shardAnalytics].
Proof.
  unfold GroupBy_shard, cacheGet, getDB, exec, cacheAdd, Lock, Unlock, log, setCache,
    setStorage.
  cbn.
  destruct (lru.Get (cache w) cacheURL) as [[v |] c'] eqn:Hget; cbn.
  { destruct v; intros; simplify_eq. by eexists [_]. }
  destruct (GetDB _ (DBManager w)) as [[db |] st]; cbn; [| done].
  destruct (Unique_ params); cbn.
  - destruct (query_GroupByUniq db _ _ st) as [[r |] st'] eqn:Hrun; cbn; [| done].
    intros; simplify_eq. destruct c; cbn; rewrite <- !app_assoc; by eexists.
  - destruct (query_GroupBy db _ _ st) as [[r |] st'] eqn:Hrun; cbn; [| done].
    intros; simplify_eq. destruct c; cbn; rewrite <- !app_assoc; by eexists.
Qed.

Lemma Series_shard_delivers params dbPath c shardName cacheURL w shardAnalytics w' :
  Series_shard params dbPath c shardName cacheURL w = (inl shardAnalytics, w') →
  ∃ calls, trace w' = (trace w ++ calls)%list ∧ deliveredIntervals calls = [shardAnalytics].
Proof.
  unfold Series_shard, cacheGet, getDB, exec, cacheAdd, Lock, Unlock, log, setCache,
    setStorage.
  cbn.
  destruct (lru.Get (cache w) cacheURL) as [[v |] c'] eqn:Hget; cbn.
  { destruct v; intros; simplify_eq. by eexists [_]. }
  destruct (GetDB _ (DBManager w)) as [[db |] st]; cbn; [| done].
  destruct (Unique_ params); cbn.
  - destruct (query_SeriesUniq db _ _ st) as [[r |] st'] eqn:Hrun; cbn; [| done].
    intros; simplify_eq. destruct c; cbn; rewrite <- !app_assoc; by eexists.
  - destruct (query_Series db _ _ st) as [[r |] st'] eqn:Hrun; cbn; [| done].
    intros; simplify_eq. destruct c; cbn; rewrite <- !app_assoc; by eexists.
Qed.

Lemma GroupBy_shards_merges params dbPath c shards m w res w' :
  GroupBy_shards params dbPath c shards m w = ((res, None), w') →
  ∃ calls,
    trace w' = (trace w ++ calls)%list
    ∧ res = Some (aggregatesOfMap (foldl mergeShard m (deliveredAggregates calls))).
Proof.
  revert m w. induction shards as [| shardName shards IH]; intros m w Hq; cbn in Hq.
  { simplify_eq. exists []. by rewrite app_nil_r. }
  destruct (shardNameToInt shardName) as [shardInt [err |]]; [done |].
  destruct (timeRangeToInt (TimeRange_ params)) as [startInt endInt].
  destruct ((shardInt <? startInt) || (shardInt >? endInt)); [by apply IH |].
  destruct (formatURLForCache _ _ _ _ _) as [cacheURL [err |]]; [done |].
  destruct (GroupBy_shard _ _ _ _ _ _) as [[shardAnalytics | err] w1] eqn:Hshard; [| done].
  apply GroupBy_shard_delivers in Hshard as (calls1 & Ht1 & Hd1).
  apply IH in Hq as (calls2 & Ht2 & Hres).
  exists (calls1 ++ calls2)%list. rewrite Ht2, Ht1, <- app_assoc. split; [done |].
  unfold deliveredAggregates in *. by rewrite omap_app, Hd1.
Qed.

Lemma Series_shards_concatenates params dbPath c shards analytics w res w' :
  Series_shards params dbPath c shards analytics w = ((res, None), w') →
  ∃ calls,
    trace w' = (trace w ++ calls)%list
    ∧ res = Some (mkIntervals
                    (IntervalsList analytics
                     ++ concat (IntervalsList <$> deliveredIntervals calls))%list).
Proof.
  revert analytics w. induction shards as [| shardName shards IH]; intros analytics w Hq;
    cbn in Hq.
  { simplify_eq. exists []. cbn. rewrite !app_nil_r. by destruct analytics. }
  destruct (shardNameToInt shardName) as [shardInt [err |]]; [done |].
  destruct (timeRangeToInt (TimeRange_ params)) as [startInt endInt].
  destruct ((shardInt <? startInt) || (shardInt >? endInt)); [by apply IH |].
  destruct (formatURLForCache _ _ _ _ _) as [cacheURL [err |]]; [done |].
  destruct (Series_shard _ _ _ _ _ _) as [[shardAnalytics | err] w1] eqn:Hshard; [| done].
  apply Series_shard_delivers in Hshard as (calls1 & Ht1 & Hd1).
  apply IH in Hq as (calls2 & Ht2 & Hres).
  exists (calls1 ++ calls2)%list. rewrite Ht2, Ht1, <- app_assoc. split; [done |].
  unfold deliveredIntervals in *. rewrite omap_app, Hd1, Hres. cbn.
  by rewrite <- app_assoc.
Qed.

Lemma mergeAggregate_Keyed (m : gmap string Aggregate) (a : Aggregate) :
  Keyed m → Keyed (mergeAggregate m a).
Proof.
  intros Hm id b. unfold mergeAggregate.
  destruct (m !! Id a) as [t |] eqn:Ht.
  - destruct (decide (Id a = id)) as [<- | Hne].
    + rewrite lookup_insert_eq. intros; simplify_eq. cbn. by apply Hm.
    + rewrite lookup_insert_ne by done. apply Hm.
  - destruct (decide (Id a = id)) as [<- | Hne].
    + rewrite lookup_insert_eq. by intros; simplify_eq.
    + rewrite lookup_insert_ne by done. apply Hm.
Qed.

Lemma mergeShards_Keyed (m : gmap string Aggregate) (shards : list Aggregates) :
  Keyed m → Keyed (foldl mergeShard m shards).
Proof.
  revert m. induction shards as [| shard shards IH]; intros m Hm; [done |].
  cbn [foldl]. apply IH. unfold mergeShard.
  revert m Hm. induction (AggregatesList shard) as [| a l IHl]; intros m Hm; [done |].
  cbn [foldl]. by apply IHl, mergeAggregate_Keyed.
Qed.

Lemma aggregatesOfMap_ids (m : gmap string Aggregate) :
  Keyed m → NoDup (Id <$> AggregatesList (aggregatesOfMap m)).
Proof.
  intros Hm. unfold aggregatesOfMap. cbn.
  rewrite <- list_fmap_compose.
  rewrite (list_fmap_ext _ fst (map_to_list m)); [apply NoDup_fst_map_to_list |].
  intros i [id a] Hl. cbn. apply (Hm id a).
  by apply list_elem_of_lookup_2, elem_of_map_to_list in Hl.
Qed.

(** X15.  The result of a [GroupBy] that returns without error is the
    helper map, started empty, into which the shard results that the
    cache and the executor delivered during the call were merged in the
    order of the calls; no two aggregates of the result have the same
    group id. *)
Theorem GroupBy_merges_what_was_delivered params w res w' :
  GroupBy params w = ((res, None), w') →
  ∃ calls result,
    trace w' = (trace w ++ calls)%list
    ∧ res = Some result
    ∧ result = aggregatesOfMap (foldl mergeShard ∅ (deliveredAggregates calls))
    ∧ NoDup (Id <$> AggregatesList result).
Proof.
  rewrite GroupBy_unfold. destruct (DBExists _ (DBManager w)) as [[|] |]; [| done ..].
  intros Hq. apply GroupBy_shards_merges in Hq as (calls & Ht & Hres).
  exists ([EvDBExists (datasetPath params w);
           EvReadDir (DBPath_String (datasetPath params w))] ++ calls)%list.
  eexists. split; [| split; [exact Hres | split; [done |]]].
  - rewrite Ht. unfold afterListing, log. cbn. by rewrite <- !app_assoc.
  - apply aggregatesOfMap_ids, mergeShards_Keyed. intros id a. by rewrite lookup_empty.
Qed.

(** X16.  The result of a [Series] that returns without error is the
    concatenation, in the order of the calls, of the interval lists that
    the cache and the executor delivered during the call; nothing is
    merged or removed. *)
Theorem Series_concatenates_what_was_delivered params w res w' :
  Series params w = ((res, None), w') →
  ∃ calls,
    trace w' = (trace w ++ calls)%list
    ∧ res = Some (mkIntervals (concat (IntervalsList <$> deliveredIntervals calls))).
Proof.
  rewrite Series_unfold. destruct (DBExists _ (DBManager w)) as [[|] |]; [| done ..].
  intros Hq. apply Series_shards_concatenates in Hq as (calls & Ht & Hres).
  exists ([EvDBExists (datasetPath params w);
           EvReadDir (DBPath_String (datasetPath params w))] ++ calls)%list.
  split; [| exact Hres].
  rewrite Ht. unfold afterListing, log. cbn. by rewrite <- !app_assoc.
Qed.

End DriverMore.

Lemma unparsable_entry_fails_reads_witness :
  let fromOctober := Some (mkTimeRange (mkTime 2026 10 1) time.zero) in
  let params := Mem.request "" fromOctober false in
  let w := Mem.world0 10 Mem.storeJunk in
  "junk" ∈ (listShards (mkDBPath "site" "data") w).1
  ∧ (Query params w).1.1 = None ∧ (Query params w).1.2 ≠ None.
Proof.
  cbn zeta.
  assert (Hin : "junk" ∈ (listShards (mkDBPath "site" "data")
                            (Mem.world0 10 Mem.storeJunk)).1).
  { vm_compute. apply list_elem_of_In. right. left. reflexivity. }
  split; [exact Hin |].
  apply (unparsable_entry_fails_reads
           (Mem.request "" (Some (mkTimeRange (mkTime 2026 10 1) time.zero)) false)
           (Mem.world0 10 Mem.storeJunk) "junk"); [exact Hin | discriminate].
Defined.

(** ** GroupBy: the sums of the merge *)

Section MergeSums.

Implicit Types (m : gmap string Aggregate) (a : Aggregate) (l : list Aggregate).

Lemma wrap_wrap (x : Z) : wrap (wrap x) = wrap x.
Proof.
  transitivity (wrap (wrap x + 0)); [f_equal; lia |].
  rewrite wrap_add_l. f_equal. lia.
Qed.

Lemma wrap_add_congr (x y z : Z) : wrap x = wrap y → wrap (x + z) = wrap (y + z).
Proof. intros H. by rewrite <- (wrap_add_l x), <- (wrap_add_l y), H. Qed.

Lemma groupSum_snoc (counter : Aggregate → Z) id l a :
  groupSum counter id (l ++ [a])
  = groupSum counter id l + (if decide (Id a = id) then counter a else 0).
Proof.
  unfold groupSum. induction l as [| b l IH]; cbn.
  - destruct (decide (Id a = id)); lia.
  - rewrite IH. destruct (decide (Id b = id)); lia.
Qed.

Lemma groupSum_absent (counter : Aggregate → Z) id l :
  Forall (fun a => Id a ≠ id) l → groupSum counter id l = 0.
Proof.
  unfold groupSum. induction 1 as [| b l Hb _ IH]; cbn; [done |].
  by rewrite decide_False.
Qed.

Lemma mergeAggregate_HoldsSums m l a :
  HoldsSums m l → HoldsSums (mergeAggregate m a) (l ++ [a]).
Proof.
  intros Hm id. specialize (Hm id). unfold mergeAggregate.
  destruct (decide (Id a = id)) as [Heq | Hne].
  - rewrite Heq. destruct (m !! id) as [t |] eqn:Ht; rewrite lookup_insert_eq; cbn.
    + destruct Hm as (Hid & Hex & Htot & Huni).
      split; [done |]. split; [apply Exists_app; by left |].
      rewrite !groupSum_snoc, !decide_True by done. unfold addInt.
      rewrite !wrap_wrap. split; by apply wrap_add_congr.
    + split; [done |]. split; [apply Exists_app; right; by constructor |].
      rewrite !groupSum_snoc, !decide_True, !groupSum_absent by done. done.
  - assert (Hlook : ∀ v, <[Id a := v]> m !! id = m !! id)
      by (intros; by rewrite lookup_insert_ne).
    assert (Hgoal : match m !! id with
                    | None => Forall (fun a => Id a ≠ id) (l ++ [a])
                    | Some t =>
                        Id t = id
                        ∧ Exists (fun a => Id a = id) (l ++ [a])
                        ∧ wrap (Total t) = wrap (groupSum Total id (l ++ [a]))
                        ∧ wrap (Unique t) = wrap (groupSum Unique id (l ++ [a]))
                    end).
    { destruct (m !! id) as [t |].
      - destruct Hm as (Hid & Hex & Htot & Huni).
        split; [done |]. split; [apply Exists_app; by left |].
        by rewrite !groupSum_snoc, !decide_False, !Z.add_0_r by done.
      - apply Forall_app. split; [done |]. by constructor. }
    destruct (m !! Id a); by rewrite Hlook.
Qed.

Lemma mergeAll_HoldsSums l : HoldsSums (foldl mergeAggregate ∅ l) l.
Proof.
  induction l as [| a l IH] using rev_ind.
  - intros id. cbn. by rewrite lookup_empty.
  - rewrite foldl_app. cbn [foldl]. by apply mergeAggregate_HoldsSums.
Qed.

Lemma mergeShard_concat m (shards : list Aggregates) :
  foldl mergeShard m shards = foldl mergeAggregate m (concat (AggregatesList <$> shards)).
Proof.
  revert m. induction shards as [| shard shards IH]; intros m; [done |].
  cbn. by rewrite foldl_app, IH.
Qed.

(** X17.  What [GroupBy] merges from an empty helper map holds the sums:
    a group id is in the map exactly when a shard result has an
    aggregate of that id, and its [Total] and [Unique] are then the sums
    of those of all these aggregates, up to the wrap-around of Go's
    [int] (modulo 2^64). *)
Theorem GroupBy_merge_sums_per_id (shards : list Aggregates) :
  HoldsSums (foldl mergeShard ∅ shards) (concat (AggregatesList <$> shards)).
Proof. rewrite mergeShard_concat. apply mergeAll_HoldsSums. Qed.

End MergeSums.

Example merged_total_of_home :
  (Total <$> foldl mergeShard ∅ [Mem.aggregatesA; Mem.aggregatesA] !! "home") = Some 6
  ∧ groupSum Total "home"
      (concat (AggregatesList <$> [Mem.aggregatesA; Mem.aggregatesA])) = 6.
Proof. split; vm_compute; reflexivity. Qed.

(** ** The driver and its cache *)

Section DriverCache.

Context {St Conn : Type} `{!Backend St Conn}.

Implicit Types (w : World St) (params : Params) (dbPath : DBPath).

#[local] Arguments cachedRequest : simpl never.
#[local] Arguments formatURLForCache : simpl never.
#[local] Arguments shardNameToInt : simpl never.
#[local] Arguments timeRangeToInt : simpl never.

Lemma Delete_keeps_cache params w :
  cache (Delete params w).2 = cache w
  ∧ clock (Delete params w).2 = clock w
  ∧ directory (Delete params w).2 = directory w.
Proof.
  unfold Delete, dbExists. cbn.
  destruct (DBExists _ (DBManager w)) as [[|] |]; [| done ..].
  by destruct (DeleteDB _ (DBManager w)).
Qed.



(** *** What the operations do to the cache *)

Section CacheInvariant.

(** A property of the cache that [Get] and [Add] keep. *)
Variable Q : lru.Cache → Prop.
Hypothesis Q_Get : ∀ c key, Q c → Q (lru.Get c key).2.
Hypothesis Q_Add : ∀ c key value, Q c → Q (lru.Add c key value).

Lemma cacheGet_inv key w : Q (cache w) → Q (cache (cacheGet key w).2).
Proof.
  unfold cacheGet. intros Hq. pose proof (Q_Get _ key Hq) as H1.
  by destruct (lru.Get (cache w) key).
Qed.

Lemma cacheAdd_inv key value w : Q (cache w) → Q (cache (cacheAdd key value w)).
Proof. unfold cacheAdd. cbn. apply Q_Add. Qed.

Lemma getDB_cache shardPath w : cache (getDB shardPath w).2 = cache w.
Proof. unfold getDB. by destruct (GetDB shardPath (DBManager w)). Qed.

Lemma exec_cache {A : Type} shardPath call (inj : A → CacheValue) run w :
  cache (exec shardPath call inj run w).2 = cache w.
Proof. unfold exec. by destruct (run (DBManager w)). Qed.

Lemma Query_shard_inv params dbPath c shardName cacheURL w :
  Q (cache w) → Q (cache (Query_shard params dbPath c shardName cacheURL w).2).
Proof.
  intros Hq. unfold Query_shard.
  pose proof (cacheGet_inv cacheURL w Hq) as H1.
  destruct (cacheGet cacheURL w) as [[v |] w1]; cbn in H1 |- *; [by destruct v |].
  pose proof (getDB_cache (mkDBPath shardName (DBPath_String dbPath)) w1) as H2.
  destruct (getDB _ w1) as [[db |] w2]; cbn in H2 |- *; [| by rewrite H2].
  match goal with |- context [exec ?p ?call ?inj ?run ?w0] =>
    pose proof (exec_cache p call inj run w0) as H3;
    destruct (exec p call inj run w0) as [[r |] w3] end;
    cbn in H3 |- *; [| by rewrite H3, H2].
  destruct c; [apply cacheAdd_inv |]; cbn; by rewrite H3, H2.
Qed.

Lemma GroupBy_shard_inv params dbPath c shardName cacheURL w :
  Q (cache w) → Q (cache (GroupBy_shard params dbPath c shardName cacheURL w).2).
Proof.
  intros Hq. unfold GroupBy_shard.
  pose proof (cacheGet_inv cacheURL w Hq) as H1.
  destruct (cacheGet cacheURL w) as [[v |] w1]; cbn in H1 |- *; [by destruct v |].
  pose proof (getDB_cache (mkDBPath shardName (DBPath_String dbPath)) w1) as H2.
  destruct (getDB _ w1) as [[db |] w2]; cbn in H2 |- *; [| by rewrite H2].
  destruct (Unique_ params);
    match goal with |- context [exec ?p ?call ?inj ?run ?w0] =>
      pose proof (exec_cache p call inj run w0) as H3;
      destruct (exec p call inj run w0) as [[r |] w3] end;
    cbn in H3 |- *; try (by rewrite H3, H2);
    (destruct c; [apply cacheAdd_inv |]; cbn; by rewrite H3, H2).
Qed.

Lemma Series_shard_inv params dbPath c shardName cacheURL w :
  Q (cache w) → Q (cache (Series_shard params dbPath c shardName cacheURL w).2).
Proof.
  intros Hq. unfold Series_shard.
  pose proof (cacheGet_inv cacheURL w Hq) as H1.
  destruct (cacheGet cacheURL w) as [[v |] w1]; cbn in H1 |- *; [by destruct v |].
  pose proof (getDB_cache (mkDBPath shardName (DBPath_String dbPath)) w1) as H2.
  destruct (getDB _ w1) as [[db |] w2]; cbn in H2 |- *; [| by rewrite H2].
  destruct (Unique_ params);
    match goal with |- context [exec ?p ?call ?inj ?run ?w0] =>
      pose proof (exec_cache p call inj run w0) as H3;
      destruct (exec p call inj run w0) as [[r |] w3] end;
    cbn in H3 |- *; try (by rewrite H3, H2);
    (destruct c; [apply cacheAdd_inv |]; cbn; by rewrite H3, H2).
Qed.

Lemma Query_shards_inv params dbPath c shards analytics w :
  Q (cache w) → Q (cache (Query_shards params dbPath c shards analytics w).2).
Proof.
  revert analytics w.
  induction shards as [| shardName shards IH]; intros analytics w Hq; cbn; [done |].
  destruct (shardNameToInt shardName) as [shardInt [err |]]; [done |].
  destruct (timeRangeToInt (TimeRange_ params)) as [startInt endInt].
  destruct ((shardInt <? startInt) || (shardInt >? endInt)); [by apply IH |].
  destruct (formatURLForCache _ _ _ _ _) as [cacheURL [err |]]; [done |].
  pose proof (Query_shard_inv params dbPath c shardName cacheURL w Hq) as H1.
  destruct (Query_shard params dbPath c shardName cacheURL w)
    as [[shardAnalytics | err] w1]; cbn in H1 |- *; [by apply IH | done].
Qed.

Lemma GroupBy_shards_inv params dbPath c shards m w :
  Q (cache w) → Q (cache (GroupBy_shards params dbPath c shards m w).2).
Proof.
  revert m w.
  induction shards as [| shardName shards IH]; intros m w Hq; cbn; [done |].
  destruct (shardNameToInt shardName) as [shardInt [err |]]; [done |].
  destruct (timeRangeToInt (TimeRange_ params)) as [startInt endInt].
  destruct ((shardInt <? startInt) || (shardInt >? endInt)); [by apply IH |].
  destruct (formatURLForCache _ _ _ _ _) as [cacheURL [err |]]; [done |].
  pose proof (GroupBy_shard_inv params dbPath c shardName cacheURL w Hq) as H1.
  destruct (GroupBy_shard params dbPath c shardName cacheURL w)
    as [[shardAnalytics | err] w1]; cbn in H1 |- *; [by apply IH | done].
Qed.

Lemma Series_shards_inv params dbPath c shards analytics w :
  Q (cache w) → Q (cache (Series_shards params dbPath c shards analytics w).2).
Proof.
  revert analytics w.
  induction shards as [| shardName shards IH]; intros analytics w Hq; cbn; [done |].
  destruct (shardNameToInt shardName) as [shardInt [err |]]; [done |].
  destruct (timeRangeToInt (TimeRange_ params)) as [startInt endInt].
  destruct ((shardInt <? startInt) || (shardInt >? endInt)); [by apply IH |].
  destruct (formatURLForCache _ _ _ _ _) as [cacheURL [err |]]; [done |].
  pose proof (Series_shard_inv params dbPath c shardName cacheURL w Hq) as H1.
  destruct (Series_shard params dbPath c shardName cacheURL w)
    as [[shardAnalytics | err] w1]; cbn in H1 |- *; [by apply IH | done].
Qed.

Lemma operations_keep_cache_invariant params analytic w :
  Q (cache w) →
  Q (cache (Query params w).2)
  ∧ Q (cache (GroupBy params w).2)
  ∧ Q (cache (Series params w).2)
  ∧ Q (cache (Insert params analytic w).2)
  ∧ Q (cache (Delete params w).2).
Proof.
  intros Hq.
  destruct (Insert_keeps_cache params analytic w) as (Hi & _).
  destruct (Delete_keeps_cache params w) as (Hd & _).
  rewrite Hi, Hd, Query_unfold, GroupBy_unfold, Series_unfold.
  destruct (DBExists _ (DBManager w)) as [[|] |]; cbn; [| done ..].
  repeat split; try done.
  - by apply Query_shards_inv.
  - by apply GroupBy_shards_inv.
  - by apply Series_shards_inv.
Qed.

End CacheInvariant.

Lemma Get_Fits (c : lru.Cache) key : Fits c → Fits (lru.Get c key).2.
Proof.
  unfold Fits, lru.Get. destruct (lru.find key (lru.items c)) as [v |] eqn:Hf; cbn; [| done].
  intros Hc. assert (S (length (lru.remove key (lru.items c))) = length (lru.items c));
    [| lia].
  clear Hc. induction (lru.items c) as [| [k0 v0] l IH]; [done |].
  cbn in Hf |- *. destruct (decide (k0 = key)); [done |]. cbn. by rewrite IH.
Qed.

Lemma removelast_cons_length {A : Type} (x : A) (l : list A) :
  length (removelast (x :: l)) = length l.
Proof.
  revert x. induction l as [| y l IH]; intros x; [done |].
  change (removelast (x :: y :: l)) with (x :: removelast (y :: l)).
  cbn [length]. by rewrite IH.
Qed.

Lemma Add_Fits (c : lru.Cache) key value : Fits c → Fits (lru.Add c key value).
Proof.
  unfold Fits, lru.Add. destruct (lru.find key (lru.items c)) as [v |] eqn:Hf.
  - cbn [lru.items lru.size]. intros Hc.
    assert (S (length (lru.remove key (lru.items c))) = length (lru.items c));
      [| cbn [length]; lia].
    clear Hc. induction (lru.items c) as [| [k0 v0] l IH]; [done |].
    cbn in Hf |- *. destruct (decide (k0 = key)); [done |]. cbn. by rewrite IH.
  - cbn [lru.items lru.size]. intros Hc.
    destruct (lru.size c <? length ((key, value) :: lru.items c))%nat eqn:Hover.
    + by rewrite removelast_cons_length.
    + by apply Nat.ltb_ge in Hover.
Qed.

(** X19.  The cache never holds more entries than its size: a driver
    made by [NewShardedDriver] has a positive size and an empty cache,
    and each of the five operations leaves a cache that fits its size as
    one that fits the same size. *)
Theorem cache_fits_its_size params analytic w :
  (∀ driverOpts (manager : St) now (driver : World St),
     NewShardedDriver driverOpts manager now = (Some driver, None) →
     0 < CacheSize driverOpts
     ∧ lru.size (cache driver) = Z.to_nat (CacheSize driverOpts)
     ∧ lru.items (cache driver) = [])
  ∧ (Fits (cache w) →
     Fits (cache (Query params w).2)
     ∧ Fits (cache (GroupBy params w).2)
     ∧ Fits (cache (Series params w).2)
     ∧ Fits (cache (Insert params analytic w).2)
     ∧ Fits (cache (Delete params w).2)).
Proof.
  split.
  - intros driverOpts manager now driver. unfold NewShardedDriver, lru.New.
    destruct (CacheSize driverOpts <=? 0) eqn:Hsize; [done |].
    intros; simplify_eq. cbn. by apply Z.leb_gt in Hsize.
  - apply operations_keep_cache_invariant; [apply Get_Fits | apply Add_Fits].
Qed.

(** X20.  [Query], [GroupBy], [Series] and [Delete] start with the
    existence check and stop at it when the dataset is absent or the
    check fails: the error is [InvalidDatabaseName], respectively
    [InternalError], nothing else is called, and the storage and the
    cache are left as they were.  On an existing dataset [Delete] calls
    [DeleteDB] once and returns its error as it is. *)
Theorem missing_dataset_is_not_touched params w :
  let dbPath := mkDBPath (DBName params) (directory w) in
  let checked :=
    mkWorld (DBManager w) (directory w) (cache w) (clock w)
      (trace w ++ [EvDBExists dbPath])%list in
  let stopped (err : Error) :=
    Query params w = ((None, Some err), checked)
    ∧ GroupBy params w = ((None, Some err), checked)
    ∧ Series params w = ((None, Some err), checked)
    ∧ Delete params w = (Some err, checked) in
  match DBExists dbPath (DBManager w) with
  | Some true =>
      (Delete params w).1 = (DeleteDB dbPath (DBManager w)).1
      ∧ DBManager (Delete params w).2 = (DeleteDB dbPath (DBManager w)).2
      ∧ trace (Delete params w).2 = (trace w ++ [EvDBExists dbPath; EvDeleteDB dbPath])%list
  | Some false => stopped InvalidDatabaseName
  | None => stopped InternalError
  end.
Proof.
  cbn zeta. rewrite Query_unfold, GroupBy_unfold, Series_unfold.
  unfold datasetPath, Delete, dbExists, log. cbn.
  destruct (DBExists _ (DBManager w)) as [[|] |]; cbn; [| done ..].
  destruct (DeleteDB _ (DBManager w)) as [err st]. cbn. by rewrite <- app_assoc.
Qed.

End DriverCache.

(** ** The driver on the in-memory backend, continued *)

Lemma plain_request_stores_nothing_witness :
  cachedRequest (URL Mem.plainQuery) = false
  ∧ KeepsEntries (Mem.world0 10 Mem.store0) (Query Mem.plainQuery (Mem.world0 10 Mem.store0)).2.
Proof.
  split; [reflexivity |].
  apply (plain_request_stores_nothing Mem.plainQuery (Mem.world0 10 Mem.store0)).
  reflexivity.
Defined.

Lemma GroupBy_merges_what_was_delivered_witness :
  let w := Mem.world0 10 Mem.store0 in
  ∃ calls result,
    trace (GroupBy Mem.plainQuery w).2 = (trace w ++ calls)%list
    ∧ (GroupBy Mem.plainQuery w).1.1 = Some result
    ∧ result = aggregatesOfMap (foldl mergeShard ∅ (deliveredAggregates calls))
    ∧ NoDup (Id <$> AggregatesList result).
Proof.
  cbn zeta.
  assert (Hq : GroupBy Mem.plainQuery (Mem.world0 10 Mem.store0)
               = (((GroupBy Mem.plainQuery (Mem.world0 10 Mem.store0)).1.1, None),
                  (GroupBy Mem.plainQuery (Mem.world0 10 Mem.store0)).2))
    by (vm_compute; reflexivity).
  exact (GroupBy_merges_what_was_delivered _ _ _ _ Hq).
Defined.

Lemma Series_concatenates_what_was_delivered_witness :
  let w := Mem.world0 10 Mem.store0 in
  ∃ calls,
    trace (Series Mem.plainQuery w).2 = (trace w ++ calls)%list
    ∧ (Series Mem.plainQuery w).1.1
      = Some (mkIntervals (concat (IntervalsList <$> deliveredIntervals calls))).
Proof.
  cbn zeta.
  assert (Hq : Series Mem.plainQuery (Mem.world0 10 Mem.store0)
               = (((Series Mem.plainQuery (Mem.world0 10 Mem.store0)).1.1, None),
                  (Series Mem.plainQuery (Mem.world0 10 Mem.store0)).2))
    by (vm_compute; reflexivity).
  exact (Series_concatenates_what_was_delivered _ _ _ _ Hq).
Defined.


Lemma cache_fits_its_size_witness :
  Fits (cache (Mem.world0 1 Mem.store0))
  ∧ Fits (cache (Query Mem.cachedQuery (Mem.world0 1 Mem.store0)).2).
Proof.
  assert (Hfits : Fits (cache (Mem.world0 1 Mem.store0))) by (unfold Fits; cbn; lia).
  split; [exact Hfits |].
  apply (cache_fits_its_size Mem.cachedQuery october5 (Mem.world0 1 Mem.store0)).
  exact Hfits.
Defined.

(** With room for one entry, the second shard of the request evicts the
    first. *)
Example cache_of_size_one :
  fst <$> lru.items (cache (Query Mem.cachedQuery (Mem.world0 1 Mem.store0)).2)
  = ["/site?cache=true&shard=202610"].
Proof. vm_compute. reflexivity. Qed.

(** ** The cache marker *)

(** X21.  For a URL whose query is the encoding of the parameters [qp],
    [cachedRequest] is true exactly when the first value of ["cache"] is
    not the empty string, whatever this value is: [cache=false] and
    [cache=0] ask for caching as [cache=true] does, and later values of
    ["cache"] are not looked at. *)
Theorem cachedRequest_reads_first_value (uRL : url.URL) (qp : url.Values) :
  noEmptyList qp →
  url.RawQuery uRL = url.Encode qp →
  cachedRequest uRL = true
  ↔ ∃ value values, qp !! "cache" = Some (value :: values) ∧ value ≠ "".
Proof.
  intros Hqp Hraw. unfold cachedRequest, url.Query, url.Get.
  rewrite Hraw, ParseQuery_Encode by done.
  destruct (qp !! "cache") as [[| value values] |] eqn:Hc; cbn.
  - split; [done | by intros (? & ? & ? & ?)].
  - split.
    + intros Hlen. exists value, values. split; [done |]. by intros ->.
    + intros (v & vs & Hv & Hne). simplify_eq. by destruct v.
  - split; [done | by intros (? & ? & ? & ?)].
Qed.

Lemma cachedRequest_reads_first_value_witness :
  cachedRequest (url.mkURL "/site" "cache=false&cache=" false "") = true.
Proof.
  apply (cachedRequest_reads_first_value
           (url.mkURL "/site" "cache=false&cache=" false "") {["cache" := ["false"; ""]]}).
  - intros key. destruct (decide (key = "cache")) as [-> | Hne].
    + by rewrite lookup_singleton_eq.
    + by rewrite lookup_singleton_ne.
  - vm_compute. reflexivity.
  - exists "false", [""]. by rewrite lookup_singleton_eq.
Defined.
